(** * Telegram-to-Drive relay bot: a shallow embedding and its properties

    The repository holds two near-duplicate bots,
    [src/mobile_friendly_bot.py] (webhook hosted) and
    [src/render_compatible_bot.py] (polling thread beside a health-check
    server).  Each handler is an [async] function whose only effects are
    calls to the chat transport, to the storage provider, to the local
    file system and to the logger.  The handlers are embedded here as
    programs of a small state-and-exception monad that records every such
    call in a trace; the answers of the two collaborators are read from a
    [World] value, so a run is a function of the inbound update and the
    world.

    Conventions of the embedding:
    - every exception is a subclass of [Exception]; cancellation of the
      task and [KeyboardInterrupt] are not modelled;
    - an inbound document declares its size ([file_size] is an [int]);
    - the temporary file belongs to the run: nothing else creates or
      removes it, and a write to it does not fail;
    - a message is recorded by its template and the values interpolated
      in it, and its text is formed by [message_text]; the source forms
      the text just before the call, which makes a difference only for
      integers beyond the binary64 range (see [message_text_total]);
    - the provider's resumable upload ends after finitely many
      [next_chunk] calls, by an answer or by an exception;
    - process hosting (the webhook route, the polling thread, the
      health-check server, start-up) is outside the embedding. *)

From Stdlib Require Import ZArith List String Ascii Bool Lia Sorted.
From Stdlib Require Import Floats.SpecFloat.
From Stdlib Require Import DecimalString.
Import ListNotations.

Local Open Scope string_scope.
Local Open Scope Z_scope.

(** ** Python exceptions and results *)

(** The exception classes this program can meet.  All of them derive from
    [Exception]; only [HttpError] is told apart by a handler. *)
Inductive exn_class : Type :=
| HttpError
| ZeroDivisionError
| OverflowError
| ValueError
| FileNotFoundError
| TelegramError
| GenericException.

(** An exception value: its class and the text [str(e)] gives. *)
Record exn : Type := Exn { exn_kind : exn_class; exn_str : string }.

Definition is_HttpError (e : exn) : bool :=
  match exn_kind e with HttpError => true | _ => false end.

Inductive Result (A : Type) : Type :=
| Ok (a : A)
| Raise (e : exn).
Arguments Ok {A} a.
Arguments Raise {A} e.

Definition rbind {A B : Type} (r : Result A) (k : A -> Result B) : Result B :=
  match r with
  | Ok a => k a
  | Raise e => Raise e
  end.

Declare Scope result_scope.
Delimit Scope result_scope with result.
Notation "x <~ r ;; k" := (rbind r (fun x => k))
  (at level 61, r at next level, right associativity) : result_scope.
Local Open Scope result_scope.

(** ** Python numbers

    [int] is unbounded ([Z]).  [float] is IEEE 754 binary64, taken from the
    specification floats of the standard library, whose operations round
    to nearest, ties to even, as CPython's do. *)
Module Py.

Definition prec : Z := 53.
Definition emax : Z := 1024.

Definition float : Type := spec_float.

(** [float(n)] for an [int]: correctly rounded, [OverflowError] beyond the
    binary64 range. *)
Definition float_of_int (n : Z) : Result float :=
  match n with
  | Z0 => Ok (S754_zero false)
  | Zpos _ =>
      match binary_normalize prec emax n 0 false with
      | S754_infinity _ => Raise (Exn OverflowError "int too large to convert to float")
      | f => Ok f
      end
  | Zneg _ =>
      match binary_normalize prec emax n 0 true with
      | S754_infinity _ => Raise (Exn OverflowError "int too large to convert to float")
      | f => Ok f
      end
  end.

(** [a / b] on two [int]s (true division): the correctly rounded quotient
    of the exact integers. *)
Definition true_div (a b : Z) : Result float :=
  match b with
  | Z0 => Raise (Exn ZeroDivisionError "division by zero")
  | _ =>
      match a with
      | Z0 => Ok (S754_zero (b <? 0))
      | _ =>
          match SFdiv prec emax
                  (S754_finite (a <? 0) (Z.to_pos (Z.abs a)) 0)
                  (S754_finite (b <? 0) (Z.to_pos (Z.abs b)) 0) with
          | S754_infinity _ =>
              Raise (Exn OverflowError "integer division result too large for a float")
          | f => Ok f
          end
      end
  end.

(** [x * y] and [x / y] on two [float]s. *)
Definition fmul (x y : float) : float := SFmul prec emax x y.

Definition fdiv (x y : float) : Result float :=
  match y with
  | S754_zero _ => Raise (Exn ZeroDivisionError "float division by zero")
  | _ => Ok (SFdiv prec emax x y)
  end.

(** [x > 0] on a [float]. *)
Definition fpos (x : float) : bool :=
  match x with
  | S754_finite false _ _ | S754_infinity false => true
  | _ => false
  end.

(** [int(x)] for a [float]: truncation toward zero. *)
Definition int_of_float (x : float) : Result Z :=
  match x with
  | S754_zero _ => Ok 0
  | S754_finite s m e =>
      let a := match e with
               | Zneg k => Z.shiftr (Zpos m) (Zpos k)
               | _ => Z.shiftl (Zpos m) e
               end in
      Ok (if s then - a else a)
  | S754_infinity _ => Raise (Exn OverflowError "cannot convert float infinity to integer")
  | S754_nan => Raise (Exn ValueError "cannot convert float NaN to integer")
  end.

(** [str(n)] for an [int]. *)
Definition str (n : Z) : string := NilZero.string_of_int (Z.to_int n).

(** The digits of a natural number, left-padded with zeros to [width]. *)
Fixpoint zfill (width : nat) (s : string) : string :=
  match width with
  | O => s
  | S w => if Nat.ltb (String.length s) width then zfill w ("0" ++ s) else s
  end.

(** [m * 2^e * 10^digits] rounded to the nearest integer, ties to even. *)
Definition scaled_round (digits : nat) (m : positive) (e : Z) : Z :=
  let num := Zpos m * 10 ^ Z.of_nat digits in
  match e with
  | Zneg k =>
      let den := 2 ^ Zpos k in
      let q := num / den in
      let r := num mod den in
      match 2 * r ?= den with
      | Lt => q
      | Gt => q + 1
      | Eq => if Z.even q then q else q + 1
      end
  | _ => num * 2 ^ e
  end.

(** [format(x, '.<digits>f')]: fixed-point text of the exact binary value,
    correctly rounded. *)
Definition format_fixed (digits : nat) (x : float) : string :=
  match x with
  | S754_nan => "nan"
  | S754_infinity s => if s then "-inf" else "inf"
  | S754_zero s =>
      (if s then "-" else "") ++ "0" ++
      match digits with O => "" | _ => "." ++ zfill digits "" end
  | S754_finite s m e =>
      let n := scaled_round digits m e in
      let p := 10 ^ Z.of_nat digits in
      (if s then "-" else "") ++ str (n / p) ++
      match digits with O => "" | _ => "." ++ zfill digits (str (n mod p)) end
  end.

(** [s * n] on a [str]: [n] copies, none when [n <= 0]. *)
Definition str_repeat (s : string) (n : Z) : string :=
  String.concat "" (List.repeat s (Z.to_nat n)).

End Py.

(** ** Inbound updates and configuration *)

(** [update.message.document]: the attachment's handle, optional display
    name and declared size. *)
Record Document : Type := {
  file_id : string;
  file_name : option string;
  file_size : Z
}.

(** The part of a Telegram [Update] the handlers read. *)
Record Update : Type := {
  effective_user_id : Z;
  document : option Document
}.

(** [storageQuota] of the provider's [about] resource, both fields optional. *)
Record Quota : Type := {
  usage : option Z;
  limit : option Z
}.

(** The body a finished upload returns: [id] and [webViewLink]. *)
Record Response : Type := {
  response_id : option string;
  response_webViewLink : option string
}.

(** ** User-visible messages

    One constructor per message template of the source, carrying the values
    the f-string interpolates.  [message_text] in each variant's module gives
    the text. *)
Inductive Message : Type :=
| MsgNotAuthorized
| MsgWelcome
| MsgHelp
| MsgStatusConnected (used_bytes total_bytes : Z)
| MsgStatusError (error_msg : string)
| MsgHello
| MsgSendDocument
| MsgTooLarge (name : string) (size : Z)
| MsgFileReceived (name : string) (size : Z)
| MsgPreparing
| MsgDownloading (progress downloaded_size size : Z)
| MsgDownloadComplete (name : string)
| MsgUploading (progress uploaded_size size : Z) (name : string)
| MsgUploadSuccessful (name : string) (size : Z) (drive_id : option string) (link : string)
| MsgUploadFailed (name : string) (error_msg : string)
| MsgErrorProcessing (name : string) (error_msg : string).

(** ** Calls to the outside, and the trace *)

Inductive LogLevel : Type := INFO | ERROR.

Inductive FileMode : Type := rb | wb.

Inductive Op : Type :=
(* chat transport *)
| Reply (m : Message)                 (* update.message.reply_text *)
| Edit (m : Message)                  (* status_message.edit_text *)
| GetFile (fid : string)              (* context.bot.get_file *)
| NextDownload                        (* one step of download_chunk's iterator *)
(* local file system *)
| TempCreate                          (* tempfile.NamedTemporaryFile(delete=False) *)
| Open (mode : FileMode)              (* open(temp_file_path, mode) / io.FileIO *)
| Close (mode : FileMode)
| WriteChunk (n : N)                  (* f.write(chunk), len(chunk) = n *)
| PathExists (b : bool)               (* os.path.exists(temp_file_path) *)
| Unlink                              (* os.unlink(temp_file_path) *)
(* storage provider *)
| BuildService                        (* credentials and build('drive', 'v3') *)
| AboutGet                            (* about().get(fields=...).execute() *)
| FilesCreate (name : string) (parents : list string)
| NextChunk (fraction : option Py.float)  (* request.next_chunk() and its status *)
(* logger *)
| Log (level : LogLevel) (text : string).

(** A call and how it ended: [None] when it returned, [Some e] when it
    raised [e]. *)
Record Event : Type := Ev { ev_op : Op; ev_raised : option exn }.

(** Everything outside the program that a run depends on. *)
Record World : Type := {
  (* configuration, read once at import time *)
  AUTHORIZED_USERS : list Z;
  GOOGLE_DRIVE_FOLDER_ID : option string;
  GOOGLE_SERVICE_ACCOUNT : option string;
  (* chat transport: whether its n-th call of this run raises *)
  chat_fault : nat -> option exn;
  (* the chunk lengths download_chunk yields, and how the iteration ends *)
  download_chunks : list N;
  download_error : option exn;
  (* storage provider *)
  build_fault : option exn;
  about_result : Result Quota;
  upload_progress_steps : list (option Py.float);
  upload_final : Result (option Py.float * Response);
  (* the name tempfile picks *)
  temp_file_path : string
}.

(** The state a run threads: the trace so far, the number of chat calls
    made, and whether the temporary file is on disk. *)
Record State : Type := {
  trace : list Event;
  chat_calls : nat;
  temp_exists : bool
}.

Definition initial : State :=
  {| trace := []; chat_calls := 0; temp_exists := false |}.

(** ** The monad of handlers *)

Definition M (A : Type) : Type := State -> Result A * State.

Definition ret {A : Type} (a : A) : M A := fun s => (Ok a, s).

Definition bind {A B : Type} (m : M A) (k : A -> M B) : M B :=
  fun s =>
    match m s with
    | (Ok a, s') => k a s'
    | (Raise e, s') => (Raise e, s')
    end.

Definition raise {A : Type} (e : exn) : M A := fun s => (Raise e, s).

Definition lift {A : Type} (r : Result A) : M A := fun s => (r, s).

Declare Scope py_scope.
Delimit Scope py_scope with py.
Notation "x <- m ;; k" := (bind m (fun x => k))
  (at level 61, m at next level, right associativity) : py_scope.
Notation "m ;; k" := (bind m (fun _ => k))
  (at level 61, right associativity) : py_scope.
Local Open Scope py_scope.

(** [try: body except Exception as e: handler e]. *)
Definition try_except {A : Type} (body : M A) (handler : exn -> M A) : M A :=
  fun s =>
    match body s with
    | (Ok a, s') => (Ok a, s')
    | (Raise e, s') => handler e s'
    end.

(** [try: body finally: final]: [final] always runs; an exception pending
    from [body] is raised again after it unless [final] raises itself. *)
Definition try_finally {A : Type} (body : M A) (final : M unit) : M A :=
  fun s =>
    match body s with
    | (r, s') =>
        match final s' with
        | (Ok _, s'') => (r, s'')
        | (Raise e, s'') => (Raise e, s'')
        end
    end.

(** [try: body except HttpError as error: handler error finally: final]. *)
Definition try_except_HttpError_finally {A : Type}
    (body : M A) (handler : exn -> M A) (final : M unit) : M A :=
  try_finally
    (try_except body (fun e => if is_HttpError e then handler e else raise e))
    final.

Definition record (op : Op) (r : option exn) : M unit :=
  fun s => (Ok tt, {| trace := trace s ++ [Ev op r];
                      chat_calls := chat_calls s;
                      temp_exists := temp_exists s |}).

Section Primitives.

Variable w : World.

(** A call to the chat transport: it is counted, and raises when the world
    says this call does. *)
Definition chat (op : Op) : M unit :=
  fun s =>
    let s' := {| trace := trace s ++ [Ev op (chat_fault w (chat_calls s))];
                 chat_calls := S (chat_calls s);
                 temp_exists := temp_exists s |} in
    match chat_fault w (chat_calls s) with
    | None => (Ok tt, s')
    | Some e => (Raise e, s')
    end.

Definition reply_text (m : Message) : M unit := chat (Reply m).
Definition edit_text (m : Message) : M unit := chat (Edit m).
Definition get_file (fid : string) : M unit := chat (GetFile fid).

Definition log (level : LogLevel) (text : string) : M unit :=
  record (Log level text) None.

(** The file system holds one file of interest, the temporary file, owned
    by the run: creating it puts it on disk, opening and unlinking need it
    there. *)
Definition set_temp (b : bool) : M unit :=
  fun s => (Ok tt, {| trace := trace s; chat_calls := chat_calls s; temp_exists := b |}).

Definition no_such_file : exn :=
  Exn FileNotFoundError "[Errno 2] No such file or directory".

Definition temp_create : M unit :=
  record TempCreate None ;; set_temp true.

Definition fs_open (mode : FileMode) : M unit :=
  fun s =>
    if temp_exists s then record (Open mode) None s
    else (record (Open mode) (Some no_such_file) ;; raise no_such_file) s.

Definition fs_close (mode : FileMode) : M unit := record (Close mode) None.

(** [with open(temp_file_path, mode) as f: body]. *)
Definition with_open {A : Type} (mode : FileMode) (body : M A) : M A :=
  fs_open mode ;; try_finally body (fs_close mode).

Definition fs_write (n : N) : M unit := record (WriteChunk n) None.

Definition path_exists : M bool :=
  fun s => (record (PathExists (temp_exists s)) None ;; ret (temp_exists s)) s.

Definition unlink : M unit :=
  fun s =>
    if temp_exists s then (record Unlink None ;; set_temp false) s
    else (record Unlink (Some no_such_file) ;; raise no_such_file) s.

(** A call to the storage provider whose outcome the world fixes. *)
Definition provider {A : Type} (op : Op) (r : Result A) : M A :=
  match r with
  | Ok a => record op None ;; ret a
  | Raise e => record op (Some e) ;; raise e
  end.

End Primitives.

(** The handlers the application registers, in registration order. *)
Inductive Inbound : Type :=
| StartCommand
| HelpCommand
| StatusCommand
| DocumentMessage
| TextMessage.

Definition nl : string := String (ascii_of_nat 10) EmptyString.

(** [x or default] on an optional [str]: [None] and the empty string are
    both falsy. *)
Definition str_or (x : option string) (default : string) : string :=
  match x with
  | None | Some EmptyString => default
  | Some s => s
  end.

(** ** The webhook-hosted variant, [src/mobile_friendly_bot.py] *)
Module Mobile.

Definition create_progress_bar (progress width : Z) : Result string :=
  q <~ Py.true_div (width * progress) 100 ;;
  filled <~ Py.int_of_float q ;;
  let bar := Py.str_repeat "█" filled ++ Py.str_repeat "░" (width - filled) in
  Ok ("[" ++ bar ++ "] " ++ Py.str progress ++ "%").

Definition format_file_size (size_bytes : Z) : Result string :=
  if size_bytes >=? 1024 ^ 3 then
    q <~ Py.true_div size_bytes (1024 ^ 3) ;; Ok (Py.format_fixed 2 q ++ "GB")
  else if size_bytes >=? 1024 ^ 2 then
    q <~ Py.true_div size_bytes (1024 ^ 2) ;; Ok (Py.format_fixed 2 q ++ "MB")
  else if size_bytes >=? 1024 then
    q <~ Py.true_div size_bytes 1024 ;; Ok (Py.format_fixed 2 q ++ "KB")
  else Ok (Py.str size_bytes ++ "B").

(** The text of each message, as the f-strings of the source build it.
    The source evaluates the f-string just before the call that sends it;
    the handlers below pass the interpolated values in the [Message] and
    the text is formed here.  Forming it can only raise [OverflowError],
    on an integer beyond the binary64 range; [message_text_total] shows
    that it raises nothing while byte counts and percentages stay within
    2^59 in absolute value. *)
Definition message_text (m : Message) : Result string :=
  match m with
  | MsgNotAuthorized => Ok "❌ You are not authorized to use this bot."
  | MsgWelcome =>
      Ok ("🚀 **Welcome to Telegram to Google Drive Bot!**" ++ nl ++ nl ++
          "📁 Send me any file and I'll upload it to your Google Drive" ++ nl ++
          "💾 I can handle files up to 6GB in size" ++ nl ++
          "📊 You'll see progress updates during upload" ++ nl ++ nl ++
          "Use /help to see all available commands.")
  | MsgHelp =>
      Ok ("📖 **Available Commands:**" ++ nl ++ nl ++
          "🏁 /start - Start the bot" ++ nl ++
          "❓ /help - Show this help message" ++ nl ++
          "📊 /status - Check bot and Drive status" ++ nl ++ nl ++
          "📤 **To upload files:**" ++ nl ++
          "Just send me any file and I'll upload it to Google Drive automatically!")
  | MsgStatusConnected used_bytes total_bytes =>
      used <~ Py.true_div used_bytes (1024 ^ 3) ;;
      total <~ Py.true_div total_bytes (1024 ^ 3) ;;
      let head :=
        "🤖 **Bot Status Report:**" ++ nl ++ nl ++
        "✅ Bot is running smoothly" ++ nl ++
        "✅ Google Drive connected successfully" ++ nl ++
        "💾 Storage used: " ++ Py.format_fixed 2 used ++ "GB" in
      if Py.fpos total then
        ratio <~ Py.fdiv used total ;;
        hundred <~ Py.float_of_int 100 ;;
        let percentage := Py.fmul ratio hundred in
        Ok (head ++ " of " ++ Py.format_fixed 2 total ++ "GB" ++
            " (" ++ Py.format_fixed 1 percentage ++ "%)")
      else Ok head
  | MsgStatusError error_msg =>
      Ok ("🤖 **Bot Status Report:**" ++ nl ++ nl ++
          "✅ Bot is running smoothly" ++ nl ++
          "❌ Google Drive connection error:" ++ nl ++ "`" ++ error_msg ++ "`")
  | MsgHello =>
      Ok ("👋 Hello! I'm ready to help you upload files to Google Drive." ++ nl ++ nl ++
          "📤 **To upload a file:**" ++ nl ++
          "Simply send me any document, video, photo, or file!" ++ nl ++ nl ++
          "❓ **Need help?** Use /help to see all commands.")
  | MsgSendDocument => Ok "❌ Please send a file document."
  | MsgTooLarge name size =>
      file_size_formatted <~ format_file_size size ;;
      Ok ("❌ File too large!" ++ nl ++ nl ++
          "📁 File: " ++ name ++ nl ++
          "📏 Size: " ++ file_size_formatted ++ nl ++
          "🚫 Maximum allowed: 6GB" ++ nl ++ nl ++
          "Please send a smaller file.")
  | MsgFileReceived name size =>
      file_size_formatted <~ format_file_size size ;;
      Ok ("📥 **File Received!**" ++ nl ++ nl ++
          "📁 Name: `" ++ name ++ "`" ++ nl ++
          "📏 Size: " ++ file_size_formatted ++ nl ++ nl ++
          "⏳ Starting download from Telegram...")
  | MsgPreparing => Ok "📥 Preparing download..."
  | MsgDownloading progress downloaded_size size =>
      file_size_formatted <~ format_file_size size ;;
      progress_bar <~ create_progress_bar progress 20 ;;
      downloaded_formatted <~ format_file_size downloaded_size ;;
      Ok ("📥 **Downloading from Telegram**" ++ nl ++ nl ++
          progress_bar ++ nl ++ nl ++
          "📊 Progress: " ++ downloaded_formatted ++ " / " ++ file_size_formatted ++ nl ++
          "⚡ Status: " ++ Py.str progress ++ "% complete")
  | MsgDownloadComplete name =>
      Ok ("✅ **Download Complete!**" ++ nl ++ nl ++
          "☁️ Starting upload to Google Drive..." ++ nl ++
          "📁 File: " ++ name)
  | MsgUploading progress uploaded_size size name =>
      file_size_formatted <~ format_file_size size ;;
      progress_bar <~ create_progress_bar progress 20 ;;
      uploaded_formatted <~ format_file_size uploaded_size ;;
      Ok ("☁️ **Uploading to Google Drive**" ++ nl ++ nl ++
          progress_bar ++ nl ++ nl ++
          "📊 Progress: " ++ uploaded_formatted ++ " / " ++ file_size_formatted ++ nl ++
          "⚡ Status: " ++ Py.str progress ++ "% complete" ++ nl ++
          "📁 File: " ++ name)
  | MsgUploadSuccessful name size drive_id link =>
      file_size_formatted <~ format_file_size size ;;
      Ok ("🎉 **Upload Successful!**" ++ nl ++ nl ++
          "📁 **File:** `" ++ name ++ "`" ++ nl ++
          "📏 **Size:** " ++ file_size_formatted ++ nl ++
          "🆔 **Drive ID:** `" ++ match drive_id with Some i => i | None => "None" end ++ "`" ++ nl ++ nl ++
          "🔗 **[Open in Google Drive](" ++ link ++ ")**" ++ nl ++ nl ++
          "✅ Your file is now safely stored in Google Drive!")
  | MsgUploadFailed name error_msg =>
      Ok ("❌ **Google Drive Upload Failed**" ++ nl ++ nl ++
          "📁 File: " ++ name ++ nl ++
          "🚫 Error: " ++ error_msg ++ nl ++ nl ++
          "Please try again or contact support.")
  | MsgErrorProcessing name error_msg =>
      Ok ("❌ **Error Processing File**" ++ nl ++ nl ++
          "📁 File: " ++ name ++ nl ++
          "🚫 Error: " ++ error_msg ++ nl ++ nl ++
          "Please try again or send a different file.")
  end.

Section Handlers.

Variable w : World.

Definition get_drive_service : M unit :=
  try_except
    (match GOOGLE_SERVICE_ACCOUNT w with
     | None | Some EmptyString =>
         raise (Exn GenericException "GOOGLE_SERVICE_ACCOUNT environment variable not found")
     | Some _ =>
         provider BuildService
           match build_fault w with None => Ok tt | Some e => Raise e end
     end)
    (fun e =>
       log ERROR ("Failed to authenticate with Google Drive: " ++ exn_str e) ;;
       raise e).

Definition check_authorization (update : Update) : M bool :=
  let user_id := effective_user_id update in
  match AUTHORIZED_USERS w with
  | [] => ret true
  | _ =>
      if existsb (Z.eqb user_id) (AUTHORIZED_USERS w) then ret true
      else reply_text w MsgNotAuthorized ;; ret false
  end.

Definition start_command (update : Update) : M unit :=
  ok <- check_authorization update ;;
  if negb ok then ret tt else
  reply_text w MsgWelcome.

Definition help_command (update : Update) : M unit :=
  ok <- check_authorization update ;;
  if negb ok then ret tt else
  reply_text w MsgHelp.

(** [quota.get('usage', 0)] and [quota.get('limit', 0)] are read inside the
    [try]; the report is sent after it, whichever branch built it. *)
Definition status_command (update : Update) : M unit :=
  ok <- check_authorization update ;;
  if negb ok then ret tt else
  status_message <-
    try_except
      (get_drive_service ;;
       quota <- provider AboutGet (about_result w) ;;
       let used := match usage quota with Some n => n | None => 0 end in
       let total := match limit quota with Some n => n | None => 0 end in
       ret (MsgStatusConnected used total))
      (fun e => ret (MsgStatusError (exn_str e))) ;;
  reply_text w status_message.

Definition max_size : Z := 6 * 1024 * 1024 * 1024.

(** [min(int((downloaded_size / file_size) * 100), 100)]. *)
Definition download_progress (downloaded_size file_size : Z) : Result Z :=
  ratio <~ Py.true_div downloaded_size file_size ;;
  hundred <~ Py.float_of_int 100 ;;
  percent <~ Py.int_of_float (Py.fmul ratio hundred) ;;
  Ok (Z.min percent 100).

(** The body of [async for chunk in telegram_file.download_chunk(...)],
    iterated over the chunks the transport yields. *)
Fixpoint download_loop (file_size : Z) (chunks : list N)
    (downloaded_size last_progress_update : Z) : M unit :=
  match chunks with
  | [] =>
      match download_error w with
      | None => record NextDownload None
      | Some e => record NextDownload (Some e) ;; raise e
      end
  | chunk :: rest =>
      record NextDownload None ;;
      fs_write chunk ;;
      let downloaded_size := downloaded_size + Z.of_N chunk in
      progress <- lift (download_progress downloaded_size file_size) ;;
      if progress - last_progress_update >=? 3 then
        edit_text w (MsgDownloading progress downloaded_size file_size) ;;
        download_loop file_size rest downloaded_size progress
      else
        download_loop file_size rest downloaded_size last_progress_update
  end.

(** [int(status.progress() * 100)] and [int(file_size * status.progress())]. *)
Definition upload_progress (fraction : Py.float) : Result Z :=
  hundred <~ Py.float_of_int 100 ;;
  Py.int_of_float (Py.fmul fraction hundred).

Definition uploaded_size_of (file_size : Z) (fraction : Py.float) : Result Z :=
  size <~ Py.float_of_int file_size ;;
  Py.int_of_float (Py.fmul size fraction).

(** What one turn of the upload loop does with the status it received;
    gives the new [last_upload_progress]. *)
Definition upload_report (file_name : string) (file_size : Z)
    (status : option Py.float) (last_upload_progress : Z) : M Z :=
  match status with
  | None => ret last_upload_progress
  | Some fraction =>
      progress <- lift (upload_progress fraction) ;;
      uploaded_size <- lift (uploaded_size_of file_size fraction) ;;
      if progress - last_upload_progress >=? 5 then
        edit_text w (MsgUploading progress uploaded_size file_size file_name) ;;
        ret progress
      else ret last_upload_progress
  end.

(** [while response is None: status, response = request.next_chunk() ...]:
    the provider answers with the world's progress steps, then with its
    final answer. *)
Fixpoint upload_loop (file_name : string) (file_size : Z)
    (steps : list (option Py.float)) (last_upload_progress : Z) : M Response :=
  match steps with
  | [] =>
      match upload_final w with
      | Raise e => record (NextChunk None) (Some e) ;; raise e
      | Ok (status, response) =>
          record (NextChunk status) None ;;
          upload_report file_name file_size status last_upload_progress ;;
          ret response
      end
  | status :: rest =>
      record (NextChunk status) None ;;
      last <- upload_report file_name file_size status last_upload_progress ;;
      upload_loop file_name file_size rest last
  end.

(** The pipeline for an inbound document.  The outer [try] starts after
    the File Received reply; the inner one, whose [finally] removes the
    temporary file, starts after the Download Complete edit.
    [file_size_formatted] is computed once, ahead of the size guard, and is
    part of the text of the messages that show it. *)
Definition handle_file (update : Update) : M unit :=
  ok <- check_authorization update ;;
  if negb ok then ret tt else
  match document update with
  | None => reply_text w MsgSendDocument
  | Some file =>
      let file_name := str_or (file_name file) "unnamed_file" in
      let file_size := file_size file in
      if file_size >? max_size then
        reply_text w (MsgTooLarge file_name file_size)
      else
        reply_text w (MsgFileReceived file_name file_size) ;;
        try_except
          (reply_text w MsgPreparing ;;
           get_file w (file_id file) ;;
           temp_create ;;
           with_open wb (download_loop file_size (download_chunks w) 0 (-1)) ;;
           edit_text w (MsgDownloadComplete file_name) ;;
           try_except_HttpError_finally
             (get_drive_service ;;
              let parents := match GOOGLE_DRIVE_FOLDER_ID w with
                             | None | Some EmptyString => []
                             | Some folder => [folder]
                             end in
              fs_open rb ;;
              record (FilesCreate file_name parents) None ;;
              response <- upload_loop file_name file_size
                            (upload_progress_steps w) (-1) ;;
              let file_id := response_id response in
              let file_link := match response_webViewLink response with
                               | Some l => l
                               | None => "Link not available"
                               end in
              edit_text w (MsgUploadSuccessful file_name file_size file_id file_link))
             (fun error =>
                let error_msg := exn_str error in
                edit_text w (MsgUploadFailed file_name error_msg) ;;
                log ERROR ("Google Drive upload error: " ++ error_msg))
             (on_disk <- path_exists ;;
              (if on_disk then unlink else ret tt) ;;
              log INFO ("Cleaned up temporary file: " ++ temp_file_path w)))
          (fun e =>
             let error_msg := exn_str e in
             log ERROR ("Error handling file: " ++ error_msg) ;;
             reply_text w (MsgErrorProcessing file_name error_msg))
  end.

Definition text_handler (update : Update) : M unit :=
  ok <- check_authorization update ;;
  if negb ok then ret tt else
  reply_text w MsgHello.

(** The handler [application.add_handler] registers for each kind of
    inbound event. *)
Definition handle (ev : Inbound) : Update -> M unit :=
  match ev with
  | StartCommand => start_command
  | HelpCommand => help_command
  | StatusCommand => status_command
  | DocumentMessage => handle_file
  | TextMessage => text_handler
  end.

End Handlers.

End Mobile.

(** ** The polling-thread variant, [src/render_compatible_bot.py] *)
Module Render.

Definition create_progress_bar (progress width : Z) : Result string :=
  q <~ Py.true_div (width * progress) 100 ;;
  filled <~ Py.int_of_float q ;;
  let bar := Py.str_repeat "█" filled ++ Py.str_repeat "░" (width - filled) in
  Ok ("[" ++ bar ++ "] " ++ Py.str progress ++ "%").

Definition format_file_size (size_bytes : Z) : Result string :=
  if size_bytes >=? 1024 ^ 3 then
    q <~ Py.true_div size_bytes (1024 ^ 3) ;; Ok (Py.format_fixed 2 q ++ "GB")
  else if size_bytes >=? 1024 ^ 2 then
    q <~ Py.true_div size_bytes (1024 ^ 2) ;; Ok (Py.format_fixed 2 q ++ "MB")
  else if size_bytes >=? 1024 then
    q <~ Py.true_div size_bytes 1024 ;; Ok (Py.format_fixed 2 q ++ "KB")
  else Ok (Py.str size_bytes ++ "B").

(** The text of each message, as the f-strings of the source build it.
    The source evaluates the f-string just before the call that sends it;
    the handlers below pass the interpolated values in the [Message] and
    the text is formed here.  Forming it can only raise [OverflowError],
    on an integer beyond the binary64 range; [message_text_total] shows
    that it raises nothing while byte counts and percentages stay within
    2^59 in absolute value. *)
Definition message_text (m : Message) : Result string :=
  match m with
  | MsgNotAuthorized => Ok "❌ You are not authorized to use this bot."
  | MsgWelcome =>
      Ok ("🚀 **Welcome to Telegram to Google Drive Bot!**" ++ nl ++ nl ++
          "📁 Send me any file and I'll upload it to your Google Drive" ++ nl ++
          "💾 I can handle files up to 6GB in size" ++ nl ++
          "📊 You'll see progress updates during upload" ++ nl ++ nl ++
          "Use /help to see all available commands.")
  | MsgHelp =>
      Ok ("📖 **Available Commands:**" ++ nl ++ nl ++
          "🏁 /start - Start the bot" ++ nl ++
          "❓ /help - Show this help message" ++ nl ++
          "📊 /status - Check bot and Drive status" ++ nl ++ nl ++
          "📤 **To upload files:**" ++ nl ++
          "Just send me any file and I'll upload it to Google Drive automatically!")
  | MsgStatusConnected used_bytes total_bytes =>
      used <~ Py.true_div used_bytes (1024 ^ 3) ;;
      total <~ Py.true_div total_bytes (1024 ^ 3) ;;
      let head :=
        "🤖 **Bot Status Report:**" ++ nl ++ nl ++
        "✅ Bot is running smoothly" ++ nl ++
        "✅ Google Drive connected successfully" ++ nl ++
        "💾 Storage used: " ++ Py.format_fixed 2 used ++ "GB" in
      if Py.fpos total then
        ratio <~ Py.fdiv used total ;;
        hundred <~ Py.float_of_int 100 ;;
        let percentage := Py.fmul ratio hundred in
        Ok (head ++ " of " ++ Py.format_fixed 2 total ++ "GB" ++
            " (" ++ Py.format_fixed 1 percentage ++ "%)")
      else Ok head
  | MsgStatusError error_msg =>
      Ok ("🤖 **Bot Status Report:**" ++ nl ++ nl ++
          "✅ Bot is running smoothly" ++ nl ++
          "❌ Google Drive connection error:" ++ nl ++ "`" ++ error_msg ++ "`")
  | MsgHello =>
      Ok ("👋 Hello! I'm ready to help you upload files to Google Drive." ++ nl ++ nl ++
          "📤 **To upload a file:**" ++ nl ++
          "Simply send me any document, video, photo, or file!" ++ nl ++ nl ++
          "❓ **Need help?** Use /help to see all commands.")
  | MsgSendDocument => Ok "❌ Please send a file document."
  | MsgTooLarge name size =>
      file_size_formatted <~ format_file_size size ;;
      Ok ("❌ File too large!" ++ nl ++ nl ++
          "📁 File: " ++ name ++ nl ++
          "📏 Size: " ++ file_size_formatted ++ nl ++
          "🚫 Maximum allowed: 6GB" ++ nl ++ nl ++
          "Please send a smaller file.")
  | MsgFileReceived name size =>
      file_size_formatted <~ format_file_size size ;;
      Ok ("📥 **File Received!**" ++ nl ++ nl ++
          "📁 Name: `" ++ name ++ "`" ++ nl ++
          "📏 Size: " ++ file_size_formatted ++ nl ++ nl ++
          "⏳ Starting download from Telegram...")
  | MsgPreparing => Ok "📥 Preparing download..."
  | MsgDownloading progress downloaded_size size =>
      file_size_formatted <~ format_file_size size ;;
      progress_bar <~ create_progress_bar progress 20 ;;
      downloaded_formatted <~ format_file_size downloaded_size ;;
      Ok ("📥 **Downloading from Telegram**" ++ nl ++ nl ++
          progress_bar ++ nl ++ nl ++
          "📊 Progress: " ++ downloaded_formatted ++ " / " ++ file_size_formatted ++ nl ++
          "⚡ Status: " ++ Py.str progress ++ "% complete")
  | MsgDownloadComplete name =>
      Ok ("✅ **Download Complete!**" ++ nl ++ nl ++
          "☁️ Starting upload to Google Drive..." ++ nl ++
          "📁 File: " ++ name)
  | MsgUploading progress uploaded_size size name =>
      file_size_formatted <~ format_file_size size ;;
      progress_bar <~ create_progress_bar progress 20 ;;
      uploaded_formatted <~ format_file_size uploaded_size ;;
      Ok ("☁️ **Uploading to Google Drive**" ++ nl ++ nl ++
          progress_bar ++ nl ++ nl ++
          "📊 Progress: " ++ uploaded_formatted ++ " / " ++ file_size_formatted ++ nl ++
          "⚡ Status: " ++ Py.str progress ++ "% complete" ++ nl ++
          "📁 File: " ++ name)
  | MsgUploadSuccessful name size drive_id link =>
      file_size_formatted <~ format_file_size size ;;
      Ok ("🎉 **Upload Successful!**" ++ nl ++ nl ++
          "📁 **File:** `" ++ name ++ "`" ++ nl ++
          "📏 **Size:** " ++ file_size_formatted ++ nl ++
          "🆔 **Drive ID:** `" ++ match drive_id with Some i => i | None => "None" end ++ "`" ++ nl ++ nl ++
          "🔗 **[Open in Google Drive](" ++ link ++ ")**" ++ nl ++ nl ++
          "✅ Your file is now safely stored in Google Drive!")
  | MsgUploadFailed name error_msg =>
      Ok ("❌ **Google Drive Upload Failed**" ++ nl ++ nl ++
          "📁 File: " ++ name ++ nl ++
          "🚫 Error: " ++ error_msg ++ nl ++ nl ++
          "Please try again or contact support.")
  | MsgErrorProcessing name error_msg =>
      Ok ("❌ **Error Processing File**" ++ nl ++ nl ++
          "📁 File: " ++ name ++ nl ++
          "🚫 Error: " ++ error_msg ++ nl ++ nl ++
          "Please try again or send a different file.")
  end.

Section Handlers.

Variable w : World.

Definition get_drive_service : M unit :=
  try_except
    (match GOOGLE_SERVICE_ACCOUNT w with
     | None | Some EmptyString =>
         raise (Exn GenericException "GOOGLE_SERVICE_ACCOUNT environment variable not found")
     | Some _ =>
         provider BuildService
           match build_fault w with None => Ok tt | Some e => Raise e end
     end)
    (fun e =>
       log ERROR ("Failed to authenticate with Google Drive: " ++ exn_str e) ;;
       raise e).

Definition check_authorization (update : Update) : M bool :=
  let user_id := effective_user_id update in
  match AUTHORIZED_USERS w with
  | [] => ret true
  | _ =>
      if existsb (Z.eqb user_id) (AUTHORIZED_USERS w) then ret true
      else reply_text w MsgNotAuthorized ;; ret false
  end.

Definition start_command (update : Update) : M unit :=
  ok <- check_authorization update ;;
  if negb ok then ret tt else
  reply_text w MsgWelcome.

Definition help_command (update : Update) : M unit :=
  ok <- check_authorization update ;;
  if negb ok then ret tt else
  reply_text w MsgHelp.

Definition status_command (update : Update) : M unit :=
  ok <- check_authorization update ;;
  if negb ok then ret tt else
  status_message <-
    try_except
      (get_drive_service ;;
       quota <- provider AboutGet (about_result w) ;;
       let used := match usage quota with Some n => n | None => 0 end in
       let total := match limit quota with Some n => n | None => 0 end in
       ret (MsgStatusConnected used total))
      (fun e => ret (MsgStatusError (exn_str e))) ;;
  reply_text w status_message.

Definition max_size : Z := 6 * 1024 * 1024 * 1024.

(** [min(int((downloaded_size / file_size) * 100), 100)]. *)
Definition download_progress (downloaded_size file_size : Z) : Result Z :=
  ratio <~ Py.true_div downloaded_size file_size ;;
  hundred <~ Py.float_of_int 100 ;;
  percent <~ Py.int_of_float (Py.fmul ratio hundred) ;;
  Ok (Z.min percent 100).

(** The body of [async for chunk in telegram_file.download_chunk(...)],
    iterated over the chunks the transport yields. *)
Fixpoint download_loop (file_size : Z) (chunks : list N)
    (downloaded_size last_progress_update : Z) : M unit :=
  match chunks with
  | [] =>
      match download_error w with
      | None => record NextDownload None
      | Some e => record NextDownload (Some e) ;; raise e
      end
  | chunk :: rest =>
      record NextDownload None ;;
      fs_write chunk ;;
      let downloaded_size := downloaded_size + Z.of_N chunk in
      progress <- lift (download_progress downloaded_size file_size) ;;
      if progress - last_progress_update >=? 3 then
        edit_text w (MsgDownloading progress downloaded_size file_size) ;;
        download_loop file_size rest downloaded_size progress
      else
        download_loop file_size rest downloaded_size last_progress_update
  end.

(** [int(status.progress() * 100)] and [int(file_size * status.progress())]. *)
Definition upload_progress (fraction : Py.float) : Result Z :=
  hundred <~ Py.float_of_int 100 ;;
  Py.int_of_float (Py.fmul fraction hundred).

Definition uploaded_size_of (file_size : Z) (fraction : Py.float) : Result Z :=
  size <~ Py.float_of_int file_size ;;
  Py.int_of_float (Py.fmul size fraction).

(** What one turn of the upload loop does with the status it received;
    gives the new [last_upload_progress]. *)
Definition upload_report (file_name : string) (file_size : Z)
    (status : option Py.float) (last_upload_progress : Z) : M Z :=
  match status with
  | None => ret last_upload_progress
  | Some fraction =>
      progress <- lift (upload_progress fraction) ;;
      uploaded_size <- lift (uploaded_size_of file_size fraction) ;;
      if progress - last_upload_progress >=? 5 then
        edit_text w (MsgUploading progress uploaded_size file_size file_name) ;;
        ret progress
      else ret last_upload_progress
  end.

(** [while response is None: status, response = request.next_chunk() ...]:
    the provider answers with the world's progress steps, then with its
    final answer. *)
Fixpoint upload_loop (file_name : string) (file_size : Z)
    (steps : list (option Py.float)) (last_upload_progress : Z) : M Response :=
  match steps with
  | [] =>
      match upload_final w with
      | Raise e => record (NextChunk None) (Some e) ;; raise e
      | Ok (status, response) =>
          record (NextChunk status) None ;;
          upload_report file_name file_size status last_upload_progress ;;
          ret response
      end
  | status :: rest =>
      record (NextChunk status) None ;;
      last <- upload_report file_name file_size status last_upload_progress ;;
      upload_loop file_name file_size rest last
  end.

(** As in the other file, except that the upload runs inside
    [with open(temp_file_path, 'rb') as f] and that the clean-up line is
    logged only when the file was there to delete. *)
Definition handle_file (update : Update) : M unit :=
  ok <- check_authorization update ;;
  if negb ok then ret tt else
  match document update with
  | None => reply_text w MsgSendDocument
  | Some file =>
      let file_name := str_or (file_name file) "unnamed_file" in
      let file_size := file_size file in
      if file_size >? max_size then
        reply_text w (MsgTooLarge file_name file_size)
      else
        reply_text w (MsgFileReceived file_name file_size) ;;
        try_except
          (reply_text w MsgPreparing ;;
           get_file w (file_id file) ;;
           temp_create ;;
           with_open wb (download_loop file_size (download_chunks w) 0 (-1)) ;;
           edit_text w (MsgDownloadComplete file_name) ;;
           try_except_HttpError_finally
             (get_drive_service ;;
              let parents := match GOOGLE_DRIVE_FOLDER_ID w with
                             | None | Some EmptyString => []
                             | Some folder => [folder]
                             end in
              with_open rb
                (fs_open rb ;;
                 record (FilesCreate file_name parents) None ;;
                 response <- upload_loop file_name file_size
                               (upload_progress_steps w) (-1) ;;
                 let file_id := response_id response in
                 let file_link := match response_webViewLink response with
                                  | Some l => l
                                  | None => "Link not available"
                                  end in
                 edit_text w (MsgUploadSuccessful file_name file_size file_id file_link)))
             (fun error =>
                let error_msg := exn_str error in
                edit_text w (MsgUploadFailed file_name error_msg) ;;
                log ERROR ("Google Drive upload error: " ++ error_msg))
             (on_disk <- path_exists ;;
              if on_disk then
                unlink ;;
                log INFO ("Cleaned up temporary file: " ++ temp_file_path w)
              else ret tt))
          (fun e =>
             let error_msg := exn_str e in
             log ERROR ("Error handling file: " ++ error_msg) ;;
             reply_text w (MsgErrorProcessing file_name error_msg))
  end.

Definition text_handler (update : Update) : M unit :=
  ok <- check_authorization update ;;
  if negb ok then ret tt else
  reply_text w MsgHello.

(** The handler [application.add_handler] registers for each kind of
    inbound event. *)
Definition handle (ev : Inbound) : Update -> M unit :=
  match ev with
  | StartCommand => start_command
  | HelpCommand => help_command
  | StatusCommand => status_command
  | DocumentMessage => handle_file
  | TextMessage => text_handler
  end.

End Handlers.

End Render.

(** ** Observations on a run *)

Local Open Scope list_scope.

(** The calls a handler makes when it is invoked on a fresh state. *)
Definition calls {A : Type} (r : Result A * State) : list Event := trace (snd r).

(** The messages the user gets to see: those of the [reply_text] and
    [edit_text] calls that returned. *)
Definition shown (ev : Event) : option Message :=
  match ev with
  | Ev (Reply m) None | Ev (Edit m) None => Some m
  | _ => None
  end.

Fixpoint user_visible (tr : list Event) : list Message :=
  match tr with
  | [] => []
  | ev :: rest =>
      match shown ev with
      | Some m => m :: user_visible rest
      | None => user_visible rest
      end
  end.

(** Calls that touch the temporary storage, fetch content from the chat
    transport, or reach the storage provider. *)
Definition is_storage_op (op : Op) : bool :=
  match op with
  | TempCreate | Open _ | Close _ | WriteChunk _ | PathExists _ | Unlink => true
  | _ => false
  end.

Definition is_download_op (op : Op) : bool :=
  match op with
  | GetFile _ | NextDownload => true
  | _ => false
  end.

Definition is_provider_op (op : Op) : bool :=
  match op with
  | BuildService | AboutGet | FilesCreate _ _ | NextChunk _ => true
  | _ => false
  end.

(** How often the temporary file was deleted. *)
Definition deletions (tr : list Event) : nat :=
  List.length (List.filter
    (fun ev => match ev with Ev Unlink None => true | _ => false end) tr).

Definition temp_created (tr : list Event) : bool :=
  existsb (fun ev => match ev with Ev TempCreate None => true | _ => false end) tr.

(** The sender passes the gate: the allow-list is empty or holds the sender. *)
Definition permitted (w : World) (update : Update) : Prop :=
  AUTHORIZED_USERS w = [] \/ In (effective_user_id update) (AUTHORIZED_USERS w).

Definition refused (w : World) (update : Update) : Prop :=
  AUTHORIZED_USERS w <> [] /\ ~ In (effective_user_id update) (AUTHORIZED_USERS w).

(** [Emits P m]: whatever the state, [m] only appends to the trace, and
    every call it appends satisfies [P]. *)
Definition Emits (P : Event -> Prop) {A : Type} (m : M A) : Prop :=
  forall s, exists evs, trace (snd (m s)) = (trace s ++ evs)%list /\ Forall P evs.

(** The calls made by the helpers of the transfer: the two loops and
    [get_drive_service]. *)
Definition is_loop_op (op : Op) : bool :=
  match op with
  | NextDownload | WriteChunk _ | Edit (MsgDownloading _ _ _)
  | NextChunk _ | Edit (MsgUploading _ _ _ _)
  | BuildService | Log _ _ => true
  | _ => false
  end.

(** A too-large notice is only ever sent when [big] holds. *)
Definition too_large_only_if (big : bool) (ev : Event) : Prop :=
  match ev_op ev with
  | Reply (MsgTooLarge _ _) => big = true
  | _ => True
  end.

(** The call [ev] is not a too-large notice. *)
Definition not_too_large (ev : Event) : Prop :=
  forall name size, ev_op ev <> Reply (MsgTooLarge name size).

(** No call of [tr] creates or touches temporary storage, fetches content
    from the chat transport, or reaches the storage provider. *)
Definition no_transfer_calls (tr : list Event) : Prop :=
  Forall (fun ev => is_storage_op (ev_op ev) = false
                    /\ is_download_op (ev_op ev) = false
                    /\ is_provider_op (ev_op ev) = false) tr.

(** What a chat call gives back, by the world's verdict on the first call. *)
Definition first_chat_result (w : World) : Result unit :=
  match chat_fault w 0 with
  | None => Ok tt
  | Some e => Raise e
  end.

(** What any handler does for a refused sender: the rejection notice and
    nothing else. *)
Definition refusal (w : World) : Result unit * State :=
  (first_chat_result w,
   {| trace := [Ev (Reply MsgNotAuthorized) (chat_fault w 0)];
      chat_calls := 1; temp_exists := false |}).

(** ** Sample inputs *)

(** The provider reports half of the content sent. *)
Definition one_half : Py.float := S754_finite false 1 (-1).

(** A world in which both collaborators answer without error: three chunks
    of 4, 4 and 2 bytes, one progress report, then the final response. *)
Definition calm_world : World := {|
  AUTHORIZED_USERS := [];
  GOOGLE_DRIVE_FOLDER_ID := Some "folder";
  GOOGLE_SERVICE_ACCOUNT := Some "{}";
  chat_fault := fun _ => None;
  download_chunks := [4%N; 4%N; 2%N];
  download_error := None;
  build_fault := None;
  about_result := Ok {| usage := Some (5 * 1024 ^ 3); limit := Some (15 * 1024 ^ 3) |};
  upload_progress_steps := [Some one_half];
  upload_final := Ok (None, {| response_id := Some "1AbC"; response_webViewLink := None |});
  temp_file_path := "/tmp/tmpq3x9"
|}.

(** Worlds that differ from a given one in a single respect. *)
Definition with_authorized_users (w : World) (users : list Z) : World := {|
  AUTHORIZED_USERS := users;
  GOOGLE_DRIVE_FOLDER_ID := GOOGLE_DRIVE_FOLDER_ID w;
  GOOGLE_SERVICE_ACCOUNT := GOOGLE_SERVICE_ACCOUNT w;
  chat_fault := chat_fault w;
  download_chunks := download_chunks w;
  download_error := download_error w;
  build_fault := build_fault w;
  about_result := about_result w;
  upload_progress_steps := upload_progress_steps w;
  upload_final := upload_final w;
  temp_file_path := temp_file_path w
|}.

Definition with_chat_fault (w : World) (fault : nat -> option exn) : World := {|
  AUTHORIZED_USERS := AUTHORIZED_USERS w;
  GOOGLE_DRIVE_FOLDER_ID := GOOGLE_DRIVE_FOLDER_ID w;
  GOOGLE_SERVICE_ACCOUNT := GOOGLE_SERVICE_ACCOUNT w;
  chat_fault := fault;
  download_chunks := download_chunks w;
  download_error := download_error w;
  build_fault := build_fault w;
  about_result := about_result w;
  upload_progress_steps := upload_progress_steps w;
  upload_final := upload_final w;
  temp_file_path := temp_file_path w
|}.

Definition with_download (w : World) (chunks : list N) (error : option exn) : World := {|
  AUTHORIZED_USERS := AUTHORIZED_USERS w;
  GOOGLE_DRIVE_FOLDER_ID := GOOGLE_DRIVE_FOLDER_ID w;
  GOOGLE_SERVICE_ACCOUNT := GOOGLE_SERVICE_ACCOUNT w;
  chat_fault := chat_fault w;
  download_chunks := chunks;
  download_error := error;
  build_fault := build_fault w;
  about_result := about_result w;
  upload_progress_steps := upload_progress_steps w;
  upload_final := upload_final w;
  temp_file_path := temp_file_path w
|}.

Definition with_upload (w : World) (steps : list (option Py.float))
    (final : Result (option Py.float * Response)) : World := {|
  AUTHORIZED_USERS := AUTHORIZED_USERS w;
  GOOGLE_DRIVE_FOLDER_ID := GOOGLE_DRIVE_FOLDER_ID w;
  GOOGLE_SERVICE_ACCOUNT := GOOGLE_SERVICE_ACCOUNT w;
  chat_fault := chat_fault w;
  download_chunks := download_chunks w;
  download_error := download_error w;
  build_fault := build_fault w;
  about_result := about_result w;
  upload_progress_steps := steps;
  upload_final := final;
  temp_file_path := temp_file_path w
|}.

(** [calm_world] with an allow-list that holds the users 11 and 12. *)
Definition guarded_world : World := with_authorized_users calm_world [11; 12].

(** [calm_world], except that the chat transport times out after the
    second chunk. *)
Definition timed_out : exn := Exn TelegramError "Timed out".

Definition stalled_world : World :=
  with_download calm_world [4%N; 4%N] (Some timed_out).

(** [calm_world], except that the fifth chat call of a run, which is the
    second progress edit of the download phase, is refused for flooding. *)
Definition flood_control : exn :=
  Exn TelegramError "Flood control exceeded. Retry in 12 seconds".

Definition flooded_world : World :=
  with_chat_fault calm_world (fun n => if Nat.eqb n 4 then Some flood_control else None).

(** [calm_world], except that the provider answers the upload with an
    HTTP error. *)
Definition quota_exceeded : exn :=
  Exn HttpError "<HttpError 403 The user's Drive storage quota has been exceeded.>".

Definition full_drive_world : World :=
  with_upload calm_world [Some one_half] (Raise quota_exceeded).

Definition document_of_size (size : Z) : Document :=
  {| file_id := "BQACAgQ"; file_name := Some "report.pdf"; file_size := size |}.

(** User 7 sends a document of the given declared size. *)
Definition file_update (size : Z) : Update :=
  {| effective_user_id := 7; document := Some (document_of_size size) |}.

(** User 7 sends something that carries no document. *)
Definition bare_update : Update :=
  {| effective_user_id := 7; document := None |}.

(** ** The progress bar as the specification words it

    [width] cells, of which [floor (width * progress / 100)] are filled and
    the remainder empty, then the numeric percentage. *)
Definition bar_by_spec (progress width : Z) : string :=
  let filled := width * progress / 100 in
  ("[" ++ Py.str_repeat "█" filled ++ Py.str_repeat "░" (width - filled)
   ++ "] " ++ Py.str progress ++ "%")%string.

Definition result_is (r : Result string) (expected : string) : bool :=
  match r with
  | Ok text => String.eqb text expected
  | Raise _ => false
  end.

(** ** Reading the status pushes off a trace *)

(** The download phase as an observer of the calls sees it: for every chunk
    written, its length and the percentage of the download status edit that
    directly follows the write, if one does. *)
Fixpoint download_log (tr : list Event) : list (N * option Z) :=
  match tr with
  | [] => []
  | Ev (WriteChunk n) _ :: rest =>
      (n, match rest with
          | Ev (Edit (MsgDownloading p _ _)) _ :: _ => Some p
          | _ => None
          end) :: download_log rest
  | _ :: rest => download_log rest
  end.

(** The upload phase likewise: for every acknowledgment that carries a
    status, its fraction and the percentage of the upload status edit that
    directly follows, if one does. *)
Fixpoint upload_log (tr : list Event) : list (Py.float * option Z) :=
  match tr with
  | [] => []
  | Ev (NextChunk (Some f)) None :: rest =>
      (f, match rest with
          | Ev (Edit (MsgUploading p _ _ _)) _ :: _ => Some p
          | _ => None
          end) :: upload_log rest
  | _ :: rest => upload_log rest
  end.

(** The percentages pushed, in order. *)
Fixpoint pushes {A : Type} (log : list (A * option Z)) : list Z :=
  match log with
  | [] => []
  | (_, Some p) :: rest => p :: pushes rest
  | (_, None) :: rest => pushes rest
  end.

(** The last percentage pushed; -1 before the first push. *)
Definition last_pushed {A : Type} (log : list (A * option Z)) : Z :=
  List.last (pushes log) (-1).

(** The bytes written so far. *)
Definition bytes_received (log : list (N * option Z)) : Z :=
  fold_right (fun entry total => Z.of_N (fst entry) + total) 0 log.

(** A state with an empty trace, from which the calls of a program
    fragment are read. *)
Definition fresh (chats : nat) (on_disk : bool) : State :=
  {| trace := []; chat_calls := chats; temp_exists := on_disk |}.

(** The traces the download loop can leave, from a byte count and a last
    pushed percentage, with the result it ends in. *)
Inductive download_run (fs : Z) : Z -> Z -> list Event -> Result unit -> Prop :=
| dr_exhausted d last :
    download_run fs d last [Ev NextDownload None] (Ok tt)
| dr_broken d last e :
    download_run fs d last [Ev NextDownload (Some e)] (Raise e)
| dr_no_progress d last c e :
    Mobile.download_progress (d + Z.of_N c) fs = Raise e ->
    download_run fs d last [Ev NextDownload None; Ev (WriteChunk c) None] (Raise e)
| dr_quiet d last c p evs r :
    Mobile.download_progress (d + Z.of_N c) fs = Ok p ->
    p - last < 3 ->
    download_run fs (d + Z.of_N c) last evs r ->
    download_run fs d last (Ev NextDownload None :: Ev (WriteChunk c) None :: evs) r
| dr_push_failed d last c p e :
    Mobile.download_progress (d + Z.of_N c) fs = Ok p ->
    p - last >= 3 ->
    download_run fs d last
      [Ev NextDownload None; Ev (WriteChunk c) None;
       Ev (Edit (MsgDownloading p (d + Z.of_N c) fs)) (Some e)] (Raise e)
| dr_push d last c p evs r :
    Mobile.download_progress (d + Z.of_N c) fs = Ok p ->
    p - last >= 3 ->
    download_run fs (d + Z.of_N c) p evs r ->
    download_run fs d last
      (Ev NextDownload None :: Ev (WriteChunk c) None ::
       Ev (Edit (MsgDownloading p (d + Z.of_N c) fs)) None :: evs) r.

(** What one turn of the upload loop can do with the status it received,
    from a last pushed percentage: the calls it makes and its result. *)
Inductive report_run (name : string) (fs : Z) :
    option Py.float -> Z -> list Event -> Result Z -> Prop :=
| rr_no_status last :
    report_run name fs None last [] (Ok last)
| rr_no_progress f last e :
    Mobile.upload_progress f = Raise e ->
    report_run name fs (Some f) last [] (Raise e)
| rr_no_size f last p e :
    Mobile.upload_progress f = Ok p ->
    Mobile.uploaded_size_of fs f = Raise e ->
    report_run name fs (Some f) last [] (Raise e)
| rr_quiet f last p u :
    Mobile.upload_progress f = Ok p ->
    Mobile.uploaded_size_of fs f = Ok u ->
    p - last < 5 ->
    report_run name fs (Some f) last [] (Ok last)
| rr_push_failed f last p u e :
    Mobile.upload_progress f = Ok p ->
    Mobile.uploaded_size_of fs f = Ok u ->
    p - last >= 5 ->
    report_run name fs (Some f) last [Ev (Edit (MsgUploading p u fs name)) (Some e)] (Raise e)
| rr_push f last p u :
    Mobile.upload_progress f = Ok p ->
    Mobile.uploaded_size_of fs f = Ok u ->
    p - last >= 5 ->
    report_run name fs (Some f) last [Ev (Edit (MsgUploading p u fs name)) None] (Ok p).

(** The traces the upload loop can leave, with the result it ends in. *)
Inductive upload_run (name : string) (fs : Z) :
    Z -> list Event -> Result Response -> Prop :=
| ur_final_error last e :
    upload_run name fs last [Ev (NextChunk None) (Some e)] (Raise e)
| ur_final last status response evs last' :
    report_run name fs status last evs (Ok last') ->
    upload_run name fs last (Ev (NextChunk status) None :: evs) (Ok response)
| ur_report_raised last status evs e :
    report_run name fs status last evs (Raise e) ->
    upload_run name fs last (Ev (NextChunk status) None :: evs) (Raise e)
| ur_step last status evs last' evs' r :
    report_run name fs status last evs (Ok last') ->
    upload_run name fs last' evs' r ->
    upload_run name fs last (Ev (NextChunk status) None :: evs ++ evs') r.

(** The log entry of one acknowledgment, given the calls its report made. *)
Definition report_entry (status : option Py.float) (evs : list Event) :
    list (Py.float * option Z) :=
  match status with
  | None => []
  | Some f =>
      [(f, match evs with
           | Ev (Edit (MsgUploading p _ _ _)) _ :: _ => Some p
           | _ => None
           end)]
  end.

(** The percentages of all download status edits, and of all upload status
    edits, that a trace holds. *)
Fixpoint download_edits (tr : list Event) : list Z :=
  match tr with
  | [] => []
  | Ev (Edit (MsgDownloading p _ _)) _ :: rest => p :: download_edits rest
  | _ :: rest => download_edits rest
  end.

Fixpoint upload_edits (tr : list Event) : list Z :=
  match tr with
  | [] => []
  | Ev (Edit (MsgUploading p _ _ _)) _ :: rest => p :: upload_edits rest
  | _ :: rest => upload_edits rest
  end.

(** The lengths of the chunks written to the temporary file. *)
Fixpoint chunks_written (tr : list Event) : list N :=
  match tr with
  | [] => []
  | Ev (WriteChunk n) None :: rest => n :: chunks_written rest
  | _ :: rest => chunks_written rest
  end.

(** [calm_world] with a declared size of 100 in mind: four chunks of one
    byte each. *)
Definition trickle_world : World :=
  with_download calm_world [1%N; 1%N; 1%N; 1%N] None.

(** ** Comparing the two variants *)

(** The calls that reach a collaborator or change the temporary storage.
    Opening and closing a handle on the temporary file and writing to the
    process log are left out: they are the calls in which the two files
    differ. *)
Definition observable (op : Op) : bool :=
  match op with
  | Open _ | Close _ | Log _ _ => false
  | _ => true
  end.

Definition observed (tr : list Event) : list Event :=
  List.filter (fun ev => observable (ev_op ev)) tr.

(** Two states that an outside observer cannot tell apart. *)
Definition alike (s1 s2 : State) : Prop :=
  chat_calls s1 = chat_calls s2
  /\ temp_exists s1 = temp_exists s2
  /\ observed (trace s1) = observed (trace s2).

(** Two programs that, from states alike, give the same result and leave
    states alike. *)
Definition Sim {A : Type} (m1 m2 : M A) : Prop :=
  forall s1 s2, alike s1 s2 ->
    fst (m1 s1) = fst (m2 s2) /\ alike (snd (m1 s1)) (snd (m2 s2)).

(** ** The fate of the temporary file *)

(** [m] leaves the temporary file where it is. *)
Definition KeepsTemp {A : Type} (m : M A) : Prop :=
  forall s, temp_exists (snd (m s)) = temp_exists s.

(** Calls that neither create nor delete the temporary file, nor announce
    the end of the download. *)
Definition bystander (ev : Event) : Prop :=
  match ev_op ev with
  | TempCreate | Unlink | Edit (MsgDownloadComplete _) => False
  | _ => True
  end.

(** The download-complete edit was made and returned. *)
Definition download_completed (tr : list Event) : bool :=
  existsb (fun ev => match ev with
                     | Ev (Edit (MsgDownloadComplete _)) None => true
                     | _ => false
                     end) tr.

(** The blocks of [Mobile.handle_file], in the order in which it runs
    them: the download phase followed by what comes after it, the upload
    phase with its handler and its [finally] clause, and the handler of the
    outer [try]. *)
Definition mobile_download_then (w : World) (file : Document) (next : M unit) : M unit :=
  (reply_text w MsgPreparing ;;
   get_file w (file_id file) ;;
   temp_create ;;
   with_open wb (Mobile.download_loop w (file_size file) (download_chunks w) 0 (-1)) ;;
   edit_text w (MsgDownloadComplete (str_or (file_name file) "unnamed_file")) ;;
   next)%py.

Definition mobile_upload_body (w : World) (file : Document) : M unit :=
  let file_name := str_or (file_name file) "unnamed_file" in
  (Mobile.get_drive_service w ;;
   fs_open rb ;;
   record (FilesCreate file_name
             match GOOGLE_DRIVE_FOLDER_ID w with
             | None | Some EmptyString => []
             | Some folder => [folder]
             end) None ;;
   response <- Mobile.upload_loop w file_name (file_size file)
                 (upload_progress_steps w) (-1) ;;
   edit_text w (MsgUploadSuccessful file_name (file_size file) (response_id response)
                  match response_webViewLink response with
                  | Some l => l
                  | None => "Link not available"
                  end))%py.

Definition mobile_upload_failed (w : World) (file : Document) (error : exn) : M unit :=
  (edit_text w (MsgUploadFailed (str_or (file_name file) "unnamed_file") (exn_str error)) ;;
   log ERROR ("Google Drive upload error: " ++ exn_str error)%string)%py.

Definition mobile_cleanup (w : World) : M unit :=
  (on_disk <- path_exists ;;
   (if on_disk then unlink else ret tt) ;;
   log INFO ("Cleaned up temporary file: " ++ temp_file_path w)%string)%py.

Definition mobile_upload_phase (w : World) (file : Document) : M unit :=
  try_except_HttpError_finally
    (mobile_upload_body w file) (mobile_upload_failed w file) (mobile_cleanup w).

Definition mobile_error_report (w : World) (file : Document) (e : exn) : M unit :=
  (log ERROR ("Error handling file: " ++ exn_str e)%string ;;
   reply_text w (MsgErrorProcessing (str_or (file_name file) "unnamed_file") (exn_str e)))%py.

(** The fraction the provider's status reports after [sent] of [total]
    bytes: the quotient as a float, 0.0 when it is not defined. *)
Definition fraction_of (sent total : Z) : Py.float :=
  match Py.true_div sent total with
  | Ok f => f
  | Raise _ => S754_zero false
  end.

Definition MiB : Z := 1024 * 1024.

(** A transfer of 10 MiB: ten chunks of 1 MiB from the chat transport, five
    chunks of 2 MiB to the provider, four of them acknowledged with a
    status and the last with the response. *)
Definition ten_mib_world : World :=
  with_upload
    (with_download calm_world (List.repeat (Z.to_N MiB) 10) None)
    [Some (fraction_of (2 * MiB) (10 * MiB)); Some (fraction_of (4 * MiB) (10 * MiB));
     Some (fraction_of (6 * MiB) (10 * MiB)); Some (fraction_of (8 * MiB) (10 * MiB))]
    (Ok (None, {| response_id := Some "1AbC";
                  response_webViewLink := Some "https://drive.google.com/file/d/1AbC/view" |})).

Definition ten_mib_update : Update :=
  {| effective_user_id := 7;
     document := Some {| file_id := "BQACAgQ"; file_name := Some "holiday.mp4";
                         file_size := 10 * MiB |} |}.

(** ** Messages whose text can be formed

    The handlers evaluate an f-string before each call that sends it; here
    the call carries the [Message] and [message_text] forms the text.  The
    two agree as long as the text can be formed, and [message_ranged] bounds
    the integers of a message so that it can: byte counts and percentages
    within 2^59 in absolute value. *)

Definition is_finite (f : Py.float) : bool :=
  match f with
  | S754_zero _ | S754_finite _ _ _ => true
  | _ => false
  end.

(** A shift record whose mantissa is not negative and has at most [d]
    binary digits. *)
Definition tame (d : Z) (mrs : shr_record) : Prop :=
  0 <= shr_m mrs /\ Zdigits2 (shr_m mrs) <= d.

Definition ranged (z : Z) : Prop := - 2 ^ 59 < z < 2 ^ 59.

Definition message_ranged (m : Message) : Prop :=
  match m with
  | MsgStatusConnected used_bytes total_bytes =>
      ranged used_bytes /\ ranged total_bytes
  | MsgTooLarge _ size | MsgFileReceived _ size => ranged size
  | MsgUploadSuccessful _ size _ _ => ranged size
  | MsgDownloading progress done size
  | MsgUploading progress done size _ =>
      ranged progress /\ ranged done /\ ranged size
  | _ => True
  end.

(** ** The calls of a transfer, block by block

    What [handle_file] can leave in the trace once it is past the size
    guard, read off its blocks in the order in which they run. *)

(** The chat transport answers every call. *)
Definition reliable_chat (w : World) : Prop := forall n, chat_fault w n = None.

Definition raised_as (x : option exn) : Result unit :=
  match x with
  | None => Ok tt
  | Some e => Raise e
  end.

(** [get_drive_service]: what it raises and the calls it makes. *)
Definition no_credentials : exn :=
  Exn GenericException "GOOGLE_SERVICE_ACCOUNT environment variable not found".

Definition credentials_missing (w : World) : bool :=
  match GOOGLE_SERVICE_ACCOUNT w with
  | None | Some EmptyString => true
  | Some _ => false
  end.

Definition service_result (w : World) : Result unit :=
  if credentials_missing w then Raise no_credentials
  else match build_fault w with
       | None => Ok tt
       | Some e => Raise e
       end.

Definition authentication_failure (e : exn) : Event :=
  Ev (Log ERROR ("Failed to authenticate with Google Drive: " ++ exn_str e)%string) None.

Definition service_calls (w : World) : list Event :=
  if credentials_missing w then [authentication_failure no_credentials]
  else match build_fault w with
       | None => [Ev BuildService None]
       | Some e => [Ev BuildService (Some e); authentication_failure e]
       end.

Definition name_of (file : Document) : string :=
  str_or (file_name file) "unnamed_file".

Definition parents_of (w : World) : list string :=
  match GOOGLE_DRIVE_FOLDER_ID w with
  | None | Some EmptyString => []
  | Some folder => [folder]
  end.

Definition link_of (response : Response) : string :=
  match response_webViewLink response with
  | Some l => l
  | None => "Link not available"
  end.

Definition success_notice (file : Document) (response : Response) : Message :=
  MsgUploadSuccessful (name_of file) (file_size file)
    (response_id response) (link_of response).

(** The calls of the [finally] clause when the file is on disk. *)
Definition cleanup_calls (w : World) : list Event :=
  [Ev (PathExists true) None; Ev Unlink None;
   Ev (Log INFO ("Cleaned up temporary file: " ++ temp_file_path w)%string) None].

(** The calls of the handler of the outer [try]. *)
Definition error_calls (file : Document) (e : exn) (x : option exn) : list Event :=
  [Ev (Log ERROR ("Error handling file: " ++ exn_str e)%string) None;
   Ev (Reply (MsgErrorProcessing (name_of file) (exn_str e))) x].

(** The body of the inner [try]. *)
Inductive upload_body_run (w : World) (file : Document) :
    list Event -> Result unit -> Prop :=
| ub_no_service e :
    service_result w = Raise e ->
    upload_body_run w file (service_calls w) (Raise e)
| ub_loop_raised evs e :
    service_result w = Ok tt ->
    upload_run (name_of file) (file_size file) (-1) evs (Raise e) ->
    (exists s,
       fst (Mobile.upload_loop w (name_of file) (file_size file)
              (upload_progress_steps w) (-1) s) = Raise e) ->
    upload_body_run w file
      (service_calls w
       ++ [Ev (Open rb) None; Ev (FilesCreate (name_of file) (parents_of w)) None]
       ++ evs)
      (Raise e)
| ub_answered evs status response x n :
    chat_fault w n = x ->
    service_result w = Ok tt ->
    upload_run (name_of file) (file_size file) (-1) evs (Ok response) ->
    upload_final w = Ok (status, response) ->
    upload_body_run w file
      (service_calls w
       ++ [Ev (Open rb) None; Ev (FilesCreate (name_of file) (parents_of w)) None]
       ++ evs ++ [Ev (Edit (success_notice file response)) x])
      (raised_as x).

(** The inner [try] with its [except HttpError] and [finally] clauses. *)
Inductive upload_phase_run (w : World) (file : Document) :
    list Event -> Result unit -> Prop :=
| up_returned evs :
    upload_body_run w file evs (Ok tt) ->
    upload_phase_run w file (evs ++ cleanup_calls w) (Ok tt)
| up_passed_on evs e :
    upload_body_run w file evs (Raise e) ->
    is_HttpError e = false ->
    upload_phase_run w file (evs ++ cleanup_calls w) (Raise e)
| up_reported evs e x n :
    chat_fault w n = x ->
    upload_body_run w file evs (Raise e) ->
    is_HttpError e = true ->
    upload_phase_run w file
      (evs
       ++ Ev (Edit (MsgUploadFailed (name_of file) (exn_str e))) x
          :: match x with
             | None => [Ev (Log ERROR ("Google Drive upload error: " ++ exn_str e)%string) None]
             | Some _ => []
             end
       ++ cleanup_calls w)
      (raised_as x).

(** The download phase; [Some e] when it raised [e], [None] when it ran to
    the end, the download-complete edit included. *)
Inductive download_phase_run (w : World) (file : Document) :
    list Event -> option exn -> Prop :=
| dp_no_status e n :
    chat_fault w n = Some e ->
    download_phase_run w file [Ev (Reply MsgPreparing) (Some e)] (Some e)
| dp_no_file e n :
    chat_fault w n = Some e ->
    download_phase_run w file
      [Ev (Reply MsgPreparing) None; Ev (GetFile (file_id file)) (Some e)] (Some e)
| dp_interrupted evs e k :
    download_run (file_size file) 0 (-1) evs (Raise e) ->
    chunks_written evs = firstn k (download_chunks w) ->
    (exists s,
       fst (Mobile.download_loop w (file_size file) (download_chunks w) 0 (-1) s)
       = Raise e) ->
    download_phase_run w file
      ([Ev (Reply MsgPreparing) None; Ev (GetFile (file_id file)) None;
        Ev TempCreate None; Ev (Open wb) None]
       ++ evs ++ [Ev (Close wb) None])
      (Some e)
| dp_written evs x n :
    chat_fault w n = x ->
    download_run (file_size file) 0 (-1) evs (Ok tt) ->
    chunks_written evs = download_chunks w ->
    download_error w = None ->
    download_phase_run w file
      ([Ev (Reply MsgPreparing) None; Ev (GetFile (file_id file)) None;
        Ev TempCreate None; Ev (Open wb) None]
       ++ evs
       ++ [Ev (Close wb) None; Ev (Edit (MsgDownloadComplete (name_of file))) x])
      x.

(** Everything after the File Received reply. *)
Inductive transfer_run (w : World) (file : Document) :
    list Event -> Result unit -> Prop :=
| tr_download_failed evs e x n :
    chat_fault w n = x ->
    download_phase_run w file evs (Some e) ->
    transfer_run w file (evs ++ error_calls file e x) (raised_as x)
| tr_upload_raised evs_d evs_u e x n :
    chat_fault w n = x ->
    download_phase_run w file evs_d None ->
    upload_phase_run w file evs_u (Raise e) ->
    transfer_run w file (evs_d ++ evs_u ++ error_calls file e x) (raised_as x)
| tr_finished evs_d evs_u :
    download_phase_run w file evs_d None ->
    upload_phase_run w file evs_u (Ok tt) ->
    transfer_run w file (evs_d ++ evs_u) (Ok tt).

(** The notices that end a transfer. *)
Definition is_verdict (m : Message) : bool :=
  match m with
  | MsgUploadSuccessful _ _ _ _ | MsgUploadFailed _ _ | MsgErrorProcessing _ _ => true
  | _ => false
  end.

(** The calls each loop makes. *)
Definition download_loop_op (op : Op) : bool :=
  match op with
  | NextDownload | WriteChunk _ | Edit (MsgDownloading _ _ _) => true
  | _ => false
  end.

Definition upload_loop_op (op : Op) : bool :=
  match op with
  | NextChunk _ | Edit (MsgUploading _ _ _ _) => true
  | _ => false
  end.

(** No message of [tr] that reached the user is a verdict. *)
Definition quiet (tr : list Event) : Prop :=
  Forall (fun m => is_verdict m = false) (user_visible tr).

(** The user-visible messages of [tr] end with a verdict, the only one. *)
Definition one_verdict (tr : list Event) (verdict : Message) : Prop :=
  exists front,
    user_visible tr = front ++ [verdict]
    /\ is_verdict verdict = true
    /\ Forall (fun m => is_verdict m = false) front.

(** A program that returns whatever the state it is run in. *)
Definition Returns {A : Type} (m : M A) : Prop :=
  forall s, exists a s', m s = (Ok a, s').

(** [calm_world] with the service-account credentials taken away. *)
Definition uncredentialed_world : World := {|
  AUTHORIZED_USERS := AUTHORIZED_USERS calm_world;
  GOOGLE_DRIVE_FOLDER_ID := GOOGLE_DRIVE_FOLDER_ID calm_world;
  GOOGLE_SERVICE_ACCOUNT := None;
  chat_fault := chat_fault calm_world;
  download_chunks := download_chunks calm_world;
  download_error := download_error calm_world;
  build_fault := build_fault calm_world;
  about_result := about_result calm_world;
  upload_progress_steps := upload_progress_steps calm_world;
  upload_final := upload_final calm_world;
  temp_file_path := temp_file_path calm_world
|}.

(** ** Sizes in integer arithmetic

    What [format_file_size] prints, without floats: the size in hundredths
    of the unit, rounded to the nearest, ties to even. *)
Definition round_half_even (num den : Z) : Z :=
  let q := num / den in
  let r := num mod den in
  match 2 * r ?= den with
  | Lt => q
  | Gt => q + 1
  | Eq => if Z.even q then q else q + 1
  end.

Definition two_decimals (hundredths : Z) : string :=
  (Py.str (hundredths / 100) ++ "." ++ Py.zfill 2 (Py.str (hundredths mod 100)))%string.

Definition size_text (size_bytes : Z) : string :=
  if size_bytes <? 1024 then (Py.str size_bytes ++ "B")%string
  else if size_bytes <? 1024 ^ 2
       then (two_decimals (round_half_even (100 * size_bytes) 1024) ++ "KB")%string
  else if size_bytes <? 1024 ^ 3
       then (two_decimals (round_half_even (100 * size_bytes) (1024 ^ 2)) ++ "MB")%string
  else (two_decimals (round_half_even (100 * size_bytes) (1024 ^ 3)) ++ "GB")%string.

(** ** Floats of moderate size

    A zero, or a finite float whose mantissa has at most [digits] binary
    digits and whose exponent is at most [exponent]; and one of a given
    sign. *)
Definition modest (digits exponent : Z) (f : Py.float) : Prop :=
  match f with
  | S754_zero _ => True
  | S754_finite _ m e => Zdigits2 (Z.pos m) <= digits /\ e <= exponent
  | _ => False
  end.

Definition signed (sign : bool) (f : Py.float) : Prop :=
  match f with
  | S754_zero s | S754_finite s _ _ => s = sign
  | _ => False
  end.

(** A progress fraction as the provider reports it: a binary64 value
    (a mantissa of at most 53 digits) below 2^53 in magnitude. *)
Definition sane_fraction (f : Py.float) : Prop := modest 53 0 f.

Definition sane_status (status : option Py.float) : Prop :=
  match status with
  | None => True
  | Some f => sane_fraction f
  end.

(** The bytes of a list of chunks. *)
Definition total_bytes (chunks : list N) : Z :=
  fold_right (fun c total => Z.of_N c + total) 0 chunks.
(** ** The status report

    What [status_command] tells a permitted sender: the calls it makes to
    the provider and the one notice it sends. *)
Definition quota_notice (quota : Quota) : Message :=
  MsgStatusConnected
    (match usage quota with Some n => n | None => 0 end)
    (match limit quota with Some n => n | None => 0 end).

Definition status_notice (w : World) : Message :=
  match service_result w with
  | Raise e => MsgStatusError (exn_str e)
  | Ok _ =>
      match about_result w with
      | Ok quota => quota_notice quota
      | Raise e => MsgStatusError (exn_str e)
      end
  end.

Definition status_calls (w : World) : list Event :=
  service_calls w
  ++ match service_result w with
     | Raise _ => []
     | Ok _ =>
         [Ev AboutGet match about_result w with Ok _ => None | Raise e => Some e end]
     end.

(** A number of bytes in GiB, rounded to the nearest hundredth, ties to
    even. *)
Definition gib_text (n : Z) : string :=
  (two_decimals (round_half_even (100 * n) (1024 ^ 3)) ++ "GB")%string.

Definition status_head : string :=
  ("🤖 **Bot Status Report:**" ++ nl ++ nl ++
   "✅ Bot is running smoothly" ++ nl ++
   "✅ Google Drive connected successfully" ++ nl ++
   "💾 Storage used: ")%string.
(** ** The allow-list

    [AUTHORIZED_USERS = [int(user_id) for user_id in
    AUTHORIZED_USERS_STR.split(",") if user_id]], evaluated when the module
    is loaded.  [int] on a string is a parameter: what follows holds
    whatever it accepts. *)

(** [s.split(",")]: the pieces between the commas, empty ones included. *)
Fixpoint split_commas (s : string) : list string :=
  match s with
  | EmptyString => [EmptyString]
  | String c rest =>
      if Ascii.eqb c ","%char then EmptyString :: split_commas rest
      else match split_commas rest with
           | piece :: pieces => String c piece :: pieces
           | [] => [String c EmptyString]
           end
  end.

(** [",".join(pieces)]. *)
Fixpoint join_commas (pieces : list string) : string :=
  match pieces with
  | [] => EmptyString
  | [piece] => piece
  | piece :: rest => (piece ++ "," ++ join_commas rest)%string
  end.

(** The truth value of a [str]. *)
Definition nonempty (s : string) : bool :=
  match s with
  | EmptyString => false
  | String _ _ => true
  end.

(** The comprehension: the pieces are converted in order, the first
    exception ends it. *)
Fixpoint convert_all (py_int : string -> Result Z) (pieces : list string) :
    Result (list Z) :=
  match pieces with
  | [] => Ok []
  | piece :: rest =>
      match py_int piece with
      | Raise e => Raise e
      | Ok n =>
          match convert_all py_int rest with
          | Raise e => Raise e
          | Ok ids => Ok (n :: ids)
          end
      end
  end.

Definition parse_authorized_users (py_int : string -> Result Z) (s : string) :
    Result (list Z) :=
  convert_all py_int (filter nonempty (split_commas s)).

Fixpoint only_commas (s : string) : bool :=
  match s with
  | EmptyString => true
  | String c rest => Ascii.eqb c ","%char && only_commas rest
  end.

(** * Verified properties *)

(** ** The authorization gate *)

Lemma existsb_eqb_In (x : Z) (l : list Z) :
  existsb (Z.eqb x) l = true <-> In x l.
Proof.
  rewrite existsb_exists. split.
  - intros [y [Hin Heq]]. apply Z.eqb_eq in Heq. now subst.
  - intros Hin. exists x. split; [assumption | apply Z.eqb_refl].
Qed.

Lemma mobile_check_permitted (w : World) (update : Update) (s : State) :
  permitted w update -> Mobile.check_authorization w update s = (Ok true, s).
Proof.
  unfold permitted, Mobile.check_authorization. intros [Hnil | Hin].
  - rewrite Hnil. reflexivity.
  - destruct (AUTHORIZED_USERS w) as [|a l] eqn:E; [reflexivity|].
    apply existsb_eqb_In in Hin. now rewrite Hin.
Qed.

Lemma render_check_eq : Render.check_authorization = Mobile.check_authorization.
Proof. reflexivity. Qed.

(** The numeric helpers stay folded while programs are simplified. *)
Arguments Mobile.download_progress : simpl never.
Arguments Mobile.upload_progress : simpl never.
Arguments Mobile.uploaded_size_of : simpl never.
Arguments Render.download_progress : simpl never.
Arguments Render.upload_progress : simpl never.
Arguments Render.uploaded_size_of : simpl never.

(** ** Trace lemmas for the monad *)

Section EmitsLemmas.

Variable P : Event -> Prop.

Lemma Emits_ret {A : Type} (a : A) : Emits P (ret a).
Proof. intros s. exists []. simpl. rewrite app_nil_r. auto. Qed.

Lemma Emits_raise {A : Type} (e : exn) : Emits P (@raise A e).
Proof. intros s. exists []. simpl. rewrite app_nil_r. auto. Qed.

Lemma Emits_lift {A : Type} (r : Result A) : Emits P (lift r).
Proof. intros s. exists []. simpl. rewrite app_nil_r. auto. Qed.

Lemma Emits_set_temp (b : bool) : Emits P (set_temp b).
Proof. intros s. exists []. simpl. rewrite app_nil_r. auto. Qed.

Lemma Emits_bind {A B : Type} (m : M A) (k : A -> M B) :
  Emits P m -> (forall a, Emits P (k a)) -> Emits P (bind m k).
Proof.
  intros Hm Hk s. unfold bind. destruct (Hm s) as [evs1 [E1 F1]].
  destruct (m s) as [[a|e] s1]; simpl in *.
  - destruct (Hk a s1) as [evs2 [E2 F2]]. exists (evs1 ++ evs2).
    rewrite E2, E1, app_assoc. split; [reflexivity | now apply Forall_app].
  - exists evs1. auto.
Qed.

Lemma Emits_try_except {A : Type} (body : M A) (handler : exn -> M A) :
  Emits P body -> (forall e, Emits P (handler e)) -> Emits P (try_except body handler).
Proof.
  intros Hm Hk s. unfold try_except. destruct (Hm s) as [evs1 [E1 F1]].
  destruct (body s) as [[a|e] s1]; simpl in *.
  - exists evs1. auto.
  - destruct (Hk e s1) as [evs2 [E2 F2]]. exists (evs1 ++ evs2).
    rewrite E2, E1, app_assoc. split; [reflexivity | now apply Forall_app].
Qed.

Lemma Emits_try_finally {A : Type} (body : M A) (final : M unit) :
  Emits P body -> Emits P final -> Emits P (try_finally body final).
Proof.
  intros Hm Hf s. unfold try_finally. destruct (Hm s) as [evs1 [E1 F1]].
  destruct (body s) as [r s1]; simpl in *.
  destruct (Hf s1) as [evs2 [E2 F2]].
  exists (evs1 ++ evs2).
  destruct (final s1) as [[u|e] s2]; simpl in *;
    rewrite E2, E1, app_assoc; (split; [reflexivity | now apply Forall_app]).
Qed.

Lemma Emits_record (op : Op) (r : option exn) :
  P (Ev op r) -> Emits P (record op r).
Proof. intros H s. exists [Ev op r]. simpl. auto. Qed.

Lemma Emits_chat (w : World) (op : Op) :
  (forall r, P (Ev op r)) -> Emits P (chat w op).
Proof.
  intros H s. exists [Ev op (chat_fault w (chat_calls s))]. unfold chat.
  destruct (chat_fault w (chat_calls s)); simpl; auto.
Qed.

Lemma Emits_fs_open (mode : FileMode) :
  (forall r, P (Ev (Open mode) r)) -> Emits P (fs_open mode).
Proof.
  intros H s. unfold fs_open. destruct (temp_exists s).
  - now apply Emits_record.
  - apply Emits_bind; [now apply Emits_record | intros; apply Emits_raise].
Qed.

Lemma Emits_with_open {A : Type} (mode : FileMode) (body : M A) :
  (forall r, P (Ev (Open mode) r)) -> P (Ev (Close mode) None) ->
  Emits P body -> Emits P (with_open mode body).
Proof.
  intros Ho Hc Hb. unfold with_open. apply Emits_bind.
  - now apply Emits_fs_open.
  - intros _. apply Emits_try_finally; [assumption | now apply Emits_record].
Qed.

Lemma Emits_path_exists :
  (forall b, P (Ev (PathExists b) None)) -> Emits P path_exists.
Proof.
  intros H s. unfold path_exists.
  apply Emits_bind; [apply Emits_record, H | intros; apply Emits_ret].
Qed.

Lemma Emits_unlink : (forall r, P (Ev Unlink r)) -> Emits P unlink.
Proof.
  intros H s. unfold unlink. destruct (temp_exists s).
  - apply Emits_bind; [apply Emits_record, H | intros; apply Emits_set_temp].
  - apply Emits_bind; [apply Emits_record, H | intros; apply Emits_raise].
Qed.

Lemma Emits_provider {A : Type} (op : Op) (r : Result A) :
  (forall x, P (Ev op x)) -> Emits P (provider op r).
Proof.
  intros H. destruct r; simpl;
    (apply Emits_bind; [apply Emits_record, H | intros]);
    [apply Emits_ret | apply Emits_raise].
Qed.

End EmitsLemmas.

(** One step of a proof that a handler only makes calls of a given kind:
    split the program along its structure, leaving the side conditions on
    single calls. *)
Ltac emits_step :=
  match goal with
  | |- Emits _ (bind _ _) => apply Emits_bind; [| intros ?]
  | |- Emits _ (ret _) => apply Emits_ret
  | |- Emits _ (raise _) => apply Emits_raise
  | |- Emits _ (lift _) => apply Emits_lift
  | |- Emits _ (set_temp _) => apply Emits_set_temp
  | |- Emits _ (log _ _) => apply Emits_record
  | |- Emits _ (record _ _) => apply Emits_record
  | |- Emits _ (fs_write _) => apply Emits_record
  | |- Emits _ (fs_close _) => apply Emits_record
  | |- Emits _ temp_create => unfold temp_create
  | |- Emits _ (reply_text _ _) => apply Emits_chat; intros ?
  | |- Emits _ (edit_text _ _) => apply Emits_chat; intros ?
  | |- Emits _ (get_file _ _) => apply Emits_chat; intros ?
  | |- Emits _ (chat _ _) => apply Emits_chat; intros ?
  | |- Emits _ (fs_open _) => apply Emits_fs_open; intros ?
  | |- Emits _ (with_open _ _) => apply Emits_with_open; [intros ? | |]
  | |- Emits _ path_exists => apply Emits_path_exists; intros ?
  | |- Emits _ unlink => apply Emits_unlink; intros ?
  | |- Emits _ (provider _ _) => apply Emits_provider; intros ?
  | |- Emits _ (try_except _ _) => apply Emits_try_except; [| intros ?]
  | |- Emits _ (try_finally _ _) => apply Emits_try_finally
  | |- Emits _ (try_except_HttpError_finally _ _ _) =>
      unfold try_except_HttpError_finally
  | |- Emits _ (if ?b then _ else _) => destruct b
  | |- Emits _ (match ?x with _ => _ end) => destruct x
  end.

Section TransferStage.

Variable w : World.
Variable P : Event -> Prop.

(** [P] admits every call the loops and [get_drive_service] can make. *)
Hypothesis P_loop : forall op r, is_loop_op op = true -> P (Ev op r).

Lemma Emits_mobile_get_drive_service : Emits P (Mobile.get_drive_service w).
Proof.
  unfold Mobile.get_drive_service.
  repeat emits_step; try (apply P_loop; reflexivity).
Qed.

Lemma Emits_mobile_download_loop file_size chunks downloaded last :
  Emits P (Mobile.download_loop w file_size chunks downloaded last).
Proof.
  revert downloaded last.
  induction chunks as [|chunk rest IH]; intros downloaded last; simpl.
  - repeat emits_step; apply P_loop; reflexivity.
  - repeat emits_step; try (apply P_loop; reflexivity); apply IH.
Qed.

Lemma Emits_mobile_upload_report name file_size status last :
  Emits P (Mobile.upload_report w name file_size status last).
Proof.
  unfold Mobile.upload_report.
  repeat emits_step; apply P_loop; reflexivity.
Qed.

Lemma Emits_mobile_upload_loop name file_size steps last :
  Emits P (Mobile.upload_loop w name file_size steps last).
Proof.
  revert last. induction steps as [|status rest IH]; intros last; simpl.
  - destruct (upload_final w) as [[status response]|e];
      repeat emits_step; try (apply P_loop; reflexivity);
      apply Emits_mobile_upload_report.
  - repeat emits_step; try (apply P_loop; reflexivity);
      [apply Emits_mobile_upload_report | apply IH].
Qed.

End TransferStage.

(** The two files share every helper of the transfer stage word for word. *)
Lemma render_get_drive_service_eq : Render.get_drive_service = Mobile.get_drive_service.
Proof. reflexivity. Qed.

Lemma render_download_loop_eq : Render.download_loop = Mobile.download_loop.
Proof. reflexivity. Qed.

Lemma render_upload_loop_eq : Render.upload_loop = Mobile.upload_loop.
Proof. reflexivity. Qed.

Lemma too_large_only_if_loop big op r :
  is_loop_op op = true -> too_large_only_if big (Ev op r).
Proof.
  unfold too_large_only_if. simpl.
  destruct op as [m|m| | | | | | | | | | | | |]; try (intros; exact I).
  destruct m; simpl; intros H; try exact I; discriminate.
Qed.

Ltac transfer_side :=
  first [ apply Emits_mobile_get_drive_service; apply too_large_only_if_loop
        | apply Emits_mobile_download_loop; apply too_large_only_if_loop
        | apply Emits_mobile_upload_loop; apply too_large_only_if_loop ].

Lemma mobile_handle_file_too_large_only_if (w : World) (update : Update) (file : Document) :
  document update = Some file ->
  Emits (too_large_only_if (file_size file >? Mobile.max_size))
        (Mobile.handle_file w update).
Proof.
  intros Hdoc. unfold Mobile.handle_file, Mobile.check_authorization.
  rewrite Hdoc.
  destruct (file_size file >? Mobile.max_size) eqn:Hbig;
    repeat emits_step; try exact I; try reflexivity; try transfer_side.
Qed.

Lemma render_handle_file_too_large_only_if (w : World) (update : Update) (file : Document) :
  document update = Some file ->
  Emits (too_large_only_if (file_size file >? Render.max_size))
        (Render.handle_file w update).
Proof.
  intros Hdoc. unfold Render.handle_file, Render.check_authorization.
  rewrite Hdoc, render_get_drive_service_eq, render_download_loop_eq, render_upload_loop_eq.
  destruct (file_size file >? Render.max_size) eqn:Hbig;
    repeat emits_step; try exact I; try reflexivity; try transfer_side.
Qed.

Lemma mobile_check_permitted_fn (w : World) (update : Update) :
  permitted w update -> Mobile.check_authorization w update = ret true.
Proof.
  unfold permitted, Mobile.check_authorization. intros [Hnil | Hin].
  - rewrite Hnil. reflexivity.
  - destruct (AUTHORIZED_USERS w) as [|a l] eqn:E; [reflexivity|].
    apply existsb_eqb_In in Hin. now rewrite Hin.
Qed.

Lemma mobile_check_refused_fn (w : World) (update : Update) :
  refused w update ->
  Mobile.check_authorization w update = (reply_text w MsgNotAuthorized ;; ret false)%py.
Proof.
  unfold refused, Mobile.check_authorization. intros [Hne Hnin].
  destruct (AUTHORIZED_USERS w) as [|a l] eqn:E; [congruence|].
  destruct (existsb (Z.eqb (effective_user_id update)) (a :: l)) eqn:Hex.
  - apply existsb_eqb_In in Hex. contradiction.
  - reflexivity.
Qed.

(** A single chat call on a fresh state. *)
Lemma chat_initial (w : World) (op : Op) :
  chat w op initial =
  (first_chat_result w,
   {| trace := [Ev op (chat_fault w 0)]; chat_calls := 1; temp_exists := false |}).
Proof. unfold chat, first_chat_result. simpl. destruct (chat_fault w 0); reflexivity. Qed.

(** A handler that starts with a chat call has that call at the head of
    its trace. *)
Lemma calls_chat_then {A : Type} (w : World) (op : Op) (tail : M A) :
  Emits (fun _ => True) tail ->
  exists rest,
    calls ((chat w op ;; tail)%py initial) = Ev op (chat_fault w 0) :: rest.
Proof.
  intros Htail. unfold bind, calls. rewrite chat_initial. unfold first_chat_result.
  destruct (chat_fault w 0) as [e|].
  - exists []. reflexivity.
  - match goal with |- context [tail ?s0] => destruct (Htail s0) as [evs [E _]] end.
    exists evs. rewrite E. reflexivity.
Qed.

Lemma Emits_initial_calls (P : Event -> Prop) {A : Type} (m : M A) :
  Emits P m -> Forall P (calls (m initial)).
Proof. intros H. destruct (H initial) as [evs [E F]]. unfold calls. now rewrite E. Qed.

Lemma too_large_only_if_false ev : too_large_only_if false ev -> not_too_large ev.
Proof.
  unfold too_large_only_if, not_too_large. intros H name size Heq.
  rewrite Heq in H. discriminate.
Qed.

Lemma mobile_handle_file_received (w : World) (update : Update) (file : Document) :
  permitted w update ->
  document update = Some file ->
  (file_size file >? Mobile.max_size) = false ->
  exists tail : M unit,
    Mobile.handle_file w update =
    (reply_text w (MsgFileReceived (str_or (file_name file) "unnamed_file") (file_size file)) ;;
     tail)%py
    /\ Emits (fun _ => True) tail.
Proof.
  intros Hp Hdoc Hsmall. unfold Mobile.handle_file.
  rewrite (mobile_check_permitted_fn w update Hp), Hdoc.
  eexists. split.
  - change (bind (ret true) ?k) with (k true). cbv beta. simpl negb. cbv iota.
    rewrite Hsmall. reflexivity.
  - repeat emits_step; try exact I;
      first [ apply Emits_mobile_get_drive_service
            | apply Emits_mobile_download_loop
            | apply Emits_mobile_upload_loop ]; intros; exact I.
Qed.

Lemma render_handle_file_received (w : World) (update : Update) (file : Document) :
  permitted w update ->
  document update = Some file ->
  (file_size file >? Render.max_size) = false ->
  exists tail : M unit,
    Render.handle_file w update =
    (reply_text w (MsgFileReceived (str_or (file_name file) "unnamed_file") (file_size file)) ;;
     tail)%py
    /\ Emits (fun _ => True) tail.
Proof.
  intros Hp Hdoc Hsmall. unfold Render.handle_file.
  rewrite render_check_eq, (mobile_check_permitted_fn w update Hp), Hdoc.
  rewrite render_get_drive_service_eq, render_download_loop_eq, render_upload_loop_eq.
  eexists. split.
  - change (bind (ret true) ?k) with (k true). cbv beta. simpl negb. cbv iota.
    rewrite Hsmall. reflexivity.
  - repeat emits_step; try exact I;
      first [ apply Emits_mobile_get_drive_service
            | apply Emits_mobile_download_loop
            | apply Emits_mobile_upload_loop ]; intros; exact I.
Qed.

Lemma gated_refused (w : World) (update : Update) (rest : M unit) :
  refused w update ->
  (ok <- Mobile.check_authorization w update ;; if negb ok then ret tt else rest)%py initial
  = refusal w.
Proof.
  intros Hr. rewrite (mobile_check_refused_fn w update Hr).
  unfold bind, reply_text, refusal. rewrite chat_initial. unfold first_chat_result.
  destruct (chat_fault w 0); reflexivity.
Qed.

Lemma mobile_handle_refused (w : World) (ev : Inbound) (update : Update) :
  refused w update -> Mobile.handle w ev update initial = refusal w.
Proof. intros Hr. destruct ev; apply gated_refused; assumption. Qed.

Lemma render_handle_refused (w : World) (ev : Inbound) (update : Update) :
  refused w update -> Render.handle w ev update initial = refusal w.
Proof. intros Hr. destruct ev; apply gated_refused; assumption. Qed.

(** ** C5: the authorization check *)

(** C5.  [check_authorization] returns allowed, with no call made, when the
    allow-list is empty and when it holds the sender.  For a sender absent
    from a non-empty allow-list it makes exactly one call, the rejection
    notice, and returns denied once that call has returned (the error of the
    chat transport otherwise); [handle_file] then ends in the very same state,
    so no later stage runs.  Both files agree. *)
Theorem authorization_gate (w : World) (update : Update) :
  (AUTHORIZED_USERS w = [] ->
     Mobile.check_authorization w update initial = (Ok true, initial)
     /\ Render.check_authorization w update initial = (Ok true, initial))
  /\ (In (effective_user_id update) (AUTHORIZED_USERS w) ->
     Mobile.check_authorization w update initial = (Ok true, initial)
     /\ Render.check_authorization w update initial = (Ok true, initial))
  /\ (AUTHORIZED_USERS w <> [] ->
      ~ In (effective_user_id update) (AUTHORIZED_USERS w) ->
      let denied := Mobile.check_authorization w update initial in
      calls denied = [Ev (Reply MsgNotAuthorized) (chat_fault w 0)]
      /\ fst denied = match chat_fault w 0 with
                      | None => Ok false
                      | Some e => Raise e
                      end
      /\ (chat_fault w 0 = None -> user_visible (calls denied) = [MsgNotAuthorized])
      /\ Render.check_authorization w update initial = denied
      /\ snd (Mobile.handle_file w update initial) = snd denied
      /\ snd (Render.handle_file w update initial) = snd denied).
Proof.
  split; [|split].
  - intros Hnil. rewrite render_check_eq.
    split; apply mobile_check_permitted; left; assumption.
  - intros Hin. rewrite render_check_eq.
    split; apply mobile_check_permitted; right; assumption.
  - intros Hne Hnin. assert (Hr : refused w update) by (split; assumption).
    cbv zeta. rewrite render_check_eq.
    pose proof (mobile_handle_refused w DocumentMessage update Hr) as Hm.
    pose proof (render_handle_refused w DocumentMessage update Hr) as Hrn.
    simpl in Hm, Hrn. rewrite Hm, Hrn.
    rewrite (mobile_check_refused_fn w update Hr).
    unfold bind, reply_text. rewrite chat_initial. unfold refusal, first_chat_result, calls.
    destruct (chat_fault w 0) as [e|]; simpl; repeat split; try reflexivity.
    discriminate.
Qed.

(** In [guarded_world] the allow-list is [11; 12] and user 7 is refused. *)
Lemma authorization_gate_witness :
  calls (Mobile.check_authorization guarded_world (file_update 10) initial)
  = [Ev (Reply MsgNotAuthorized) None].
Proof.
  apply (proj2 (proj2 (authorization_gate guarded_world (file_update 10)))).
  - discriminate.
  - simpl. intros [H | [H | []]]; discriminate.
Defined.

(** ** C9: every entry point is gated *)

(** C9.  Each registered handler of either file (start, help, status, the
    file handler and the text handler) begins with [check_authorization];
    for a sender absent from a non-empty allow-list it ends in the state the
    check alone leaves: one call, the rejection notice, and nothing else. *)
Theorem every_entry_point_gated (w : World) (ev : Inbound) (update : Update) :
  AUTHORIZED_USERS w <> [] ->
  ~ In (effective_user_id update) (AUTHORIZED_USERS w) ->
  calls (Mobile.handle w ev update initial) = [Ev (Reply MsgNotAuthorized) (chat_fault w 0)]
  /\ calls (Render.handle w ev update initial) = [Ev (Reply MsgNotAuthorized) (chat_fault w 0)]
  /\ snd (Mobile.handle w ev update initial)
     = snd (Mobile.check_authorization w update initial)
  /\ snd (Render.handle w ev update initial)
     = snd (Render.check_authorization w update initial).
Proof.
  intros Hne Hnin. assert (Hr : refused w update) by (split; assumption).
  rewrite (mobile_handle_refused w ev update Hr), (render_handle_refused w ev update Hr).
  rewrite render_check_eq, (mobile_check_refused_fn w update Hr).
  unfold bind, reply_text. rewrite chat_initial. unfold refusal, first_chat_result, calls.
  destruct (chat_fault w 0); simpl; repeat split; reflexivity.
Qed.

Lemma every_entry_point_gated_witness :
  calls (Mobile.handle guarded_world StatusCommand bare_update initial)
  = [Ev (Reply MsgNotAuthorized) None]
  /\ calls (Render.handle guarded_world StatusCommand bare_update initial)
  = [Ev (Reply MsgNotAuthorized) None].
Proof.
  assert (H1 : AUTHORIZED_USERS guarded_world <> []) by discriminate.
  assert (H2 : ~ In (effective_user_id bare_update) (AUTHORIZED_USERS guarded_world))
    by (simpl; intros [H | [H | []]]; discriminate).
  split.
  - exact (proj1 (every_entry_point_gated guarded_world StatusCommand bare_update H1 H2)).
  - exact (proj1 (proj2 (every_entry_point_gated guarded_world StatusCommand bare_update H1 H2))).
Defined.

(** ** C10: an update without a document *)

(** C10.  For a sender who passes the gate and a message without a document,
    [handle_file] makes one call, the reply asking for a file document, and
    returns what that call returns: no temporary storage, no fetch from the
    chat transport, no call to the storage provider. *)
Theorem no_document_notice (w : World) (update : Update) :
  permitted w update ->
  document update = None ->
  Mobile.handle_file w update initial = reply_text w MsgSendDocument initial
  /\ Render.handle_file w update initial = reply_text w MsgSendDocument initial
  /\ calls (Mobile.handle_file w update initial)
     = [Ev (Reply MsgSendDocument) (chat_fault w 0)]
  /\ no_transfer_calls (calls (Mobile.handle_file w update initial))
  /\ temp_exists (snd (Mobile.handle_file w update initial)) = false.
Proof.
  intros Hp Hdoc.
  assert (Hm : Mobile.handle_file w update initial = reply_text w MsgSendDocument initial).
  { unfold Mobile.handle_file, bind.
    rewrite (mobile_check_permitted w update initial Hp). simpl. now rewrite Hdoc. }
  assert (Hr : Render.handle_file w update initial = reply_text w MsgSendDocument initial).
  { unfold Render.handle_file, bind. rewrite render_check_eq.
    rewrite (mobile_check_permitted w update initial Hp). simpl. now rewrite Hdoc. }
  rewrite Hm, Hr. unfold reply_text. rewrite chat_initial. unfold calls. simpl.
  repeat split; try reflexivity.
  repeat constructor.
Qed.

Lemma no_document_notice_witness :
  calls (Mobile.handle_file calm_world bare_update initial)
  = [Ev (Reply MsgSendDocument) None].
Proof.
  apply (no_document_notice calm_world bare_update).
  - left. reflexivity.
  - reflexivity.
Defined.

(** ** C2: the size guard *)



(** ** C7: the progress bar *)

Lemma result_is_true (r : Result string) (expected : string) :
  result_is r expected = true -> r = Ok expected.
Proof.
  destruct r as [text|e]; simpl; [|discriminate].
  intros H. apply String.eqb_eq in H. now subst.
Qed.

(** Every percentage from 0 to 100, checked by evaluation. *)
Lemma bars_0_to_100 :
  forallb (fun n => result_is (Mobile.create_progress_bar (Z.of_nat n) 20)
                              (bar_by_spec (Z.of_nat n) 20)
                    && result_is (Render.create_progress_bar (Z.of_nat n) 20)
                                 (bar_by_spec (Z.of_nat n) 20))
          (seq 0 101) = true.
Proof. vm_compute. reflexivity. Qed.

(** C7.  For every integer [progress] from 0 to 100, [create_progress_bar]
    at width 20 gives the bracketed bar of [floor (20 * progress / 100)]
    filled cells followed by the empty cells that make up 20, then the
    percentage; the division of the source, carried out on binary64 floats
    and truncated, agrees with the integer quotient throughout that range.
    In particular 0 percent fills no cell, 100 percent fills all 20, and
    37 percent fills 7. *)
Theorem progress_bar_cells :
  (forall progress : Z,
     0 <= progress <= 100 ->
     let filled := 20 * progress / 100 in
     Mobile.create_progress_bar progress 20
     = Ok ("[" ++ Py.str_repeat "█" filled ++ Py.str_repeat "░" (20 - filled)
           ++ "] " ++ Py.str progress ++ "%")%string
     /\ Render.create_progress_bar progress 20 = Mobile.create_progress_bar progress 20
     /\ 0 <= filled <= 20
     /\ (Z.to_nat filled + Z.to_nat (20 - filled) = 20)%nat)
  /\ Mobile.create_progress_bar 0 20 = Ok "[░░░░░░░░░░░░░░░░░░░░] 0%"
  /\ Mobile.create_progress_bar 100 20 = Ok "[████████████████████] 100%"
  /\ Mobile.create_progress_bar 37 20 = Ok "[███████░░░░░░░░░░░░░] 37%".
Proof.
  split; [| repeat split; vm_compute; reflexivity].
  intros progress Hrange filled.
  pose proof bars_0_to_100 as Hall. rewrite forallb_forall in Hall.
  specialize (Hall (Z.to_nat progress)).
  rewrite Z2Nat.id in Hall by lia.
  assert (Hin : In (Z.to_nat progress) (seq 0 101)) by (apply in_seq; lia).
  apply Hall in Hin. apply andb_true_iff in Hin. destruct Hin as [Hm Hr].
  apply result_is_true in Hm. apply result_is_true in Hr.
  assert (Hf : 0 <= filled <= 20).
  { subst filled. split.
    - apply Z.div_pos; lia.
    - apply Z.div_le_upper_bound; lia. }
  split; [exact Hm | split; [now rewrite Hm, Hr | split; lia]].
Qed.

(** At 50 percent ten cells are filled. *)
Lemma progress_bar_cells_witness :
  Mobile.create_progress_bar 50 20 = Ok "[██████████░░░░░░░░░░] 50%".
Proof. apply (proj1 progress_bar_cells 50). lia. Defined.

(** ** C1: the temporary file on the exit paths *)

(** C1, at the failing input.  In [stalled_world] the chat transport raises
    after the second chunk.  Either file creates the temporary file, reports
    the error to the sender and returns, and never deletes the file: the
    [finally] clause that unlinks it encloses the upload phase only. *)
Theorem download_failure_leaves_temp_file :
  let mobile := Mobile.handle_file stalled_world (file_update 10) initial in
  let render := Render.handle_file stalled_world (file_update 10) initial in
  fst mobile = Ok tt
  /\ temp_created (calls mobile) = true
  /\ deletions (calls mobile) = 0%nat
  /\ temp_exists (snd mobile) = true
  /\ user_visible (calls mobile)
     = [MsgFileReceived "report.pdf" 10; MsgPreparing;
        MsgDownloading 40 4 10; MsgDownloading 80 8 10;
        MsgErrorProcessing "report.pdf" "Timed out"]
  /\ fst render = Ok tt
  /\ temp_created (calls render) = true
  /\ deletions (calls render) = 0%nat
  /\ temp_exists (snd render) = true.
Proof. vm_compute. repeat split; reflexivity. Qed.

(** On the paths through the upload phase the file is deleted once: upload
    success and upload failure with an [HttpError]. *)
Example upload_paths_delete_once :
  deletions (calls (Mobile.handle_file calm_world (file_update 10) initial)) = 1%nat
  /\ temp_exists (snd (Mobile.handle_file calm_world (file_update 10) initial)) = false
  /\ deletions (calls (Mobile.handle_file full_drive_world (file_update 10) initial)) = 1%nat
  /\ temp_exists (snd (Mobile.handle_file full_drive_world (file_update 10) initial)) = false
  /\ deletions (calls (Render.handle_file calm_world (file_update 10) initial)) = 1%nat
  /\ deletions (calls (Render.handle_file full_drive_world (file_update 10) initial)) = 1%nat.
Proof. vm_compute. repeat split; reflexivity. Qed.

(** ** C3: the progress computation of the download phase *)

(** C3, at the failing input.  With a declared size of 0 the progress
    computation divides by zero as soon as a chunk arrives, whatever the
    chunk's length: no percentage is computed, [handle_file] reports the
    [ZeroDivisionError] to the sender, and no progress of 100 is shown. *)
Theorem zero_declared_size_divides_by_zero :
  let zero_division := Exn ZeroDivisionError "division by zero" in
  let mobile := Mobile.handle_file calm_world (file_update 0) initial in
  let render := Render.handle_file calm_world (file_update 0) initial in
  Mobile.download_progress 4 0 = Raise zero_division
  /\ Mobile.download_progress 0 0 = Raise zero_division
  /\ Render.download_progress 4 0 = Raise zero_division
  /\ user_visible (calls mobile)
     = [MsgFileReceived "report.pdf" 0; MsgPreparing;
        MsgErrorProcessing "report.pdf" "division by zero"]
  /\ user_visible (calls render) = user_visible (calls mobile)
  /\ fst mobile = Ok tt
  /\ temp_exists (snd mobile) = true.
Proof. vm_compute. repeat split; reflexivity. Qed.

(** For a positive declared size the percentage is the truncation of the
    binary64 product, capped at 100. *)
Example download_progress_values :
  Mobile.download_progress 5 10 = Ok 50
  /\ Mobile.download_progress 1 3 = Ok 33
  /\ Mobile.download_progress 2 3 = Ok 66
  /\ Mobile.download_progress 29 100 = Ok 28
  /\ Mobile.download_progress 12 10 = Ok 100.
Proof. vm_compute. repeat split; reflexivity. Qed.

(** ** The status pushes of the two loops *)

Lemma mobile_download_loop_run (w : World) (fs : Z) (chunks : list N) :
  forall d last s,
  exists evs,
    trace (snd (Mobile.download_loop w fs chunks d last s)) = trace s ++ evs
    /\ download_run fs d last evs (fst (Mobile.download_loop w fs chunks d last s)).
Proof.
  induction chunks as [|c rest IH]; intros d last s; simpl.
  - destruct (download_error w) as [e|].
    + exists [Ev NextDownload (Some e)]. split; [reflexivity | constructor].
    + exists [Ev NextDownload None]. split; [reflexivity | constructor].
  - unfold bind, record, fs_write, lift. cbn -[app].
    destruct (Mobile.download_progress (d + Z.of_N c) fs) as [p|e] eqn:Hp.
    + destruct (p - last >=? 3) eqn:Hge.
      * apply Z.geb_le in Hge.
        unfold edit_text, chat. cbn -[app].
        destruct (chat_fault w (chat_calls s)) as [e|].
        -- eexists. split.
           ++ cbn -[app]. rewrite <- !app_assoc. reflexivity.
           ++ simpl. apply dr_push_failed; [assumption | lia].
        -- match goal with |- context [Mobile.download_loop w fs rest ?d' ?l' ?s'] =>
             destruct (IH d' l' s') as [evs [E R]] end.
           eexists. split.
           ++ rewrite E. cbn -[app]. rewrite <- !app_assoc. reflexivity.
           ++ simpl. apply dr_push; [assumption | lia | exact R].
      * assert (Hlt : p - last < 3).
        { destruct (Z.geb_spec (p - last) 3); [discriminate | lia]. }
        match goal with |- context [Mobile.download_loop w fs rest ?d' ?l' ?s'] =>
          destruct (IH d' l' s') as [evs [E R]] end.
        eexists. split.
        -- rewrite E. cbn -[app]. rewrite <- !app_assoc. reflexivity.
        -- simpl. apply dr_quiet with (p := p); [assumption | lia | exact R].
    + eexists. split.
      * cbn -[app]. rewrite <- !app_assoc. reflexivity.
      * simpl. apply dr_no_progress. assumption.
Qed.

Lemma pushes_app {A : Type} (l1 l2 : list (A * option Z)) :
  pushes (l1 ++ l2) = pushes l1 ++ pushes l2.
Proof.
  induction l1 as [|[a [p|]] l1 IH]; simpl; [reflexivity | now rewrite IH | assumption].
Qed.

Lemma last_pushed_snoc_some {A : Type} (h : list (A * option Z)) (a : A) (p : Z) :
  last_pushed (h ++ [(a, Some p)]) = p.
Proof. unfold last_pushed. rewrite pushes_app. simpl. apply last_last. Qed.

Lemma last_pushed_snoc_none {A : Type} (h : list (A * option Z)) (a : A) :
  last_pushed (h ++ [(a, None)]) = last_pushed h.
Proof. unfold last_pushed. rewrite pushes_app. simpl. now rewrite app_nil_r. Qed.

Lemma bytes_received_snoc (h : list (N * option Z)) (c : N) (o : option Z) :
  bytes_received (h ++ [(c, o)]) = bytes_received h + Z.of_N c.
Proof.
  unfold bytes_received. induction h as [|x h IH]; simpl; [lia|]. rewrite IH. lia.
Qed.

Lemma firstn_snoc_head {A : Type} (h : list A) (x : A) (l : list A) :
  firstn (List.length h + 1) (h ++ x :: l) = h ++ [x].
Proof. rewrite firstn_app_2. reflexivity. Qed.

Lemma firstn_exact_head {A : Type} (h : list A) (l : list A) :
  firstn (List.length h + 0) (h ++ l) = h.
Proof. rewrite firstn_app_2. simpl. apply app_nil_r. Qed.

Lemma download_run_starts fs d last evs r :
  download_run fs d last evs r -> exists x rest, evs = Ev NextDownload x :: rest.
Proof. intros H. destruct H; eauto. Qed.

Lemma download_log_quiet_step fs d last evs r c :
  download_run fs d last evs r ->
  download_log (Ev NextDownload None :: Ev (WriteChunk c) None :: evs)
  = (c, None) :: download_log evs.
Proof.
  intros H. destruct (download_run_starts _ _ _ _ _ H) as [x [rest E]]. subst evs.
  reflexivity.
Qed.

(** The threshold rule, for a run that starts after the history [h]. *)
Lemma download_run_threshold fs d last evs r :
  download_run fs d last evs r ->
  forall h,
    bytes_received h = d -> last_pushed h = last ->
    forall k c o p,
      nth_error (download_log evs) k = Some (c, o) ->
      Mobile.download_progress
        (bytes_received (firstn (List.length h + S k) (h ++ download_log evs))) fs = Ok p ->
      (o = Some p <-> p - last_pushed (firstn (List.length h + k) (h ++ download_log evs)) >= 3)
      /\ (o = None <-> p - last_pushed (firstn (List.length h + k) (h ++ download_log evs)) < 3).
Proof.
  induction 1 as [d last | d last e | d last c e Hp | d last c p evs r Hp Hlt Hrun IH
                 | d last c p e Hp Hge | d last c p evs r Hp Hge Hrun IH];
    intros h Hbytes Hlast k c' o p' Hnth Hprog.
  - destruct k; discriminate.
  - destruct k; discriminate.
  - simpl in Hnth, Hprog. destruct k as [|k]; [|destruct k; discriminate].
    rewrite firstn_snoc_head, bytes_received_snoc, Hbytes in Hprog. congruence.
  - rewrite (download_log_quiet_step _ _ _ _ _ c Hrun) in *.
    destruct k as [|k].
    + simpl in Hnth. injection Hnth as <- <-.
      rewrite firstn_snoc_head, bytes_received_snoc, Hbytes in Hprog.
      rewrite firstn_exact_head, Hlast.
      assert (p' = p) by congruence. subst p'.
      split; split; intros; try discriminate; try lia; reflexivity.
    + simpl in Hnth.
      replace (h ++ (c, None) :: download_log evs)
        with ((h ++ [(c, None)]) ++ download_log evs) in *
        by (rewrite <- app_assoc; reflexivity).
      replace (List.length h + S (S k))%nat with (List.length (h ++ [(c, None)]) + S k)%nat in Hprog
        by (rewrite length_app; simpl; lia).
      replace (List.length h + S k)%nat with (List.length (h ++ [(c, None)]) + k)%nat
        by (rewrite length_app; simpl; lia).
      apply (IH (h ++ [(c, None)])) with (c := c'); try assumption.
      * rewrite bytes_received_snoc. now rewrite Hbytes.
      * now rewrite last_pushed_snoc_none.
  - simpl in Hnth, Hprog. destruct k as [|k]; [|destruct k; discriminate].
    injection Hnth as <- <-.
    rewrite firstn_snoc_head, bytes_received_snoc, Hbytes in Hprog.
    assert (p' = p) by congruence. subst p'.
    simpl download_log. rewrite firstn_exact_head, Hlast.
    split; split; intros; try discriminate; try lia; reflexivity.
  - change (download_log
              (Ev NextDownload None :: Ev (WriteChunk c) None ::
               Ev (Edit (MsgDownloading p (d + Z.of_N c) fs)) None :: evs))
      with ((c, Some p) :: download_log evs) in *.
    destruct k as [|k].
    + simpl in Hnth. injection Hnth as <- <-.
      rewrite firstn_snoc_head, bytes_received_snoc, Hbytes in Hprog.
      rewrite firstn_exact_head, Hlast.
      assert (p' = p) by congruence. subst p'.
      split; split; intros; try discriminate; try lia; reflexivity.
    + simpl in Hnth.
      replace (h ++ (c, Some p) :: download_log evs)
        with ((h ++ [(c, Some p)]) ++ download_log evs) in *
        by (rewrite <- app_assoc; reflexivity).
      replace (List.length h + S (S k))%nat with (List.length (h ++ [(c, Some p)]) + S k)%nat in Hprog
        by (rewrite length_app; simpl; lia).
      replace (List.length h + S k)%nat with (List.length (h ++ [(c, Some p)]) + k)%nat
        by (rewrite length_app; simpl; lia).
      apply (IH (h ++ [(c, Some p)])) with (c := c'); try assumption.
      * rewrite bytes_received_snoc. now rewrite Hbytes.
      * now rewrite last_pushed_snoc_some.
Qed.

Lemma download_run_sorted fs d last evs r :
  download_run fs d last evs r ->
  StronglySorted Z.le (pushes (download_log evs))
  /\ Forall (fun p => last + 3 <= p) (pushes (download_log evs)).
Proof.
  induction 1 as [d last | d last e | d last c e Hp | d last c p evs r Hp Hlt Hrun IH
                 | d last c p e Hp Hge | d last c p evs r Hp Hge Hrun IH].
  - simpl. split; constructor.
  - simpl. split; constructor.
  - simpl. split; constructor.
  - rewrite (download_log_quiet_step _ _ _ _ _ c Hrun). simpl. exact IH.
  - simpl. split; repeat constructor. lia.
  - change (download_log
              (Ev NextDownload None :: Ev (WriteChunk c) None ::
               Ev (Edit (MsgDownloading p (d + Z.of_N c) fs)) None :: evs))
      with ((c, Some p) :: download_log evs).
    simpl. destruct IH as [Hs Hf]. split.
    + constructor; [assumption|]. eapply Forall_impl; [|exact Hf]. simpl. intros; lia.
    + constructor; [lia|]. eapply Forall_impl; [|exact Hf]. simpl. intros; lia.
Qed.

Lemma mobile_upload_report_run (w : World) (name : string) (fs : Z)
    (status : option Py.float) (last : Z) (s : State) :
  exists evs,
    trace (snd (Mobile.upload_report w name fs status last s)) = trace s ++ evs
    /\ report_run name fs status last evs
         (fst (Mobile.upload_report w name fs status last s)).
Proof.
  unfold Mobile.upload_report. destruct status as [f|].
  - unfold bind, lift. cbn -[app].
    destruct (Mobile.upload_progress f) as [p|e] eqn:Hp; cbn -[app].
    + destruct (Mobile.uploaded_size_of fs f) as [u|e] eqn:Hu; cbn -[app].
      * destruct (p - last >=? 5) eqn:Hge.
        -- apply Z.geb_le in Hge. unfold edit_text, chat. cbn -[app].
           destruct (chat_fault w (chat_calls s)) as [e|]; cbn -[app].
           ++ eexists. split; [reflexivity|]. apply rr_push_failed; [assumption..|lia].
           ++ eexists. split; [reflexivity|]. apply rr_push; [assumption..|lia].
        -- assert (Hlt : p - last < 5).
           { destruct (Z.geb_spec (p - last) 5); [discriminate | lia]. }
           exists []. rewrite app_nil_r. split; [reflexivity|].
           apply rr_quiet with (p := p) (u := u); assumption.
      * exists []. rewrite app_nil_r. split; [reflexivity|].
        apply rr_no_size with (p := p); assumption.
    + exists []. rewrite app_nil_r. split; [reflexivity|]. apply rr_no_progress. assumption.
  - exists []. simpl. rewrite app_nil_r. split; [reflexivity | constructor].
Qed.

Lemma mobile_upload_loop_run (w : World) (name : string) (fs : Z)
    (steps : list (option Py.float)) :
  forall last s,
  exists evs,
    trace (snd (Mobile.upload_loop w name fs steps last s)) = trace s ++ evs
    /\ upload_run name fs last evs (fst (Mobile.upload_loop w name fs steps last s)).
Proof.
  induction steps as [|status rest IH]; intros last s; simpl.
  - destruct (upload_final w) as [[status response]|e].
    + unfold bind, record. cbn -[app Mobile.upload_report].
      match goal with |- context [Mobile.upload_report w name fs status last ?s'] =>
        destruct (mobile_upload_report_run w name fs status last s') as [evs [E R]];
        destruct (Mobile.upload_report w name fs status last s') as [[last'|e] s1]
      end; cbn -[app] in *.
      * eexists. split; [rewrite E, <- app_assoc; reflexivity|].
        simpl. eapply ur_final. exact R.
      * eexists. split; [rewrite E, <- app_assoc; reflexivity|].
        simpl. apply ur_report_raised. exact R.
    + exists [Ev (NextChunk None) (Some e)]. split; [reflexivity | constructor].
  - unfold bind, record. cbn -[app Mobile.upload_report].
    match goal with |- context [Mobile.upload_report w name fs status last ?s'] =>
      destruct (mobile_upload_report_run w name fs status last s') as [evs [E R]];
      destruct (Mobile.upload_report w name fs status last s') as [[last'|e] s1]
    end; cbn -[app] in *.
    + destruct (IH last' s1) as [evs' [E' R']].
      eexists. split; [rewrite E', E, <- !app_assoc; reflexivity|].
      simpl. eapply ur_step; eassumption.
    + eexists. split; [rewrite E, <- app_assoc; reflexivity|].
      simpl. apply ur_report_raised. exact R.
Qed.

Lemma upload_run_starts name fs last evs r :
  upload_run name fs last evs r -> exists st x rest, evs = Ev (NextChunk st) x :: rest.
Proof. intros H. destruct H; eauto. Qed.

Lemma upload_log_report name fs status last evs r rest :
  report_run name fs status last evs r ->
  (rest = [] \/ exists st x tl, rest = Ev (NextChunk st) x :: tl) ->
  upload_log (Ev (NextChunk status) None :: evs ++ rest)
  = report_entry status evs ++ upload_log rest.
Proof.
  intros Hr Hrest.
  destruct Hr; destruct Hrest as [-> | [st [x [tl ->]]]]; reflexivity.
Qed.

(** The entry an acknowledgment leaves tells whether the threshold was met. *)
Lemma report_entry_threshold name fs f last evs r p u :
  report_run name fs (Some f) last evs r ->
  Mobile.upload_progress f = Ok p ->
  Mobile.uploaded_size_of fs f = Ok u ->
  exists o, report_entry (Some f) evs = [(f, o)]
            /\ (o = Some p <-> p - last >= 5)
            /\ (o = None <-> p - last < 5).
Proof.
  intros Hr Hp Hu. inversion Hr; subst; simpl;
    try congruence; eexists; (split; [reflexivity|]).
  - assert (p0 = p) by congruence. subst.
    split; split; intros; try discriminate; try lia; reflexivity.
  - assert (p0 = p) by congruence. subst.
    split; split; intros; try discriminate; try lia; reflexivity.
  - assert (p0 = p) by congruence. subst.
    split; split; intros; try discriminate; try lia; reflexivity.
Qed.

(** After a report that returned, the last pushed percentage of the log is
    the value the loop carries on. *)
Lemma report_ok_last_pushed name fs status last evs last' (h : list (Py.float * option Z)) :
  report_run name fs status last evs (Ok last') ->
  last_pushed h = last ->
  last_pushed (h ++ report_entry status evs) = last'.
Proof.
  intros Hr Hlast. inversion Hr; subst; simpl.
  - now rewrite app_nil_r.
  - now rewrite last_pushed_snoc_none.
  - now rewrite last_pushed_snoc_some.
Qed.

(** The threshold rule of one acknowledgment, seen after the history [h]. *)
Lemma report_entry_rule name fs status last evs r (h tl : list (Py.float * option Z)) :
  report_run name fs status last evs r ->
  last_pushed h = last ->
  forall f o p u,
    nth_error (report_entry status evs) 0 = Some (f, o) ->
    Mobile.upload_progress f = Ok p ->
    Mobile.uploaded_size_of fs f = Ok u ->
    (o = Some p <->
       p - last_pushed (firstn (List.length h + 0) (h ++ report_entry status evs ++ tl)) >= 5)
    /\ (o = None <->
       p - last_pushed (firstn (List.length h + 0) (h ++ report_entry status evs ++ tl)) < 5).
Proof.
  intros Hr Hlast f o p u Hnth Hp Hu.
  rewrite firstn_exact_head, Hlast.
  destruct status as [f0|]; [|discriminate].
  assert (f0 = f) by (simpl in Hnth; congruence). subst f0.
  destruct (report_entry_threshold _ _ _ _ _ _ _ _ Hr Hp Hu) as [o' [E [H1 H2]]].
  rewrite E in Hnth. simpl in Hnth. assert (o' = o) by congruence. subst o'.
  split; assumption.
Qed.

Lemma upload_run_threshold name fs last evs r :
  upload_run name fs last evs r ->
  forall h,
    last_pushed h = last ->
    forall k f o p u,
      nth_error (upload_log evs) k = Some (f, o) ->
      Mobile.upload_progress f = Ok p ->
      Mobile.uploaded_size_of fs f = Ok u ->
      (o = Some p <-> p - last_pushed (firstn (List.length h + k) (h ++ upload_log evs)) >= 5)
      /\ (o = None <-> p - last_pushed (firstn (List.length h + k) (h ++ upload_log evs)) < 5).
Proof.
  induction 1 as [last e | last status response evs last' Hr | last status evs e Hr
                 | last status evs last' evs' r Hr Hrun IH];
    intros h Hlast k f o p u Hnth Hp Hu.
  - destruct k; discriminate.
  - replace (Ev (NextChunk status) None :: evs)
      with (Ev (NextChunk status) None :: evs ++ []) in * by (now rewrite app_nil_r).
    rewrite (upload_log_report _ _ _ _ _ _ [] Hr) in * by (left; reflexivity).
    simpl upload_log in *.
    destruct k as [|k].
    + rewrite app_nil_r in Hnth.
      eapply report_entry_rule; eassumption.
    + exfalso. rewrite app_nil_r in Hnth. destruct status; simpl in Hnth.
      * destruct k; discriminate.
      * discriminate.
  - replace (Ev (NextChunk status) None :: evs)
      with (Ev (NextChunk status) None :: evs ++ []) in * by (now rewrite app_nil_r).
    rewrite (upload_log_report _ _ _ _ _ _ [] Hr) in * by (left; reflexivity).
    simpl upload_log in *.
    destruct k as [|k].
    + rewrite app_nil_r in Hnth.
      eapply report_entry_rule; eassumption.
    + exfalso. rewrite app_nil_r in Hnth. destruct status; simpl in Hnth.
      * destruct k; discriminate.
      * discriminate.
  - assert (Hstart : evs' = [] \/ exists st x tl, evs' = Ev (NextChunk st) x :: tl)
      by (right; eapply upload_run_starts; eassumption).
    rewrite (upload_log_report _ _ _ _ _ _ evs' Hr Hstart) in *.
    pose proof (report_ok_last_pushed _ _ _ _ _ _ h Hr Hlast) as Hlast'.
    destruct status as [f0|].
    + simpl report_entry in *.
      destruct k as [|k].
      * eapply (report_entry_rule _ _ (Some f0)); eassumption.
      * simpl in Hnth.
        match goal with |- context [h ++ [?x] ++ ?l] =>
          replace (h ++ [x] ++ l) with ((h ++ [x]) ++ l)
            by (rewrite <- app_assoc; reflexivity);
          replace (List.length h + S k)%nat with (List.length (h ++ [x]) + k)%nat
            by (rewrite length_app; simpl; lia)
        end.
        eapply IH; eassumption.
    + simpl report_entry in *. simpl app in *.
      rewrite app_nil_r in Hlast'.
      eapply IH; eassumption.
Qed.

Lemma download_run_edits fs d last evs r :
  download_run fs d last evs r -> download_edits evs = pushes (download_log evs).
Proof.
  induction 1 as [d last | d last e | d last c e Hp | d last c p evs r Hp Hlt Hrun IH
                 | d last c p e Hp Hge | d last c p evs r Hp Hge Hrun IH];
    try reflexivity.
  - rewrite (download_log_quiet_step _ _ _ _ _ c Hrun). simpl. exact IH.
  - simpl. now rewrite IH.
Qed.

Lemma report_run_edits name fs status last evs r :
  report_run name fs status last evs r ->
  upload_edits evs = pushes (report_entry status evs).
Proof. intros H. destruct H; reflexivity. Qed.

Lemma upload_edits_app (l1 l2 : list Event) :
  upload_edits (l1 ++ l2) = upload_edits l1 ++ upload_edits l2.
Proof.
  induction l1 as [|[op r] l1 IH]; simpl; [reflexivity|].
  destruct op as [m|m| | | | | | | | | | | | |]; try assumption.
  destruct m; simpl; try assumption. now rewrite IH.
Qed.

Lemma upload_run_edits name fs last evs r :
  upload_run name fs last evs r -> upload_edits evs = pushes (upload_log evs).
Proof.
  induction 1 as [last e | last status response evs last' Hr | last status evs e Hr
                 | last status evs last' evs' r Hr Hrun IH].
  - reflexivity.
  - replace (Ev (NextChunk status) None :: evs)
      with (Ev (NextChunk status) None :: evs ++ []) at 2 by (now rewrite app_nil_r).
    rewrite (upload_log_report _ _ _ _ _ _ [] Hr) by (left; reflexivity).
    simpl. rewrite app_nil_r. eapply report_run_edits; eassumption.
  - replace (Ev (NextChunk status) None :: evs)
      with (Ev (NextChunk status) None :: evs ++ []) at 2 by (now rewrite app_nil_r).
    rewrite (upload_log_report _ _ _ _ _ _ [] Hr) by (left; reflexivity).
    simpl. rewrite app_nil_r. eapply report_run_edits; eassumption.
  - assert (Hstart : evs' = [] \/ exists st x tl, evs' = Ev (NextChunk st) x :: tl)
      by (right; eapply upload_run_starts; eassumption).
    rewrite (upload_log_report _ _ _ _ _ _ evs' Hr Hstart).
    simpl. rewrite upload_edits_app, pushes_app, IH.
    f_equal. eapply report_run_edits; eassumption.
Qed.

(** The calls a loop makes from a fresh state are the events of its run. *)
Lemma mobile_download_loop_fresh (w : World) fs chunks d last chats on_disk :
  download_run fs d last
    (calls (Mobile.download_loop w fs chunks d last (fresh chats on_disk)))
    (fst (Mobile.download_loop w fs chunks d last (fresh chats on_disk))).
Proof.
  destruct (mobile_download_loop_run w fs chunks d last (fresh chats on_disk)) as [evs [E R]].
  unfold calls. rewrite E. exact R.
Qed.

Lemma mobile_upload_loop_fresh (w : World) name fs steps last chats on_disk :
  upload_run name fs last
    (calls (Mobile.upload_loop w name fs steps last (fresh chats on_disk)))
    (fst (Mobile.upload_loop w name fs steps last (fresh chats on_disk))).
Proof.
  destruct (mobile_upload_loop_run w name fs steps last (fresh chats on_disk)) as [evs [E R]].
  unfold calls. rewrite E. exact R.
Qed.

(** ** C4: when a status update is pushed *)



(** ** C6: a status push that fails *)

(** C6, as stated, fails.  In [flooded_world] every call succeeds except
    the second progress edit of the download phase.  Without the failure
    ([calm_world]) all three chunks are written and the upload succeeds;
    with it, either file stops after the second chunk, never reaches the
    storage provider, and ends with the error notice. *)
Lemma failed_status_push_aborts_transfer :
  let calm := Mobile.handle_file calm_world (file_update 10) initial in
  let mobile := Mobile.handle_file flooded_world (file_update 10) initial in
  let render := Render.handle_file flooded_world (file_update 10) initial in
  chunks_written (calls calm) = download_chunks calm_world
  /\ In (MsgUploadSuccessful "report.pdf" 10 (Some "1AbC") "Link not available")
        (user_visible (calls calm))
  /\ download_chunks flooded_world = [4%N; 4%N; 2%N]
  /\ chunks_written (calls mobile) = [4%N; 4%N]
  /\ Forall (fun ev => is_provider_op (ev_op ev) = false) (calls mobile)
  /\ user_visible (calls mobile)
     = [MsgFileReceived "report.pdf" 10; MsgPreparing; MsgDownloading 40 4 10;
        MsgErrorProcessing "report.pdf" "Flood control exceeded. Retry in 12 seconds"]
  /\ chunks_written (calls render) = [4%N; 4%N]
  /\ user_visible (calls render) = user_visible (calls mobile).
Proof.
  vm_compute. repeat split; try reflexivity.
  - repeat ((left; reflexivity) || right).
  - repeat constructor.
Qed.

Lemma download_run_failed_push fs d last evs r :
  download_run fs d last evs r ->
  forall evs1 m e evs2,
    evs = evs1 ++ Ev (Edit m) (Some e) :: evs2 ->
    evs2 = [] /\ r = Raise e.
Proof.
  induction 1 as [d last | d last e0 | d last c e0 Hp | d last c p evs r Hp Hlt Hrun IH
                 | d last c p e0 Hp Hge | d last c p evs r Hp Hge Hrun IH];
    intros evs1 m e evs2 Heq.
  - destruct evs1 as [|x [|y evs1]]; discriminate.
  - destruct evs1 as [|x [|y evs1]]; discriminate.
  - destruct evs1 as [|x [|y [|z evs1]]]; discriminate.
  - destruct evs1 as [|x [|y evs1]]; try discriminate.
    injection Heq as _ _ Heq. eapply IH; eassumption.
  - destruct evs1 as [|x [|y [|z [|t evs1]]]]; try discriminate.
    inversion Heq; subst. split; reflexivity.
  - destruct evs1 as [|x [|y [|z evs1]]]; try discriminate.
    injection Heq as _ _ _ Heq. eapply IH; eassumption.
Qed.

Lemma report_run_failed_push name fs status last evs r :
  report_run name fs status last evs r ->
  forall evs1 m e evs2,
    evs = evs1 ++ Ev (Edit m) (Some e) :: evs2 ->
    evs1 = [] /\ evs2 = [] /\ r = Raise e.
Proof.
  intros Hr evs1 m e evs2 Heq.
  destruct Hr; destruct evs1 as [|x [|y evs1]]; try discriminate.
  inversion Heq; subst. repeat split; reflexivity.
Qed.

Lemma upload_run_failed_push name fs last evs r :
  upload_run name fs last evs r ->
  forall evs1 m e evs2,
    evs = evs1 ++ Ev (Edit m) (Some e) :: evs2 ->
    evs2 = [] /\ r = Raise e.
Proof.
  induction 1 as [last e0 | last status response evs last' Hr | last status evs e0 Hr
                 | last status evs last' evs' r Hr Hrun IH];
    intros evs1 m e evs2 Heq.
  - destruct evs1 as [|x [|y evs1]]; discriminate.
  - destruct evs1 as [|x evs1]; [discriminate|].
    injection Heq as _ Heq.
    destruct (report_run_failed_push _ _ _ _ _ _ Hr _ _ _ _ Heq) as [_ [_ Habs]].
    discriminate.
  - destruct evs1 as [|x evs1]; [discriminate|].
    injection Heq as _ Heq.
    destruct (report_run_failed_push _ _ _ _ _ _ Hr _ _ _ _ Heq) as [_ [H2 H3]].
    split; congruence.
  - destruct evs1 as [|x evs1]; [discriminate|].
    injection Heq as _ Heq.
    inversion Hr; subst; simpl in Heq.
    + eapply IH; eassumption.
    + eapply IH; eassumption.
    + destruct evs1 as [|y evs1]; [discriminate|].
      injection Heq as _ Heq. eapply IH; eassumption.
Qed.

(** C6, amended.  A status edit that raises ends the loop it is made in:
    in the download loop and in the upload loop alike the failed edit is the
    last call of the loop, so no later chunk is fetched, written or
    acknowledged, and the loop ends by raising that very error. *)
Theorem failed_status_push_ends_loop (w : World) (name : string) (file_size : Z)
    (chunks : list N) (steps : list (option Py.float))
    (downloaded last_download last_upload : Z) (chats : nat) (on_disk : bool) :
  let download :=
    Mobile.download_loop w file_size chunks downloaded last_download (fresh chats on_disk) in
  let upload :=
    Mobile.upload_loop w name file_size steps last_upload (fresh chats on_disk) in
  (forall before m e after,
      calls download = before ++ Ev (Edit m) (Some e) :: after ->
      after = [] /\ fst download = Raise e)
  /\ (forall before m e after,
      calls upload = before ++ Ev (Edit m) (Some e) :: after ->
      after = [] /\ fst upload = Raise e)
  /\ Render.download_loop = Mobile.download_loop
  /\ Render.upload_loop = Mobile.upload_loop.
Proof.
  intros download upload. split; [|split; [|split; reflexivity]].
  - intros before m e after Heq.
    eapply download_run_failed_push; [|exact Heq].
    apply mobile_download_loop_fresh.
  - intros before m e after Heq.
    eapply upload_run_failed_push; [|exact Heq].
    apply mobile_upload_loop_fresh.
Qed.

(** In [flooded_world], from the state in which [handle_file] enters the
    download loop (three chat calls made), the second progress edit fails
    and the third chunk is never fetched. *)
Lemma failed_status_push_ends_loop_witness :
  fst (Mobile.download_loop flooded_world 10 [4%N; 4%N; 2%N] 0 (-1) (fresh 3 true))
  = Raise flood_control.
Proof.
  apply (proj1 (failed_status_push_ends_loop flooded_world "report.pdf" 10
                  [4%N; 4%N; 2%N] [] 0 (-1) (-1) 3 true)
               [Ev NextDownload None; Ev (WriteChunk 4) None;
                Ev (Edit (MsgDownloading 40 4 10)) None;
                Ev NextDownload None; Ev (WriteChunk 4) None]
               (MsgDownloading 80 8 10) flood_control []).
  reflexivity.
Defined.

(** ** C8: the two variants side by side *)

Lemma observed_app (l1 l2 : list Event) : observed (l1 ++ l2) = observed l1 ++ observed l2.
Proof. apply filter_app. Qed.

Lemma alike_refl (s : State) : alike s s.
Proof. repeat split. Qed.

Lemma alike_record (s1 s2 : State) (op : Op) (r : option exn) :
  alike s1 s2 -> alike (snd (record op r s1)) (snd (record op r s2)).
Proof.
  intros [Hc [Ht Ho]]. repeat split; simpl; try assumption.
  rewrite !observed_app. now rewrite Ho.
Qed.

Lemma Sim_ret {A : Type} (a : A) : Sim (ret a) (ret a).
Proof. intros s1 s2 H. split; [reflexivity | exact H]. Qed.

Lemma Sim_raise {A : Type} (e : exn) : Sim (@raise A e) (raise e).
Proof. intros s1 s2 H. split; [reflexivity | exact H]. Qed.

Lemma Sim_lift {A : Type} (r : Result A) : Sim (lift r) (lift r).
Proof. intros s1 s2 H. split; [reflexivity | exact H]. Qed.

Lemma Sim_record (op : Op) (r : option exn) : Sim (record op r) (record op r).
Proof. intros s1 s2 H. split; [reflexivity | now apply alike_record]. Qed.

Lemma Sim_set_temp (b : bool) : Sim (set_temp b) (set_temp b).
Proof. intros s1 s2 [Hc [Ht Ho]]. repeat split; assumption. Qed.

Lemma Sim_bind {A B : Type} (m1 m2 : M A) (k1 k2 : A -> M B) :
  Sim m1 m2 -> (forall a, Sim (k1 a) (k2 a)) -> Sim (bind m1 k1) (bind m2 k2).
Proof.
  intros Hm Hk s1 s2 H. unfold bind. destruct (Hm s1 s2 H) as [Hr Hs].
  destruct (m1 s1) as [[a1|e1] t1], (m2 s2) as [[a2|e2] t2]; simpl in *; try discriminate.
  - injection Hr as ->. now apply Hk.
  - split; [congruence | assumption].
Qed.

Lemma Sim_try_except {A : Type} (b1 b2 : M A) (h1 h2 : exn -> M A) :
  Sim b1 b2 -> (forall e, Sim (h1 e) (h2 e)) -> Sim (try_except b1 h1) (try_except b2 h2).
Proof.
  intros Hm Hk s1 s2 H. unfold try_except. destruct (Hm s1 s2 H) as [Hr Hs].
  destruct (b1 s1) as [[a1|e1] t1], (b2 s2) as [[a2|e2] t2]; simpl in *; try discriminate.
  - split; assumption.
  - injection Hr as ->. now apply Hk.
Qed.

Lemma Sim_try_finally {A : Type} (b1 b2 : M A) (f1 f2 : M unit) :
  Sim b1 b2 -> Sim f1 f2 -> Sim (try_finally b1 f1) (try_finally b2 f2).
Proof.
  intros Hb Hf s1 s2 H. unfold try_finally. destruct (Hb s1 s2 H) as [Hr Hs].
  destruct (b1 s1) as [r1 t1], (b2 s2) as [r2 t2]; simpl in *.
  destruct (Hf t1 t2 Hs) as [Hr' Hs'].
  destruct (f1 t1) as [[u1|e1] t1'], (f2 t2) as [[u2|e2] t2']; simpl in *; try discriminate.
  - split; assumption.
  - split; [congruence | assumption].
Qed.

Lemma Sim_chat (w : World) (op : Op) : Sim (chat w op) (chat w op).
Proof.
  intros s1 s2 [Hc [Ht Ho]]. unfold chat. rewrite Hc.
  destruct (chat_fault w (chat_calls s2)); simpl;
    (split; [reflexivity|]); (split; [reflexivity|]); (split; [assumption|]);
    simpl; rewrite !observed_app, Ho; reflexivity.
Qed.

Lemma Sim_fs_open (mode : FileMode) : Sim (fs_open mode) (fs_open mode).
Proof.
  intros s1 s2 H. unfold fs_open.
  assert (Ht : temp_exists s1 = temp_exists s2) by apply H. rewrite Ht.
  destruct (temp_exists s2) eqn:E.
  - apply Sim_record. exact H.
  - apply Sim_bind; [apply Sim_record | intros; apply Sim_raise | exact H].
Qed.

Lemma Sim_with_open {A : Type} (mode : FileMode) (b1 b2 : M A) :
  Sim b1 b2 -> Sim (with_open mode b1) (with_open mode b2).
Proof.
  intros Hb. unfold with_open. apply Sim_bind; [apply Sim_fs_open|].
  intros _. apply Sim_try_finally; [assumption | apply Sim_record].
Qed.

Lemma Sim_path_exists : Sim path_exists path_exists.
Proof.
  intros s1 s2 H. unfold path_exists.
  assert (Ht : temp_exists s1 = temp_exists s2) by apply H. rewrite Ht.
  apply Sim_bind; [apply Sim_record | intros; apply Sim_ret | exact H].
Qed.

Lemma Sim_unlink : Sim unlink unlink.
Proof.
  intros s1 s2 H. unfold unlink.
  assert (Ht : temp_exists s1 = temp_exists s2) by apply H. rewrite Ht.
  destruct (temp_exists s2) eqn:E.
  - apply Sim_bind; [apply Sim_record | intros; apply Sim_set_temp | exact H].
  - apply Sim_bind; [apply Sim_record | intros; apply Sim_raise | exact H].
Qed.

Lemma Sim_provider {A : Type} (op : Op) (r : Result A) : Sim (provider op r) (provider op r).
Proof.
  destruct r; simpl; (apply Sim_bind; [apply Sim_record | intros]);
    [apply Sim_ret | apply Sim_raise].
Qed.

(** One step of a proof that two programs of the same shape are alike. *)
Ltac sim_step :=
  match goal with
  | |- Sim (bind _ _) (bind _ _) => apply Sim_bind; [| intros ?]
  | |- Sim (ret _) (ret _) => apply Sim_ret
  | |- Sim (raise _) (raise _) => apply Sim_raise
  | |- Sim (lift _) (lift _) => apply Sim_lift
  | |- Sim (set_temp _) (set_temp _) => apply Sim_set_temp
  | |- Sim (log _ _) (log _ _) => apply Sim_record
  | |- Sim (record _ _) (record _ _) => apply Sim_record
  | |- Sim (fs_write _) (fs_write _) => apply Sim_record
  | |- Sim (fs_close _) (fs_close _) => apply Sim_record
  | |- Sim temp_create temp_create => unfold temp_create
  | |- Sim (reply_text _ _) (reply_text _ _) => apply Sim_chat
  | |- Sim (edit_text _ _) (edit_text _ _) => apply Sim_chat
  | |- Sim (get_file _ _) (get_file _ _) => apply Sim_chat
  | |- Sim (chat _ _) (chat _ _) => apply Sim_chat
  | |- Sim (fs_open _) (fs_open _) => apply Sim_fs_open
  | |- Sim (with_open _ _) (with_open _ _) => apply Sim_with_open
  | |- Sim path_exists path_exists => apply Sim_path_exists
  | |- Sim unlink unlink => apply Sim_unlink
  | |- Sim (provider _ _) (provider _ _) => apply Sim_provider
  | |- Sim (try_except _ _) (try_except _ _) => apply Sim_try_except; [| intros ?]
  | |- Sim (try_finally _ _) (try_finally _ _) => apply Sim_try_finally
  | |- Sim (if ?b then _ else _) (if ?b then _ else _) => destruct b
  | |- Sim (match ?x with _ => _ end) (match ?x with _ => _ end) => destruct x
  end.

Lemma Sim_mobile_get_drive_service (w : World) :
  Sim (Mobile.get_drive_service w) (Mobile.get_drive_service w).
Proof. unfold Mobile.get_drive_service. repeat sim_step. Qed.

Lemma Sim_mobile_download_loop (w : World) fs chunks :
  forall d last,
  Sim (Mobile.download_loop w fs chunks d last) (Mobile.download_loop w fs chunks d last).
Proof.
  induction chunks as [|c rest IH]; intros d last; simpl.
  - repeat sim_step.
  - repeat sim_step; apply IH.
Qed.

Lemma Sim_mobile_upload_report (w : World) name fs status last :
  Sim (Mobile.upload_report w name fs status last) (Mobile.upload_report w name fs status last).
Proof. unfold Mobile.upload_report. repeat sim_step. Qed.

Lemma Sim_mobile_upload_loop (w : World) name fs steps :
  forall last,
  Sim (Mobile.upload_loop w name fs steps last) (Mobile.upload_loop w name fs steps last).
Proof.
  induction steps as [|status rest IH]; intros last; simpl.
  - destruct (upload_final w) as [[status response]|e];
      repeat sim_step; apply Sim_mobile_upload_report.
  - repeat sim_step; [apply Sim_mobile_upload_report | apply IH].
Qed.

(** The first difference: the polling variant wraps the upload in a second
    handle on the temporary file. *)
Lemma Sim_second_handle {A : Type} (m1 m2 : M A) :
  Sim m1 m2 -> Sim (fs_open rb ;; m1)%py (with_open rb (fs_open rb ;; m2)%py).
Proof.
  intros Hm s1 s2 H. unfold with_open, bind, fs_open, try_finally, fs_close.
  assert (Ht : temp_exists s1 = temp_exists s2) by apply H. rewrite Ht.
  destruct (temp_exists s2) eqn:E.
  - cbn -[app]. rewrite E. cbn -[app].
    match goal with |- context [m1 ?a] => match goal with |- context [m2 ?b] =>
      assert (Hab : alike a b);
      [ | destruct (Hm a b Hab) as [Hr Hs];
          destruct (m1 a) as [r1 t1], (m2 b) as [r2 t2] ]
    end end.
    + destruct H as [Hc [Ht' Ho]]. unfold alike. cbn -[app observed].
      repeat split; [assumption | congruence |].
      rewrite !observed_app. simpl. rewrite !app_nil_r. assumption.
    + cbn -[app] in *. split; [assumption|].
      destruct Hs as [Hc [Ht' Ho]]. unfold alike. cbn -[app observed].
      repeat split; [assumption | assumption |].
      rewrite !observed_app. simpl. rewrite !app_nil_r. assumption.
  - cbn -[app]. split; [reflexivity|].
    destruct H as [Hc [Ht' Ho]]. unfold alike. cbn -[app observed].
    repeat split; [assumption | congruence |].
    rewrite !observed_app. simpl. rewrite !app_nil_r. assumption.
Qed.

(** The second difference: the webhook variant logs the cleanup even when
    there was nothing to delete. *)
Lemma Sim_cleanup (text : string) :
  Sim (on_disk <- path_exists ;; (if on_disk then unlink else ret tt) ;; log INFO text)%py
      (on_disk <- path_exists ;;
       if on_disk then unlink ;; log INFO text else ret tt)%py.
Proof.
  apply Sim_bind; [apply Sim_path_exists|]. intros [|].
  - repeat sim_step.
  - intros s1 s2 H. cbn -[app]. split; [reflexivity|].
    destruct H as [Hc [Ht' Ho]]. unfold alike. cbn -[app observed].
    repeat split; [assumption | assumption |].
    rewrite !observed_app. simpl. rewrite !app_nil_r. assumption.
Qed.

Lemma Sim_handle_file (w : World) (update : Update) :
  Sim (Mobile.handle_file w update) (Render.handle_file w update).
Proof.
  unfold Mobile.handle_file, Render.handle_file.
  rewrite render_check_eq, render_get_drive_service_eq,
    render_download_loop_eq, render_upload_loop_eq.
  unfold Mobile.check_authorization, try_except_HttpError_finally.
  change Render.max_size with Mobile.max_size.
  repeat first [ apply Sim_cleanup
               | apply Sim_second_handle
               | apply Sim_mobile_get_drive_service
               | apply Sim_mobile_download_loop
               | apply Sim_mobile_upload_loop
               | sim_step ].
Qed.

Lemma user_visible_observed (tr : list Event) :
  user_visible (observed tr) = user_visible tr.
Proof.
  induction tr as [|[op r] tr IH]; [reflexivity|].
  unfold observed in *. simpl.
  destruct op as [m|m| | | | | | | | | | | | |]; simpl; destruct r; simpl;
    rewrite ?IH; reflexivity.
Qed.

Lemma deletions_observed (tr : list Event) :
  deletions (observed tr) = deletions tr.
Proof.
  induction tr as [|[op r] tr IH]; [reflexivity|].
  unfold deletions, observed in *. simpl.
  destruct op as [m|m| | | | | | | | | | | | |]; simpl; destruct r; simpl;
    rewrite ?IH; reflexivity.
Qed.

(** C8.  For every kind of inbound event, every update and every world
    (the same configuration and the same answers of both collaborators), the
    handlers of the two files return the same result, show the user the same
    messages with the same texts, make the same calls to the chat transport
    and to the storage provider, write and delete the same, and leave the
    temporary file in the same place; the runs differ only in calls that stay
    inside the process (an extra read handle, a log line). *)
Theorem variants_agree (w : World) (ev : Inbound) (update : Update) :
  let mobile := Mobile.handle w ev update initial in
  let render := Render.handle w ev update initial in
  fst mobile = fst render
  /\ user_visible (calls mobile) = user_visible (calls render)
  /\ observed (calls mobile) = observed (calls render)
  /\ deletions (calls mobile) = deletions (calls render)
  /\ temp_exists (snd mobile) = temp_exists (snd render)
  /\ (forall m, Mobile.message_text m = Render.message_text m)
  /\ (forall progress width,
        Mobile.create_progress_bar progress width
        = Render.create_progress_bar progress width)
  /\ (forall size, Mobile.format_file_size size = Render.format_file_size size).
Proof.
  intros mobile render.
  assert (H : fst mobile = fst render /\ alike (snd mobile) (snd render)).
  { subst mobile render. destruct ev; simpl;
      try (split; [reflexivity | apply alike_refl]).
    apply Sim_handle_file, alike_refl. }
  destruct H as [Hr [Hc [Ht Ho]]]. unfold calls.
  repeat split; try assumption; try reflexivity.
  - rewrite <- (user_visible_observed (trace (snd mobile))), Ho.
    apply user_visible_observed.
  - rewrite <- (deletions_observed (trace (snd mobile))), Ho.
    apply deletions_observed.
Qed.

(** ** C1 in general: when the temporary file is deleted *)

Lemma mobile_handle_file_blocks (w : World) (update : Update) (file : Document) :
  permitted w update ->
  document update = Some file ->
  (file_size file >? Mobile.max_size) = false ->
  Mobile.handle_file w update =
  (reply_text w (MsgFileReceived (str_or (file_name file) "unnamed_file") (file_size file)) ;;
   try_except
     (mobile_download_then w file (mobile_upload_phase w file))
     (mobile_error_report w file))%py.
Proof.
  intros Hp Hdoc Hsmall. unfold Mobile.handle_file.
  rewrite (mobile_check_permitted_fn w update Hp), Hdoc.
  change (bind (ret true) ?k) with (k true). cbv beta. simpl negb. cbv iota.
  rewrite Hsmall. reflexivity.
Qed.

Section KeepsTempLemmas.

Lemma KeepsTemp_ret {A : Type} (a : A) : KeepsTemp (ret a).
Proof. intros s. reflexivity. Qed.

Lemma KeepsTemp_raise {A : Type} (e : exn) : KeepsTemp (@raise A e).
Proof. intros s. reflexivity. Qed.

Lemma KeepsTemp_lift {A : Type} (r : Result A) : KeepsTemp (lift r).
Proof. intros s. reflexivity. Qed.

Lemma KeepsTemp_record (op : Op) (r : option exn) : KeepsTemp (record op r).
Proof. intros s. reflexivity. Qed.

Lemma KeepsTemp_chat (w : World) (op : Op) : KeepsTemp (chat w op).
Proof. intros s. unfold chat. destruct (chat_fault w (chat_calls s)); reflexivity. Qed.

Lemma KeepsTemp_bind {A B : Type} (m : M A) (k : A -> M B) :
  KeepsTemp m -> (forall a, KeepsTemp (k a)) -> KeepsTemp (bind m k).
Proof.
  intros Hm Hk s. unfold bind. specialize (Hm s).
  destruct (m s) as [[a|e] s1]; simpl in *; [|assumption].
  rewrite Hk. assumption.
Qed.

Lemma KeepsTemp_try_except {A : Type} (body : M A) (handler : exn -> M A) :
  KeepsTemp body -> (forall e, KeepsTemp (handler e)) -> KeepsTemp (try_except body handler).
Proof.
  intros Hm Hk s. unfold try_except. specialize (Hm s).
  destruct (body s) as [[a|e] s1]; simpl in *; [assumption|].
  rewrite Hk. assumption.
Qed.

Lemma KeepsTemp_try_finally {A : Type} (body : M A) (final : M unit) :
  KeepsTemp body -> KeepsTemp final -> KeepsTemp (try_finally body final).
Proof.
  intros Hm Hf s. unfold try_finally. specialize (Hm s).
  destruct (body s) as [r s1]; simpl in *. specialize (Hf s1).
  destruct (final s1) as [[u|e] s2]; simpl in *; congruence.
Qed.

Lemma KeepsTemp_fs_open (mode : FileMode) : KeepsTemp (fs_open mode).
Proof. intros s. unfold fs_open. destruct (temp_exists s) eqn:E; simpl; assumption. Qed.

Lemma KeepsTemp_with_open {A : Type} (mode : FileMode) (body : M A) :
  KeepsTemp body -> KeepsTemp (with_open mode body).
Proof.
  intros Hb. unfold with_open. apply KeepsTemp_bind; [apply KeepsTemp_fs_open|].
  intros _. apply KeepsTemp_try_finally; [assumption | apply KeepsTemp_record].
Qed.

Lemma KeepsTemp_provider {A : Type} (op : Op) (r : Result A) : KeepsTemp (provider op r).
Proof. intros s. destruct r; reflexivity. Qed.

End KeepsTempLemmas.

Ltac keeps_step :=
  match goal with
  | |- KeepsTemp (bind _ _) => apply KeepsTemp_bind; [| intros ?]
  | |- KeepsTemp (ret _) => apply KeepsTemp_ret
  | |- KeepsTemp (raise _) => apply KeepsTemp_raise
  | |- KeepsTemp (lift _) => apply KeepsTemp_lift
  | |- KeepsTemp (log _ _) => apply KeepsTemp_record
  | |- KeepsTemp (record _ _) => apply KeepsTemp_record
  | |- KeepsTemp (fs_write _) => apply KeepsTemp_record
  | |- KeepsTemp (fs_close _) => apply KeepsTemp_record
  | |- KeepsTemp (reply_text _ _) => apply KeepsTemp_chat
  | |- KeepsTemp (edit_text _ _) => apply KeepsTemp_chat
  | |- KeepsTemp (get_file _ _) => apply KeepsTemp_chat
  | |- KeepsTemp (fs_open _) => apply KeepsTemp_fs_open
  | |- KeepsTemp (with_open _ _) => apply KeepsTemp_with_open
  | |- KeepsTemp (provider _ _) => apply KeepsTemp_provider
  | |- KeepsTemp (try_except _ _) => apply KeepsTemp_try_except; [| intros ?]
  | |- KeepsTemp (try_finally _ _) => apply KeepsTemp_try_finally
  | |- KeepsTemp (if ?b then _ else _) => destruct b
  | |- KeepsTemp (match ?x with _ => _ end) => destruct x
  end.

Lemma KeepsTemp_mobile_get_drive_service (w : World) : KeepsTemp (Mobile.get_drive_service w).
Proof. unfold Mobile.get_drive_service. repeat keeps_step. Qed.

Lemma KeepsTemp_mobile_download_loop (w : World) fs chunks :
  forall d last, KeepsTemp (Mobile.download_loop w fs chunks d last).
Proof.
  induction chunks as [|c rest IH]; intros d last; simpl.
  - repeat keeps_step.
  - repeat keeps_step; apply IH.
Qed.

Lemma KeepsTemp_mobile_upload_loop (w : World) name fs steps :
  forall last, KeepsTemp (Mobile.upload_loop w name fs steps last).
Proof.
  induction steps as [|status rest IH]; intros last; simpl.
  - destruct (upload_final w) as [[status response]|e];
      unfold Mobile.upload_report; repeat keeps_step.
  - unfold Mobile.upload_report; repeat keeps_step; apply IH.
Qed.

Lemma bystander_loop op r : is_loop_op op = true -> bystander (Ev op r).
Proof.
  unfold bystander. simpl.
  destruct op as [m|m| | | | | | | | | | | | |]; try (intros; exact I); try discriminate.
  destruct m; simpl; intros H; try exact I; discriminate.
Qed.

Lemma mobile_upload_body_bystander (w : World) (file : Document) :
  Emits bystander (mobile_upload_body w file) /\ KeepsTemp (mobile_upload_body w file).
Proof.
  unfold mobile_upload_body. split.
  - repeat emits_step; try exact I;
      first [ apply Emits_mobile_get_drive_service
            | apply Emits_mobile_upload_loop ]; apply bystander_loop.
  - repeat keeps_step;
      first [ apply KeepsTemp_mobile_get_drive_service
            | apply KeepsTemp_mobile_upload_loop ].
Qed.

Lemma mobile_upload_failed_bystander (w : World) (file : Document) (e : exn) :
  Emits bystander (mobile_upload_failed w file e) /\ KeepsTemp (mobile_upload_failed w file e).
Proof.
  unfold mobile_upload_failed. split.
  - repeat emits_step; exact I.
  - repeat keeps_step.
Qed.

Lemma mobile_error_report_bystander (w : World) (file : Document) (e : exn) :
  Emits bystander (mobile_error_report w file e) /\ KeepsTemp (mobile_error_report w file e).
Proof.
  unfold mobile_error_report. split.
  - repeat emits_step; exact I.
  - repeat keeps_step.
Qed.

Lemma deletions_app (l1 l2 : list Event) :
  deletions (l1 ++ l2) = (deletions l1 + deletions l2)%nat.
Proof. unfold deletions. now rewrite filter_app, length_app. Qed.

Lemma temp_created_app (l1 l2 : list Event) :
  temp_created (l1 ++ l2) = temp_created l1 || temp_created l2.
Proof. apply existsb_app. Qed.

Lemma download_completed_app (l1 l2 : list Event) :
  download_completed (l1 ++ l2) = download_completed l1 || download_completed l2.
Proof. apply existsb_app. Qed.

Lemma bystanders_count (evs : list Event) :
  Forall bystander evs ->
  deletions evs = 0%nat /\ temp_created evs = false /\ download_completed evs = false.
Proof.
  induction 1 as [|[op r] evs Hb _ [IH1 [IH2 IH3]]]; [repeat split|].
  unfold deletions, temp_created, download_completed, bystander in *. simpl in *.
  destruct op as [m|m| | | | | | | | | | | | |]; try contradiction;
    try (repeat split; assumption).
  destruct m; try contradiction; repeat split; assumption.
Qed.

(** The [finally] clause, entered with the file on disk, deletes it. *)
Lemma mobile_cleanup_on_disk (w : World) (s : State) :
  temp_exists s = true ->
  mobile_cleanup w s =
  (Ok tt,
   {| trace := trace s ++ [Ev (PathExists true) None; Ev Unlink None;
                           Ev (Log INFO ("Cleaned up temporary file: " ++ temp_file_path w)%string) None];
      chat_calls := chat_calls s;
      temp_exists := false |}).
Proof.
  intros H. destruct s as [tr n on_disk]. simpl in H. subst on_disk.
  cbv -[app]. rewrite <- !app_assoc. reflexivity.
Qed.

(** The upload phase, entered with the file on disk, deletes it exactly
    once whichever way it ends. *)
Lemma mobile_upload_phase_deletes_once (w : World) (file : Document) (s : State) :
  temp_exists s = true ->
  exists evs,
    trace (snd (mobile_upload_phase w file s)) = trace s ++ evs
    /\ deletions evs = 1%nat
    /\ temp_exists (snd (mobile_upload_phase w file s)) = false.
Proof.
  intros Hdisk.
  unfold mobile_upload_phase, try_except_HttpError_finally, try_finally, try_except.
  destruct (mobile_upload_body_bystander w file) as [Hbe Hbk].
  destruct (Hbe s) as [evs1 [E1 F1]]. specialize (Hbk s).
  destruct (mobile_upload_body w file s) as [[u|e] s1]; simpl in E1, Hbk.
  - rewrite mobile_cleanup_on_disk by congruence. simpl.
    eexists. split; [rewrite E1, <- app_assoc; reflexivity|].
    split; [|reflexivity].
    rewrite deletions_app. destruct (bystanders_count _ F1) as [-> _]. reflexivity.
  - destruct (is_HttpError e).
    + destruct (mobile_upload_failed_bystander w file e) as [Hfe Hfk].
      destruct (Hfe s1) as [evs2 [E2 F2]]. specialize (Hfk s1).
      destruct (mobile_upload_failed w file e s1) as [r2 s2]; simpl in E2, Hfk.
      rewrite mobile_cleanup_on_disk by congruence. simpl.
      eexists. split; [rewrite E2, E1, <- !app_assoc; reflexivity|].
      split; [|reflexivity].
      rewrite !deletions_app.
      destruct (bystanders_count _ F1) as [-> _].
      destruct (bystanders_count _ F2) as [-> _]. reflexivity.
    + unfold raise. rewrite mobile_cleanup_on_disk by congruence. simpl.
      eexists. split; [rewrite E1, <- app_assoc; reflexivity|].
      split; [|reflexivity].
      rewrite deletions_app. destruct (bystanders_count _ F1) as [-> _]. reflexivity.
Qed.

(** The download phase either raises, having neither deleted the file nor
    announced the end of the download, or hands over to the next block with
    the file on disk. *)
Lemma mobile_download_then_cases (w : World) (file : Document) (next : M unit) (s : State) :
  temp_exists s = false ->
  (exists e s' evs,
      mobile_download_then w file next s = (Raise e, s')
      /\ trace s' = trace s ++ evs
      /\ deletions evs = 0%nat
      /\ download_completed evs = false
      /\ temp_exists s' = temp_created evs)
  \/ (exists s' evs,
      mobile_download_then w file next s = next s'
      /\ trace s' = trace s ++ evs
      /\ deletions evs = 0%nat
      /\ temp_created evs = true
      /\ download_completed evs = true
      /\ temp_exists s' = true).
Proof.
  intros H. destruct s as [tr n on_disk]. simpl in H. subst on_disk.
  unfold mobile_download_then, bind, reply_text, get_file, edit_text, chat, temp_create,
    with_open, fs_open, try_finally, fs_close, record, set_temp.
  cbn -[app Mobile.download_loop].
  destruct (chat_fault w n) as [e|] eqn:F0.
  { left. exists e. eexists. eexists [_]. repeat split. }
  cbn -[app Mobile.download_loop].
  destruct (chat_fault w (S n)) as [e|] eqn:F1.
  { left. exists e. eexists. eexists [_; _].
    split; [reflexivity|]. split; [cbn -[app]; rewrite <- app_assoc; reflexivity|].
    repeat split. }
  cbn -[app Mobile.download_loop].
  match goal with |- context [Mobile.download_loop w ?fs ?cs ?d ?l ?s4] =>
    destruct (Emits_mobile_download_loop w bystander bystander_loop fs cs d l s4)
      as [evs [E F]];
    pose proof (KeepsTemp_mobile_download_loop w fs cs d l s4) as K;
    destruct (Mobile.download_loop w fs cs d l s4) as [[u|e] s5]
  end; cbn -[app] in E, K; cbn -[app].
  - destruct (bystanders_count _ F) as [D [C1 C2]].
    destruct (chat_fault w (chat_calls s5)) as [e|] eqn:F2.
    + left. exists e. eexists. eexists ([_; _; _; _] ++ evs ++ [_; _]).
      split; [reflexivity|]. split; [cbn -[app]; rewrite E, <- !app_assoc; reflexivity|].
      rewrite !deletions_app, !download_completed_app, !temp_created_app, D, C1, C2.
      repeat split; try reflexivity; simpl; assumption.
    + right. eexists. eexists ([_; _; _; _] ++ evs ++ [_; _]).
      split; [reflexivity|]. split; [cbn -[app]; rewrite E, <- !app_assoc; reflexivity|].
      rewrite !deletions_app, !download_completed_app, !temp_created_app, D, C1, C2.
      repeat split; try reflexivity; simpl; assumption.
  - destruct (bystanders_count _ F) as [D [C1 C2]].
    left. exists e. eexists. eexists ([_; _; _; _] ++ evs ++ [_]).
    split; [reflexivity|]. split; [cbn -[app]; rewrite E, <- !app_assoc; reflexivity|].
    rewrite !deletions_app, !download_completed_app, !temp_created_app, D, C1, C2.
    repeat split; try reflexivity; assumption.
Qed.

Lemma temp_created_observed (tr : list Event) :
  temp_created (observed tr) = temp_created tr.
Proof.
  induction tr as [|[op r] tr IH]; [reflexivity|].
  unfold temp_created, observed in *. simpl.
  destruct op as [m|m| | | | | | | | | | | | |]; simpl; destruct r; simpl;
    rewrite ?IH; reflexivity.
Qed.

Lemma download_completed_observed (tr : list Event) :
  download_completed (observed tr) = download_completed tr.
Proof.
  induction tr as [|[op r] tr IH]; [reflexivity|].
  unfold download_completed, observed in *. simpl.
  destruct op as [m|m| | | | | | | | | | | | |]; simpl; rewrite ?IH; reflexivity.
Qed.

(** Where the temporary file ends up, for the webhook variant. *)
Lemma mobile_temp_file_fate (w : World) (update : Update) (file : Document) :
  permitted w update ->
  document update = Some file ->
  (file_size file >? Mobile.max_size) = false ->
  let run := Mobile.handle_file w update initial in
  deletions (calls run) = (if download_completed (calls run) then 1 else 0)%nat
  /\ temp_exists (snd run)
     = temp_created (calls run) && negb (download_completed (calls run)).
Proof.
  intros Hp Hdoc Hsmall. cbv zeta.
  rewrite (mobile_handle_file_blocks w update file Hp Hdoc Hsmall).
  unfold bind. unfold reply_text. rewrite chat_initial. unfold first_chat_result.
  destruct (chat_fault w 0) as [e0|]; [split; reflexivity|].
  unfold try_except.
  match goal with |- context [mobile_download_then w file ?k ?s1] =>
    destruct (mobile_download_then_cases w file k s1 eq_refl)
      as [[e [s' [evs [Hrun [E [D [C T]]]]]]] | [s' [evs [Hrun [E [D [Tc [C T]]]]]]]];
    rewrite Hrun
  end.
  - destruct (mobile_error_report_bystander w file e) as [He Hk].
    destruct (He s') as [evs' [E' F']]. specialize (Hk s').
    destruct (bystanders_count _ F') as [D' [T' C']].
    destruct (mobile_error_report w file e s') as [r s'']. unfold calls. simpl in *.
    rewrite E', E, Hk, T. simpl.
    change (?x :: evs ++ evs') with ([x] ++ evs ++ evs').
    rewrite !deletions_app, !download_completed_app, !temp_created_app, D, C, D', C', T'.
    simpl. rewrite orb_false_r, andb_true_r. split; reflexivity.
  - destruct (mobile_upload_phase_deletes_once w file s' T) as [evs' [E' [D' T']]].
    destruct (mobile_upload_phase w file s') as [[u|e] s'']; simpl in E', T'.
    + unfold calls. simpl. rewrite E', E, T'. simpl.
      change (?x :: evs ++ evs') with ([x] ++ evs ++ evs').
      rewrite !deletions_app, !download_completed_app, !temp_created_app, D, C, D', Tc.
      simpl. split; reflexivity.
    + destruct (mobile_error_report_bystander w file e) as [He Hk].
      destruct (He s'') as [evs'' [E'' F'']]. specialize (Hk s'').
      destruct (bystanders_count _ F'') as [D'' [T'' C'']].
      destruct (mobile_error_report w file e s'') as [r s''']. unfold calls. simpl in *.
      rewrite E'', E', E, Hk, T'. simpl. rewrite <- app_assoc.
      change (?x :: evs ++ evs' ++ evs'') with ([x] ++ evs ++ evs' ++ evs'').
      rewrite !deletions_app, !download_completed_app, !temp_created_app, D, C, D', D'', Tc.
      simpl. split; reflexivity.
Qed.

(** X1.  In every run of [handle_file] that gets past the size guard, in
    either file: the temporary file is deleted exactly once when the
    download-complete edit has returned, and never otherwise; at the end it
    is on disk exactly when it was created and the download phase did not
    run to that edit.  So the paths through the upload phase (success,
    [HttpError], any other exception there) delete it once, and every
    failure after its creation and before the upload phase leaves it behind. *)
Theorem temp_file_fate (w : World) (update : Update) (file : Document) :
  permitted w update ->
  document update = Some file ->
  file_size file <= 6 * 1024 ^ 3 ->
  let mobile := Mobile.handle_file w update initial in
  let render := Render.handle_file w update initial in
  deletions (calls mobile) = (if download_completed (calls mobile) then 1 else 0)%nat
  /\ temp_exists (snd mobile)
     = temp_created (calls mobile) && negb (download_completed (calls mobile))
  /\ deletions (calls render) = (if download_completed (calls render) then 1 else 0)%nat
  /\ temp_exists (snd render)
     = temp_created (calls render) && negb (download_completed (calls render)).
Proof.
  intros Hp Hdoc Hsize mobile render.
  assert (Hsmall : (file_size file >? Mobile.max_size) = false).
  { rewrite Z.gtb_ltb. apply Z.ltb_ge. change Mobile.max_size with (6 * 1024 ^ 3). lia. }
  destruct (mobile_temp_file_fate w update file Hp Hdoc Hsmall) as [Hd Ht].
  fold mobile in Hd, Ht.
  destruct (Sim_handle_file w update initial initial (alike_refl initial))
    as [_ [_ [Htemp Hobs]]].
  fold mobile render in Htemp, Hobs. unfold calls in *.
  assert (Hdel : deletions (trace (snd render)) = deletions (trace (snd mobile))).
  { rewrite <- (deletions_observed (trace (snd render))), <- Hobs.
    apply deletions_observed. }
  assert (Hcre : temp_created (trace (snd render)) = temp_created (trace (snd mobile))).
  { rewrite <- (temp_created_observed (trace (snd render))), <- Hobs.
    apply temp_created_observed. }
  assert (Hcom : download_completed (trace (snd render))
                 = download_completed (trace (snd mobile))).
  { rewrite <- (download_completed_observed (trace (snd render))), <- Hobs.
    apply download_completed_observed. }
  rewrite Hdel, Hcre, Hcom, <- Htemp. repeat split; assumption.
Qed.

(** In [stalled_world] the file is created, the download does not complete,
    and the file is never deleted. *)
Lemma temp_file_fate_witness :
  deletions (calls (Mobile.handle_file stalled_world (file_update 10) initial)) = 0%nat
  /\ temp_exists (snd (Mobile.handle_file stalled_world (file_update 10) initial)) = true.
Proof.
  destruct (temp_file_fate stalled_world (file_update 10) (document_of_size 10))
    as [H1 [H2 _]].
  - left. reflexivity.
  - reflexivity.
  - intros H. discriminate H.
  - split; [exact H1 | exact H2].
Defined.

(** ** Further properties of the code *)

(** The size formatter picks the largest binary unit in which the value is
    at least 1 and prints two decimals, whole bytes below 1024. *)
Theorem format_file_size_units :
  Mobile.format_file_size 0 = Ok "0B"
  /\ Mobile.format_file_size 1023 = Ok "1023B"
  /\ Mobile.format_file_size 1024 = Ok "1.00KB"
  /\ Mobile.format_file_size 1536 = Ok "1.50KB"
  /\ Mobile.format_file_size (1024 ^ 2) = Ok "1.00MB"
  /\ Mobile.format_file_size (10 * 1024 ^ 2) = Ok "10.00MB"
  /\ Mobile.format_file_size (1024 ^ 3) = Ok "1.00GB"
  /\ Mobile.format_file_size (6 * 1024 ^ 3) = Ok "6.00GB"
  /\ Render.format_file_size = Mobile.format_file_size.
Proof. do 8 (split; [vm_compute; reflexivity|]). reflexivity. Qed.

(** A transfer of 10 MiB in which nothing fails: the received notice, the
    preparing notice, a progress edit after each chunk (each adds 10 points),
    the download-complete edit, a progress edit after each acknowledgment
    (each adds 20 points) and the success message; the file is deleted once
    and gone at the end. *)
Theorem ten_mib_transfer :
  let run := Mobile.handle_file ten_mib_world ten_mib_update initial in
  fst run = Ok tt
  /\ user_visible (calls run)
     = [MsgFileReceived "holiday.mp4" (10 * MiB); MsgPreparing;
        MsgDownloading 10 (1 * MiB) (10 * MiB); MsgDownloading 20 (2 * MiB) (10 * MiB);
        MsgDownloading 30 (3 * MiB) (10 * MiB); MsgDownloading 40 (4 * MiB) (10 * MiB);
        MsgDownloading 50 (5 * MiB) (10 * MiB); MsgDownloading 60 (6 * MiB) (10 * MiB);
        MsgDownloading 70 (7 * MiB) (10 * MiB); MsgDownloading 80 (8 * MiB) (10 * MiB);
        MsgDownloading 90 (9 * MiB) (10 * MiB); MsgDownloading 100 (10 * MiB) (10 * MiB);
        MsgDownloadComplete "holiday.mp4";
        MsgUploading 20 (2 * MiB) (10 * MiB) "holiday.mp4";
        MsgUploading 40 (4 * MiB) (10 * MiB) "holiday.mp4";
        MsgUploading 60 (6 * MiB) (10 * MiB) "holiday.mp4";
        MsgUploading 80 (8 * MiB) (10 * MiB) "holiday.mp4";
        MsgUploadSuccessful "holiday.mp4" (10 * MiB) (Some "1AbC")
          "https://drive.google.com/file/d/1AbC/view"]
  /\ deletions (calls run) = 1%nat
  /\ temp_exists (snd run) = false
  /\ user_visible (calls (Render.handle_file ten_mib_world ten_mib_update initial))
     = user_visible (calls run).
Proof. vm_compute. repeat split; reflexivity. Qed.

(** An upload that the provider refuses: the sender is shown the upload
    failure with the provider's error text as it came, which is not the
    generic error notice of a failed download, and the file is deleted once. *)
Theorem provider_error_is_reported :
  let run := Mobile.handle_file full_drive_world (file_update 10) initial in
  let failure := MsgUploadFailed "report.pdf" (exn_str quota_exceeded) in
  fst run = Ok tt
  /\ List.last (user_visible (calls run)) MsgPreparing = failure
  /\ Mobile.message_text failure
     = Ok ("❌ **Google Drive Upload Failed**" ++ nl ++ nl ++
           "📁 File: report.pdf" ++ nl ++
           "🚫 Error: <HttpError 403 The user's Drive storage quota has been exceeded.>"
           ++ nl ++ nl ++
           "Please try again or contact support.")%string
  /\ deletions (calls run) = 1%nat
  /\ temp_exists (snd run) = false
  /\ user_visible (calls (Render.handle_file full_drive_world (file_update 10) initial))
     = user_visible (calls run).
Proof. vm_compute. repeat split; reflexivity. Qed.

(** The texts of some of the messages met above. *)
Example message_texts :
  Mobile.message_text (MsgTooLarge "report.pdf" (7 * 1024 ^ 3))
  = Ok ("❌ File too large!" ++ nl ++ nl ++
        "📁 File: report.pdf" ++ nl ++
        "📏 Size: 7.00GB" ++ nl ++
        "🚫 Maximum allowed: 6GB" ++ nl ++ nl ++
        "Please send a smaller file.")%string
  /\ Mobile.message_text (MsgDownloading 40 (4 * MiB) (10 * MiB))
     = Ok ("📥 **Downloading from Telegram**" ++ nl ++ nl ++
           "[████████░░░░░░░░░░░░] 40%" ++ nl ++ nl ++
           "📊 Progress: 4.00MB / 10.00MB" ++ nl ++
           "⚡ Status: 40% complete")%string
  /\ Mobile.message_text
       (MsgUploadSuccessful "holiday.mp4" (10 * MiB) (Some "1AbC")
          "https://drive.google.com/file/d/1AbC/view")
     = Ok ("🎉 **Upload Successful!**" ++ nl ++ nl ++
           "📁 **File:** `holiday.mp4`" ++ nl ++
           "📏 **Size:** 10.00MB" ++ nl ++
           "🆔 **Drive ID:** `1AbC`" ++ nl ++ nl ++
           "🔗 **[Open in Google Drive](https://drive.google.com/file/d/1AbC/view)**"
           ++ nl ++ nl ++
           "✅ Your file is now safely stored in Google Drive!")%string
  /\ Mobile.message_text (MsgStatusConnected (5 * 1024 ^ 3) (15 * 1024 ^ 3))
     = Ok ("🤖 **Bot Status Report:**" ++ nl ++ nl ++
           "✅ Bot is running smoothly" ++ nl ++
           "✅ Google Drive connected successfully" ++ nl ++
           "💾 Storage used: 5.00GB of 15.00GB (33.3%)")%string.
Proof. vm_compute. repeat split; reflexivity. Qed.

(** X2.  The existence check before the delete makes the cleanup safe to
    run again: with the file gone it makes no delete call and raises nothing,
    and run twice in a row from a state with the file on disk it deletes the
    file once. *)
Theorem cleanup_is_idempotent (w : World) (s : State) :
  (temp_exists s = false ->
     fst (mobile_cleanup w s) = Ok tt
     /\ deletions (trace (snd (mobile_cleanup w s))) = deletions (trace s)
     /\ temp_exists (snd (mobile_cleanup w s)) = false)
  /\ (temp_exists s = true ->
     let twice := (mobile_cleanup w ;; mobile_cleanup w)%py s in
     fst twice = Ok tt
     /\ deletions (trace (snd twice)) = S (deletions (trace s))
     /\ temp_exists (snd twice) = false).
Proof.
  destruct s as [tr n on_disk]. simpl. split; intros ->.
  - cbv -[deletions app]. repeat split.
    unfold deletions. rewrite !filter_app, !length_app. simpl. lia.
  - cbv -[deletions app]. repeat split.
    unfold deletions. rewrite !filter_app, !length_app. simpl. lia.
Qed.

Lemma cleanup_is_idempotent_witness :
  fst (mobile_cleanup calm_world initial) = Ok tt.
Proof. apply (proj1 (cleanup_is_idempotent calm_world initial)). reflexivity. Defined.

(** ** The texts of the messages *)

Lemma digits2_pos_size (p : positive) : digits2_pos p = Pos.size p.
Proof. induction p; simpl; congruence. Qed.

Lemma Zdigits2_nonneg (m : Z) : 0 <= Zdigits2 m.
Proof. destruct m; simpl; lia. Qed.

Lemma Zdigits2_le (m k : Z) : 0 <= k -> Z.abs m < 2 ^ k -> Zdigits2 m <= k.
Proof.
  intros Hk Hm.
  assert (Hp : forall p, Zpos p < 2 ^ k -> Zpos (digits2_pos p) <= k).
  { intros p Hlt. rewrite digits2_pos_size.
    destruct (Z_le_gt_dec (Zpos (Pos.size p)) k) as [|Hgt]; [assumption|exfalso].
    pose proof (Pos.size_le p) as Hle.
    apply Pos2Z.pos_le_pos in Hle. rewrite Pos2Z.inj_pow in Hle.
    assert (2 ^ (k + 1) <= 2 ^ Zpos (Pos.size p))
      by (apply Z.pow_le_mono_r; lia).
    rewrite Z.pow_add_r in H by lia. change (Zpos p~0) with (2 * Zpos p) in Hle. lia. }
  destruct m as [|p|p]; simpl in *; [lia | apply Hp; lia | apply Hp; lia].
Qed.

Lemma Zdigits2_gt (m : Z) : Z.abs m < 2 ^ Zdigits2 m.
Proof.
  assert (Hp : forall p, Zpos p < 2 ^ Zpos (digits2_pos p)).
  { intros p. rewrite digits2_pos_size. pose proof (Pos.size_gt p) as H.
    apply Pos2Z.pos_lt_pos in H. rewrite Pos2Z.inj_pow in H. exact H. }
  destruct m as [|p|p]; simpl; [lia | apply Hp | apply Hp].
Qed.

Lemma shr_1_tame (d : Z) (mrs : shr_record) : tame d mrs -> tame d (shr_1 mrs).
Proof.
  unfold tame. destruct mrs as [m r s].
  destruct m as [|[p|p|]|[p|p|]]; simpl; lia.
Qed.

Lemma iter_shr_1_tame (d : Z) (p : positive) :
  forall mrs, tame d mrs -> tame d (iter_pos shr_1 p mrs).
Proof.
  induction p as [p IH|p IH|]; intros mrs H; simpl.
  - apply IH, IH, shr_1_tame, H.
  - apply IH, IH, H.
  - apply shr_1_tame, H.
Qed.

Lemma shr_fexp_tame (m e : Z) (l : location) :
  0 <= m ->
  tame (Zdigits2 m) (fst (shr_fexp Py.prec Py.emax m e l)) /\
  snd (shr_fexp Py.prec Py.emax m e l)
    = Z.max e (fexp Py.prec Py.emax (Zdigits2 m + e)).
Proof.
  intros Hm. unfold shr_fexp, shr.
  assert (H0 : tame (Zdigits2 m) (shr_record_of_loc m l))
    by (unfold tame; destruct l as [|[]]; simpl; lia).
  destruct (fexp Py.prec Py.emax (Zdigits2 m + e) - e) as [|p|p] eqn:E; simpl.
  - split; [exact H0 | lia].
  - split; [apply iter_shr_1_tame, H0 | lia].
  - split; [exact H0 | lia].
Qed.

Lemma round_nearest_even_tame (m : Z) (l : location) :
  0 <= m ->
  0 <= round_nearest_even m l /\
  Zdigits2 (round_nearest_even m l) <= Zdigits2 m + 1.
Proof.
  intros Hm.
  assert (Hs : Zdigits2 (m + 1) <= Zdigits2 m + 1).
  { pose proof (Zdigits2_gt m) as Hgt. pose proof (Zdigits2_nonneg m) as Hd.
    apply Zdigits2_le; [lia|]. rewrite Z.pow_add_r by lia. lia. }
  destruct l as [|[]]; simpl; try destruct (Z.even m); lia.
Qed.

Lemma binary_round_aux_finite (sx : bool) (mx ex : Z) (lx : location) :
  0 <= mx -> Zdigits2 mx <= 200 -> ex <= 200 ->
  is_finite (binary_round_aux Py.prec Py.emax sx mx ex lx) = true.
Proof.
  intros Hm Hd He. unfold binary_round_aux.
  destruct (shr_fexp_tame mx ex lx Hm) as [[Hm1 Hd1] He1].
  destruct (shr_fexp Py.prec Py.emax mx ex lx) as [mrs1 e1]; simpl in *.
  destruct (round_nearest_even_tame (shr_m mrs1) (loc_of_shr_record mrs1) Hm1)
    as [Hm2 Hd2].
  set (m2 := round_nearest_even (shr_m mrs1) (loc_of_shr_record mrs1)) in *.
  destruct (shr_fexp_tame m2 e1 loc_Exact Hm2) as [[Hm3 Hd3] He3].
  destruct (shr_fexp Py.prec Py.emax m2 e1 loc_Exact) as [mrs2 e2]; simpl in *.
  pose proof (Zdigits2_nonneg mx). pose proof (Zdigits2_nonneg m2).
  assert (e2 <= Py.emax - Py.prec)
    by (unfold fexp, emin, Py.prec, Py.emax in *; lia).
  destruct (shr_m mrs2) as [|p|p]; [reflexivity| |lia].
  match goal with
  | |- context [?x <=? ?y] => destruct (Z.leb_spec x y) as [_|Hgt]
  end; [reflexivity | unfold Py.emax, Py.prec in *; lia].
Qed.

Lemma SFdiv_core_tame (ma mb : positive) :
  Z.pos ma < 2 ^ 64 -> Z.pos mb < 2 ^ 64 ->
  forall q e l,
    SFdiv_core_binary Py.prec Py.emax (Z.pos ma) 0 (Z.pos mb) 0 = (q, e, l) ->
    0 <= q /\ Zdigits2 q <= 200 /\ e <= 200.
Proof.
  intros Ha Hb q e l. unfold SFdiv_core_binary.
  assert (Hd1 : 1 <= Zdigits2 (Z.pos ma) <= 64)
    by (split; [simpl; lia | apply Zdigits2_le; simpl; lia]).
  assert (Hd2 : 1 <= Zdigits2 (Z.pos mb) <= 64)
    by (split; [simpl; lia | apply Zdigits2_le; simpl; lia]).
  set (e' := Z.min _ _).
  assert (He' : -116 <= e' <= 0)
    by (unfold e', fexp, emin, Py.prec, Py.emax; lia).
  set (m' := match 0 - 0 - e' with Z0 => _ | Z.pos _ => _ | Z.neg _ => _ end).
  assert (Hm' : 0 <= m' < 2 ^ 64 * 2 ^ 116).
  { unfold m'. destruct (0 - 0 - e') as [|p|p] eqn:Es; [lia| |lia].
    rewrite Z.shiftl_mul_pow2 by lia.
    assert (0 < 2 ^ Z.pos p <= 2 ^ 116)
      by (split; [apply Z.pow_pos_nonneg; lia | apply Z.pow_le_mono_r; lia]).
    split; [apply Z.mul_nonneg_nonneg; lia|].
    apply Z.le_lt_trans with (Z.pos ma * 2 ^ 116);
      [ apply Z.mul_le_mono_nonneg_l; lia
      | apply Z.mul_lt_mono_pos_r; [apply Z.pow_pos_nonneg; lia | lia] ]. }
  clearbody m' e'.
  destruct (Z.div_eucl m' (Z.pos mb)) as [q' r'] eqn:E.
  intros Heq; inversion Heq; subst q' e'. clear Heq.
  assert (Hq : q = m' / Z.pos mb) by (unfold Z.div; rewrite E; reflexivity).
  assert (Hq0 : 0 <= q) by (rewrite Hq; apply Z.div_pos; lia).
  assert (Hqm : q <= m')
    by (rewrite Hq; apply Z.div_le_upper_bound; [lia | nia]).
  split; [exact Hq0|]. split; [|lia].
  apply Zdigits2_le; [lia|].
  rewrite Z.abs_eq by lia. change (2 ^ 200) with (2 ^ 64 * 2 ^ 116 * 2 ^ 20). lia.
Qed.

Lemma true_div_finite (a b : Z) :
  Z.abs a < 2 ^ 64 -> Z.abs b < 2 ^ 64 -> b <> 0 ->
  exists f, Py.true_div a b = Ok f /\ is_finite f = true.
Proof.
  intros Ha Hb Hb0. unfold Py.true_div.
  destruct b as [|q|q] eqn:Eb; [congruence| |];
    (destruct a as [|p|p] eqn:Ea; [eexists; split; reflexivity| |]).
  all: rewrite <- Ea, <- Eb.
  all: set (sa := a <? 0); set (sb := b <? 0).
  all: set (ma := Z.to_pos (Z.abs a)); set (mb := Z.to_pos (Z.abs b)).
  all: assert (Hma : Z.pos ma < 2 ^ 64) by (unfold ma; subst; simpl in *; lia).
  all: assert (Hmb : Z.pos mb < 2 ^ 64) by (unfold mb; subst; simpl in *; lia).
  all: clearbody sa sb ma mb.
  all: cut (is_finite (SFdiv Py.prec Py.emax (S754_finite sa ma 0) (S754_finite sb mb 0)) = true);
    [ destruct (SFdiv Py.prec Py.emax (S754_finite sa ma 0) (S754_finite sb mb 0));
      simpl; try discriminate; intros _; eexists; split; reflexivity | ].
  all: unfold SFdiv.
  all: destruct (SFdiv_core_binary Py.prec Py.emax (Z.pos ma) 0 (Z.pos mb) 0)
         as [[mz ez] lz] eqn:E.
  all: destruct (SFdiv_core_tame ma mb Hma Hmb mz ez lz E) as (H1 & H2 & H3).
  all: apply binary_round_aux_finite; assumption.
Qed.

Lemma format_file_size_total (size_bytes : Z) :
  size_bytes < 2 ^ 64 ->
  exists text, Mobile.format_file_size size_bytes = Ok text.
Proof.
  intros H. unfold Mobile.format_file_size.
  repeat match goal with
  | |- context [?x >=? ?y] =>
      destruct (Z.geb_spec x y) as [?|?];
      [ destruct (true_div_finite x y) as (f & -> & _);
        [lia | lia | lia | eexists; reflexivity] | ]
  end.
  eexists; reflexivity.
Qed.

Lemma int_of_float_total (f : Py.float) :
  is_finite f = true -> exists n, Py.int_of_float f = Ok n.
Proof.
  destruct f; simpl; try discriminate; intros _; eexists; reflexivity.
Qed.

Lemma create_progress_bar_total (progress : Z) :
  ranged progress ->
  exists text, Mobile.create_progress_bar progress 20 = Ok text.
Proof.
  unfold ranged. intros H. unfold Mobile.create_progress_bar.
  destruct (true_div_finite (20 * progress) 100) as (f & -> & Hf); [lia | lia | lia |].
  destruct (int_of_float_total f Hf) as (n & Hn).
  simpl. rewrite Hn. eexists; reflexivity.
Qed.

Ltac formed :=
  repeat match goal with
  | |- context [Mobile.format_file_size ?n] =>
      let t := fresh "text" in let E := fresh "E" in
      destruct (format_file_size_total n) as (t & E); [lia | rewrite E; clear E]
  | |- context [Mobile.create_progress_bar ?p 20] =>
      let t := fresh "text" in let E := fresh "E" in
      destruct (create_progress_bar_total p) as (t & E);
      [unfold ranged; lia | rewrite E; clear E]
  | |- context [Py.true_div ?a ?b] =>
      let f := fresh "f" in let E := fresh "E" in
      destruct (true_div_finite a b) as (f & E & _); [lia | lia | lia | rewrite E; clear E]
  end.



(** ** The calls of a transfer, block by block *)

Lemma get_drive_service_shape (w : World) (s : State) :
  Mobile.get_drive_service w s
  = (service_result w,
     {| trace := trace s ++ service_calls w;
        chat_calls := chat_calls s;
        temp_exists := temp_exists s |}).
Proof.
  unfold Mobile.get_drive_service, service_result, service_calls, credentials_missing.
  destruct s as [tr n on_disk].
  destruct (GOOGLE_SERVICE_ACCOUNT w) as [[|c rest]|];
    try destruct (build_fault w) as [e|];
    cbv -[app append]; rewrite <- ?app_assoc; reflexivity.
Qed.

Lemma upload_loop_answer (w : World) (name : string) (fs : Z)
    (steps : list (option Py.float)) :
  forall last s response,
    fst (Mobile.upload_loop w name fs steps last s) = Ok response ->
    exists status, upload_final w = Ok (status, response).
Proof.
  induction steps as [|st rest IH]; intros last s response; simpl.
  - destruct (upload_final w) as [[status r]|e]; unfold bind, record; cbn -[app Mobile.upload_report].
    + match goal with |- context [Mobile.upload_report w name fs status last ?s'] =>
        destruct (Mobile.upload_report w name fs status last s') as [[l|e] s1] end;
        simpl; intros H; inversion H; subst. eauto.
    + discriminate.
  - unfold bind, record. cbn -[app Mobile.upload_report].
    match goal with |- context [Mobile.upload_report w name fs st last ?s'] =>
      destruct (Mobile.upload_report w name fs st last s') as [[l|e] s1] end;
      simpl; [apply IH | discriminate].
Qed.

Lemma chunks_written_app (l1 l2 : list Event) :
  chunks_written (l1 ++ l2) = chunks_written l1 ++ chunks_written l2.
Proof.
  induction l1 as [|[op r] l1 IH]; [reflexivity|].
  simpl. destruct op; try destruct r; simpl; rewrite ?IH; reflexivity.
Qed.

Lemma download_loop_chunks (w : World) (fs : Z) (chunks : list N) :
  forall d last s,
  exists evs,
    trace (snd (Mobile.download_loop w fs chunks d last s)) = trace s ++ evs
    /\ (exists k, chunks_written evs = firstn k chunks)
    /\ (fst (Mobile.download_loop w fs chunks d last s) = Ok tt ->
        chunks_written evs = chunks /\ download_error w = None).
Proof.
  induction chunks as [|c rest IH]; intros d last s; simpl.
  - destruct (download_error w) as [e|].
    + exists [Ev NextDownload (Some e)]. split; [reflexivity|].
      split; [exists 0%nat; reflexivity | discriminate].
    + exists [Ev NextDownload None]. split; [reflexivity|].
      split; [exists 0%nat; reflexivity | auto].
  - unfold bind, record, fs_write, lift. cbn -[app].
    destruct (Mobile.download_progress (d + Z.of_N c) fs) as [p|e] eqn:Hp.
    + destruct (p - last >=? 3) eqn:Hge.
      * unfold edit_text, chat. cbn -[app].
        destruct (chat_fault w (chat_calls s)) as [e|].
        -- eexists. split; [cbn -[app]; rewrite <- !app_assoc; reflexivity|].
           split; [exists 1%nat; reflexivity | discriminate].
        -- match goal with |- context [Mobile.download_loop w fs rest ?d' ?l' ?s'] =>
             destruct (IH d' l' s') as [evs [E [[k Hk] Hok]]] end.
           eexists. split; [rewrite E; cbn -[app]; rewrite <- !app_assoc; reflexivity|].
           simpl. split.
           ++ exists (S k). simpl. now rewrite Hk.
           ++ intros H. destruct (Hok H) as [-> ->]. auto.
      * match goal with |- context [Mobile.download_loop w fs rest ?d' ?l' ?s'] =>
          destruct (IH d' l' s') as [evs [E [[k Hk] Hok]]] end.
        eexists. split; [rewrite E; cbn -[app]; rewrite <- !app_assoc; reflexivity|].
        simpl. split.
        -- exists (S k). simpl. now rewrite Hk.
        -- intros H. destruct (Hok H) as [-> ->]. auto.
    + eexists. split; [cbn -[app]; rewrite <- !app_assoc; reflexivity|].
      split; [exists 1%nat; reflexivity | discriminate].
Qed.

Lemma service_calls_built (w : World) :
  service_result w = Ok tt -> service_calls w = [Ev BuildService None].
Proof.
  unfold service_calls, service_result.
  destruct (credentials_missing w); [discriminate|].
  destruct (build_fault w); [discriminate | reflexivity].
Qed.

Lemma upload_body_shape (w : World) (file : Document) (s : State) :
  temp_exists s = true ->
  exists evs r s',
    mobile_upload_body w file s = (r, s')
    /\ trace s' = trace s ++ evs
    /\ upload_body_run w file evs r
    /\ temp_exists s' = true.
Proof.
  intros Hdisk. unfold mobile_upload_body, bind.
  rewrite get_drive_service_shape.
  destruct (service_result w) as [[]|e] eqn:Hs.
  - unfold fs_open. cbn -[app Mobile.upload_loop]. rewrite Hdisk.
    unfold record. cbn -[app Mobile.upload_loop].
    match goal with |- context [Mobile.upload_loop w ?n ?fs ?st ?l ?s'] =>
      destruct (mobile_upload_loop_run w n fs st l s') as [evs [E R]];
      pose proof (KeepsTemp_mobile_upload_loop w n fs st l s') as K;
      pose proof (upload_loop_answer w n fs st l s') as A;
      destruct (Mobile.upload_loop w n fs st l s') as [[response|e] s1] eqn:L
    end; cbn -[app] in E, R, K, A; cbn -[app].
    + destruct (A response eq_refl) as [status Hfinal].
      unfold edit_text, chat.
      exists (service_calls w
              ++ [Ev (Open rb) None; Ev (FilesCreate (name_of file) (parents_of w)) None]
              ++ evs ++ [Ev (Edit (success_notice file response)) (chat_fault w (chat_calls s1))]).
      exists (raised_as (chat_fault w (chat_calls s1))).
      exists {| trace := trace s1 ++ [Ev (Edit (success_notice file response))
                                         (chat_fault w (chat_calls s1))];
                chat_calls := S (chat_calls s1);
                temp_exists := temp_exists s1 |}.
      split; [destruct (chat_fault w (chat_calls s1)); reflexivity|].
      split; [cbn -[app]; rewrite E, <- !app_assoc; reflexivity|].
      split; [eapply ub_answered; [reflexivity | eassumption..] | exact K].
    + exists (service_calls w
              ++ [Ev (Open rb) None; Ev (FilesCreate (name_of file) (parents_of w)) None]
              ++ evs).
      eexists. eexists. split; [reflexivity|].
      split; [rewrite E, <- !app_assoc; reflexivity|].
      split; [apply ub_loop_raised; try assumption; eexists; exact (f_equal fst L)
             | exact K].
  - exists (service_calls w). eexists. eexists. split; [reflexivity|].
    split; [reflexivity|]. split; [apply ub_no_service; exact Hs | exact Hdisk].
Qed.

Lemma upload_phase_shape (w : World) (file : Document) (s : State) :
  temp_exists s = true ->
  exists evs r s',
    mobile_upload_phase w file s = (r, s')
    /\ trace s' = trace s ++ evs
    /\ upload_phase_run w file evs r
    /\ temp_exists s' = false.
Proof.
  intros Hdisk.
  unfold mobile_upload_phase, try_except_HttpError_finally, try_finally, try_except.
  destruct (upload_body_shape w file s Hdisk) as (evs & r & s1 & Eq & E & R & K).
  rewrite Eq. destruct r as [[]|e].
  - rewrite mobile_cleanup_on_disk by exact K.
    exists (evs ++ cleanup_calls w). eexists. eexists. split; [reflexivity|].
    split; [cbn -[app]; rewrite E, <- app_assoc; reflexivity|].
    split; [apply up_returned; exact R | reflexivity].
  - destruct (is_HttpError e) eqn:Hk.
    + unfold mobile_upload_failed, bind, edit_text, chat, log, record.
      destruct (chat_fault w (chat_calls s1)) as [e'|] eqn:Hx; cbn -[app mobile_cleanup].
      * rewrite mobile_cleanup_on_disk by exact K.
        eexists. eexists. eexists. split; [reflexivity|].
        split; [cbn -[app]; rewrite E, <- !app_assoc; reflexivity|].
        split; [|reflexivity].
        apply (up_reported w file evs e (Some e') (chat_calls s1) Hx R Hk).
      * rewrite mobile_cleanup_on_disk by exact K.
        eexists. eexists. eexists. split; [reflexivity|].
        split; [cbn -[app]; rewrite E, <- !app_assoc; reflexivity|].
        split; [|reflexivity].
        apply (up_reported w file evs e None (chat_calls s1) Hx R Hk).
    + unfold raise. rewrite mobile_cleanup_on_disk by exact K.
      exists (evs ++ cleanup_calls w). eexists. eexists. split; [reflexivity|].
      split; [cbn -[app]; rewrite E, <- app_assoc; reflexivity|].
      split; [apply up_passed_on; assumption | reflexivity].
Qed.

Lemma download_phase_shape (w : World) (file : Document) (next : M unit) (s : State) :
  temp_exists s = false ->
  (exists e evs s',
      mobile_download_then w file next s = (Raise e, s')
      /\ trace s' = trace s ++ evs
      /\ download_phase_run w file evs (Some e))
  \/ (exists evs s',
      mobile_download_then w file next s = next s'
      /\ trace s' = trace s ++ evs
      /\ download_phase_run w file evs None
      /\ temp_exists s' = true).
Proof.
  intros H. destruct s as [tr n on_disk]. simpl in H. subst on_disk.
  unfold mobile_download_then, bind, reply_text, get_file, edit_text, chat, temp_create,
    with_open, fs_open, try_finally, fs_close, record, set_temp.
  cbn -[app Mobile.download_loop].
  destruct (chat_fault w n) as [e|] eqn:F0.
  { left. exists e. eexists. eexists. split; [reflexivity|].
    split; [reflexivity | apply (dp_no_status w file e n F0)]. }
  cbn -[app Mobile.download_loop].
  destruct (chat_fault w (S n)) as [e|] eqn:F1.
  { left. exists e. exists [Ev (Reply MsgPreparing) None; Ev (GetFile (file_id file)) (Some e)].
    eexists. split; [reflexivity|].
    split; [cbn -[app]; rewrite <- app_assoc; reflexivity | apply (dp_no_file w file e (S n) F1)]. }
  cbn -[app Mobile.download_loop].
  match goal with |- context [Mobile.download_loop w ?fs ?cs ?d ?l ?s4] =>
    destruct (mobile_download_loop_run w fs cs d l s4) as [evs [E R]];
    destruct (download_loop_chunks w fs cs d l s4) as [evs' [E' [[k Hk] Hok]]];
    pose proof (KeepsTemp_mobile_download_loop w fs cs d l s4) as K;
    destruct (Mobile.download_loop w fs cs d l s4) as [[[]|e] s5] eqn:L
  end; cbn -[app] in E, E', R, K, Hok; cbn -[app];
  (assert (evs' = evs) by (rewrite E in E'; apply app_inv_head in E'; congruence); subst evs').
  - destruct (Hok eq_refl) as [Hall Hnone].
    destruct (chat_fault w (chat_calls s5)) as [e|] eqn:F2.
    + left. exists e. eexists. eexists. split; [reflexivity|].
      split; [cbn -[app]; rewrite E, <- !app_assoc; reflexivity|].
      apply (dp_written w file evs (Some e) (chat_calls s5)); assumption.
    + right. eexists. eexists. split; [reflexivity|].
      split; [cbn -[app]; rewrite E, <- !app_assoc; reflexivity|].
      split; [apply (dp_written w file evs None (chat_calls s5)); assumption | exact K].
  - left. exists e. eexists. eexists. split; [reflexivity|].
    split; [cbn -[app]; rewrite E, <- !app_assoc; reflexivity|].
    apply (dp_interrupted w file evs e k); try assumption.
    eexists. exact (f_equal fst L).
Qed.

Lemma error_report_shape (w : World) (file : Document) (e : exn) (s : State) :
  mobile_error_report w file e s
  = (raised_as (chat_fault w (chat_calls s)),
     {| trace := trace s ++ error_calls file e (chat_fault w (chat_calls s));
        chat_calls := S (chat_calls s);
        temp_exists := temp_exists s |}).
Proof.
  unfold mobile_error_report, bind, log, record, reply_text, chat, error_calls.
  cbn -[app]. destruct (chat_fault w (chat_calls s)); cbn -[app];
    rewrite <- !app_assoc; reflexivity.
Qed.

(** The calls of [handle_file] past the size guard: the File Received reply
    and, when that returned, the calls of the transfer. *)
Lemma transfer_shape (w : World) (update : Update) (file : Document) :
  permitted w update ->
  document update = Some file ->
  (file_size file >? Mobile.max_size) = false ->
  exists rest r s',
    Mobile.handle_file w update initial = (r, s')
    /\ trace s'
       = Ev (Reply (MsgFileReceived (name_of file) (file_size file))) (chat_fault w 0) :: rest
    /\ match chat_fault w 0 with
       | Some e => rest = [] /\ r = Raise e
       | None => transfer_run w file rest r
       end.
Proof.
  intros Hp Hd Hs.
  rewrite (mobile_handle_file_blocks w update file Hp Hd Hs).
  unfold bind, reply_text, chat. cbn -[app mobile_download_then try_except].
  destruct (chat_fault w 0) as [e|] eqn:F0; cbn -[app mobile_download_then try_except].
  { exists []. eexists. eexists. split; [reflexivity|]. split; [reflexivity|]. split; reflexivity. }
  unfold try_except.
  match goal with |- context [mobile_download_then w file ?next ?s1] =>
    destruct (download_phase_shape w file next s1 eq_refl)
      as [(e & evs & s' & Eq & E & R) | (evs & s' & Eq & E & R & K)]
  end; rewrite Eq.
  - rewrite error_report_shape.
    exists (evs ++ error_calls file e (chat_fault w (chat_calls s'))).
    eexists. eexists. split; [reflexivity|].
    split; [cbn -[app error_calls]; rewrite E; reflexivity|].
    apply (tr_download_failed w file evs e _ (chat_calls s') eq_refl). exact R.
  - destruct (upload_phase_shape w file s' K) as (evs_u & r & s'' & Equ & Eu & Ru & _).
    rewrite Equ. destruct r as [[]|e].
    + exists (evs ++ evs_u). eexists. eexists. split; [reflexivity|].
      split; [rewrite Eu, E, <- app_assoc; reflexivity|].
      apply tr_finished; assumption.
    + rewrite error_report_shape.
      exists (evs ++ evs_u ++ error_calls file e (chat_fault w (chat_calls s''))).
      eexists. eexists. split; [reflexivity|].
      split; [cbn -[app error_calls]; rewrite Eu, E, <- !app_assoc; reflexivity|].
      eapply tr_upload_raised; [reflexivity | eassumption..].
Qed.


(** ** What the calls of a transfer show *)

Lemma user_visible_app (l1 l2 : list Event) :
  user_visible (l1 ++ l2) = user_visible l1 ++ user_visible l2.
Proof.
  induction l1 as [|ev l1 IH]; [reflexivity|].
  simpl. destruct (shown ev); simpl; rewrite IH; reflexivity.
Qed.

Lemma download_edits_app (l1 l2 : list Event) :
  download_edits (l1 ++ l2) = download_edits l1 ++ download_edits l2.
Proof.
  induction l1 as [|[op r] l1 IH]; [reflexivity|].
  simpl. destruct op as [m|m| | | | | | | | | | | | |]; try exact IH.
  destruct m; simpl; rewrite ?IH; reflexivity.
Qed.

Lemma download_run_ops fs d last evs r :
  download_run fs d last evs r ->
  Forall (fun ev => download_loop_op (ev_op ev) = true) evs.
Proof. induction 1; repeat constructor; assumption. Qed.

Lemma report_run_ops name fs status last evs r :
  report_run name fs status last evs r ->
  Forall (fun ev => upload_loop_op (ev_op ev) = true) evs.
Proof. destruct 1; repeat constructor. Qed.

Lemma upload_run_ops name fs last evs r :
  upload_run name fs last evs r ->
  Forall (fun ev => upload_loop_op (ev_op ev) = true) evs.
Proof.
  induction 1; repeat constructor;
    try (eapply report_run_ops; eassumption).
  apply Forall_app. split; [eapply report_run_ops; eassumption | assumption].
Qed.

(** What lists of loop calls do not hold. *)
Lemma download_ops_facts (evs : list Event) :
  Forall (fun ev => download_loop_op (ev_op ev) = true) evs ->
  quiet evs
  /\ deletions evs = 0%nat
  /\ download_completed evs = false
  /\ upload_edits evs = []
  /\ Forall (fun ev => is_provider_op (ev_op ev) = false) evs.
Proof.
  unfold quiet.
  induction 1 as [|[op r] evs Hop _ (IH1 & IH2 & IH3 & IH4 & IH5)];
    [repeat split; constructor|].
  unfold deletions, download_completed in *. simpl in *.
  destruct op as [m|m| | | | | | | | | | | | |]; try discriminate;
    try (destruct m; try discriminate); destruct r; simpl;
    repeat split; try assumption; try (constructor; [reflexivity | assumption]).
Qed.

Lemma upload_ops_facts (evs : list Event) :
  Forall (fun ev => upload_loop_op (ev_op ev) = true) evs ->
  quiet evs
  /\ deletions evs = 0%nat
  /\ download_completed evs = false
  /\ download_edits evs = []
  /\ chunks_written evs = [].
Proof.
  unfold quiet.
  induction 1 as [|[op r] evs Hop _ (IH1 & IH2 & IH3 & IH4 & IH5)];
    [repeat split; constructor|].
  unfold deletions, download_completed in *. simpl in *.
  destruct op as [m|m| | | | | | | | | | | | |]; try discriminate;
    try (destruct m; try discriminate); destruct r; simpl;
    repeat split; try assumption; try (constructor; [reflexivity | assumption]).
Qed.

Lemma quiet_app (l1 l2 : list Event) : quiet (l1 ++ l2) <-> quiet l1 /\ quiet l2.
Proof. unfold quiet. rewrite user_visible_app. apply Forall_app. Qed.

Lemma quiet_nil : quiet [].
Proof. constructor. Qed.

Lemma service_calls_facts (w : World) :
  quiet (service_calls w)
  /\ deletions (service_calls w) = 0%nat
  /\ download_completed (service_calls w) = false
  /\ download_edits (service_calls w) = []
  /\ upload_edits (service_calls w) = []
  /\ chunks_written (service_calls w) = [].
Proof.
  unfold service_calls, quiet.
  destruct (credentials_missing w); [|destruct (build_fault w)];
    repeat split; constructor.
Qed.

Lemma one_verdict_after (l1 l2 : list Event) (v : Message) :
  quiet l1 -> one_verdict l2 v -> one_verdict (l1 ++ l2) v.
Proof.
  intros H1 (front & E & Hv & Hf). exists (user_visible l1 ++ front).
  rewrite user_visible_app, E, app_assoc. repeat split; [assumption|].
  apply Forall_app. split; assumption.
Qed.

Lemma one_verdict_before (l1 l2 : list Event) (v : Message) :
  one_verdict l1 v -> user_visible l2 = [] -> one_verdict (l1 ++ l2) v.
Proof.
  intros (front & E & Hv & Hf) H2. exists front.
  rewrite user_visible_app, E, H2, app_nil_r. repeat split; assumption.
Qed.

Lemma one_verdict_last (l : list Event) (v : Message) :
  quiet l -> is_verdict v = true -> one_verdict (l ++ [Ev (Edit v) None]) v.
Proof.
  intros Hq Hv. exists (user_visible l). rewrite user_visible_app.
  repeat split; assumption.
Qed.

Lemma download_phase_quiet (w : World) (file : Document) evs o :
  download_phase_run w file evs o -> quiet evs.
Proof.
  destruct 1 as [e n F|e n F|evs e k R C L|evs x n F R C N];
    try (repeat constructor; fail).
  - destruct (download_ops_facts evs (download_run_ops _ _ _ _ _ R)) as [Hq _].
    apply quiet_app. split; [repeat constructor|].
    apply quiet_app. split; [assumption | repeat constructor].
  - destruct (download_ops_facts evs (download_run_ops _ _ _ _ _ R)) as [Hq _].
    apply quiet_app. split; [repeat constructor|].
    apply quiet_app. split; [assumption | destruct x; repeat constructor].
Qed.

Lemma upload_body_verdict (w : World) (file : Document) evs r :
  upload_body_run w file evs r ->
  match r with
  | Ok _ => exists status response,
      upload_final w = Ok (status, response)
      /\ one_verdict evs (success_notice file response)
  | Raise _ => quiet evs
  end.
Proof.
  destruct (service_calls_facts w) as [Hs _].
  destruct 1 as [e S|evs e S R L|evs status response x n F S R A].
  - exact Hs.
  - destruct (upload_ops_facts evs (upload_run_ops _ _ _ _ _ R)) as [Hq _].
    apply quiet_app. split; [assumption|].
    apply quiet_app. split; [repeat constructor | assumption].
  - destruct (upload_ops_facts evs (upload_run_ops _ _ _ _ _ R)) as [Hq _].
    destruct x as [e|]; cbn [raised_as].
    + apply quiet_app. split; [assumption|].
      apply quiet_app. split; [repeat constructor|].
      apply quiet_app. split; [assumption | repeat constructor].
    + exists status, response. split; [assumption|].
      apply one_verdict_after; [assumption|].
      apply (one_verdict_after [_; _]); [repeat constructor|].
      apply one_verdict_last; [assumption | reflexivity].
Qed.

Lemma cleanup_calls_silent (w : World) : user_visible (cleanup_calls w) = [].
Proof. reflexivity. Qed.

Lemma upload_phase_verdict (w : World) (file : Document) evs r :
  upload_phase_run w file evs r ->
  match r with
  | Ok _ => exists v, one_verdict evs v
  | Raise _ => quiet evs
  end.
Proof.
  destruct 1 as [evs B|evs e B K|evs e x n F B K].
  - destruct (upload_body_verdict _ _ _ _ B) as (status & response & _ & V).
    eexists. apply one_verdict_before; [exact V | reflexivity].
  - apply quiet_app. split; [exact (upload_body_verdict _ _ _ _ B) | repeat constructor].
  - pose proof (upload_body_verdict _ _ _ _ B) as Q. simpl in Q.
    destruct x as [e'|]; cbn [raised_as].
    + apply quiet_app. split; [assumption | repeat constructor].
    + eexists.
      change (?a ++ ?b :: ?c ++ ?d) with (a ++ [b] ++ c ++ d).
      rewrite app_assoc. apply one_verdict_before; [|reflexivity].
      apply one_verdict_last; [assumption | reflexivity].
Qed.

Lemma transfer_verdict (w : World) (file : Document) evs r :
  reliable_chat w ->
  transfer_run w file evs r ->
  r = Ok tt /\ exists v, one_verdict evs v.
Proof.
  intros Hc.
  destruct 1 as [evs e x n F D|evs_d evs_u e x n F D U|evs_d evs_u D U];
    try (rewrite Hc in F; subst x; cbn [raised_as]).
  - split; [reflexivity|]. eexists. unfold error_calls.
    apply one_verdict_after; [eapply download_phase_quiet; eassumption|].
    apply (one_verdict_after [_]); [repeat constructor|].
    exists []. repeat split. constructor.
  - split; [reflexivity|]. eexists. unfold error_calls.
    apply one_verdict_after; [eapply download_phase_quiet; eassumption|].
    apply one_verdict_after; [exact (upload_phase_verdict _ _ _ _ U)|].
    apply (one_verdict_after [_]); [repeat constructor|].
    exists []. repeat split. constructor.
  - split; [reflexivity|].
    destruct (upload_phase_verdict _ _ _ _ U) as [v V].
    exists v. apply one_verdict_after; [eapply download_phase_quiet; eassumption | exact V].
Qed.

(** ** The second file, seen through the calls that leave the process *)

Lemma chunks_written_observed (tr : list Event) :
  chunks_written (observed tr) = chunks_written tr.
Proof.
  induction tr as [|[op r] tr IH]; [reflexivity|].
  unfold observed in *. simpl.
  destruct op as [m|m| | | | | | | | | | | | |]; simpl; destruct r; simpl;
    rewrite ?IH; reflexivity.
Qed.

Lemma download_edits_observed (tr : list Event) :
  download_edits (observed tr) = download_edits tr.
Proof.
  induction tr as [|[op r] tr IH]; [reflexivity|].
  unfold observed in *. simpl.
  destruct op as [m|m| | | | | | | | | | | | |]; simpl; rewrite ?IH; reflexivity.
Qed.

Lemma upload_edits_observed (tr : list Event) :
  upload_edits (observed tr) = upload_edits tr.
Proof.
  induction tr as [|[op r] tr IH]; [reflexivity|].
  unfold observed in *. simpl.
  destruct op as [m|m| | | | | | | | | | | | |]; simpl; rewrite ?IH; reflexivity.
Qed.

Lemma provider_call_observed (tr : list Event) (op : Op) (x : option exn) :
  is_provider_op op = true -> (In (Ev op x) (observed tr) <-> In (Ev op x) tr).
Proof.
  intros H. unfold observed. rewrite filter_In. simpl.
  split; [tauto|]. intros Hin. split; [assumption|]. destruct op; try discriminate; reflexivity.
Qed.

(** What the two files agree on in a run of [handle_file]. *)
Lemma render_same_view (w : World) (update : Update) :
  let mobile := Mobile.handle_file w update initial in
  let render := Render.handle_file w update initial in
  fst render = fst mobile
  /\ observed (calls render) = observed (calls mobile)
  /\ user_visible (calls render) = user_visible (calls mobile)
  /\ deletions (calls render) = deletions (calls mobile)
  /\ download_completed (calls render) = download_completed (calls mobile)
  /\ chunks_written (calls render) = chunks_written (calls mobile)
  /\ download_edits (calls render) = download_edits (calls mobile)
  /\ upload_edits (calls render) = upload_edits (calls mobile).
Proof.
  intros mobile render.
  destruct (Sim_handle_file w update initial initial (alike_refl initial))
    as [Hr [_ [_ Hobs]]].
  fold mobile render in Hr, Hobs. unfold calls.
  split; [symmetry; exact Hr|]. split; [symmetry; exact Hobs|].
  repeat split.
  - rewrite <- (user_visible_observed (trace (snd render))), <- Hobs.
    apply user_visible_observed.
  - rewrite <- (deletions_observed (trace (snd render))), <- Hobs.
    apply deletions_observed.
  - rewrite <- (download_completed_observed (trace (snd render))), <- Hobs.
    apply download_completed_observed.
  - rewrite <- (chunks_written_observed (trace (snd render))), <- Hobs.
    apply chunks_written_observed.
  - rewrite <- (download_edits_observed (trace (snd render))), <- Hobs.
    apply download_edits_observed.
  - rewrite <- (upload_edits_observed (trace (snd render))), <- Hobs.
    apply upload_edits_observed.
Qed.

Lemma small_enough (file : Document) :
  file_size file <= 6 * 1024 ^ 3 -> (file_size file >? Mobile.max_size) = false.
Proof.
  intros H. rewrite Z.gtb_ltb. apply Z.ltb_ge.
  change Mobile.max_size with (6 * 1024 ^ 3). lia.
Qed.

(** ** Every transfer ends with one verdict *)

(** X4.  With a chat transport that answers every call, every transfer that
    gets past the size guard returns normally and shows the sender exactly
    one verdict (Upload Successful, Upload Failed or Error Processing File),
    as the last message of the run, whatever the download and the storage
    provider do; both files show the same one. *)
Theorem transfer_ends_with_one_verdict (w : World) (update : Update) (file : Document) :
  reliable_chat w ->
  permitted w update ->
  document update = Some file ->
  file_size file <= 6 * 1024 ^ 3 ->
  let mobile := Mobile.handle_file w update initial in
  let render := Render.handle_file w update initial in
  fst mobile = Ok tt
  /\ fst render = Ok tt
  /\ exists verdict,
       one_verdict (calls mobile) verdict /\ one_verdict (calls render) verdict.
Proof.
  intros Hc Hp Hd Hs mobile render.
  destruct (render_same_view w update) as (Hr & _ & Hv & _).
  fold mobile render in Hr, Hv.
  destruct (transfer_shape w update file Hp Hd (small_enough file Hs))
    as (rest & r & s' & Eq & Et & Hm).
  rewrite Hc in Hm, Et.
  destruct (transfer_verdict w file rest r Hc Hm) as [-> [v V]].
  assert (Hmob : one_verdict (calls mobile) v).
  { unfold calls, mobile. rewrite Eq. simpl. rewrite Et.
    apply (one_verdict_after [_]); [repeat constructor | exact V]. }
  split; [unfold mobile; rewrite Eq; reflexivity|].
  split; [rewrite Hr; unfold mobile; rewrite Eq; reflexivity|].
  exists v. split; [exact Hmob|].
  unfold one_verdict in *. rewrite Hv. exact Hmob.
Qed.

Lemma calm_world_reliable : reliable_chat calm_world.
Proof. intros n. reflexivity. Qed.

Lemma transfer_ends_with_one_verdict_witness :
  fst (Mobile.handle_file calm_world (file_update 10) initial) = Ok tt.
Proof.
  apply (transfer_ends_with_one_verdict calm_world (file_update 10) (document_of_size 10)).
  - exact calm_world_reliable.
  - left. reflexivity.
  - reflexivity.
  - intros H. discriminate H.
Defined.

(** ** No exception escapes a handler while the chat transport works *)

Section ReturnsLemmas.

Variable w : World.
Hypothesis chat_works : reliable_chat w.

Lemma Returns_ret {A : Type} (a : A) : Returns (ret a).
Proof. intros s. exists a, s. reflexivity. Qed.

Lemma Returns_bind {A B : Type} (m : M A) (k : A -> M B) :
  Returns m -> (forall a, Returns (k a)) -> Returns (bind m k).
Proof.
  intros Hm Hk s. unfold bind. destruct (Hm s) as (a & s1 & ->). apply Hk.
Qed.

Lemma Returns_try_except {A : Type} (body : M A) (handler : exn -> M A) :
  (forall e, Returns (handler e)) -> Returns (try_except body handler).
Proof.
  intros Hh s. unfold try_except. destruct (body s) as [[a|e] s1].
  - exists a, s1. reflexivity.
  - apply Hh.
Qed.

Lemma Returns_record (op : Op) : Returns (record op None).
Proof. intros s. eexists. eexists. reflexivity. Qed.

Lemma Returns_chat (op : Op) : Returns (chat w op).
Proof.
  intros s. unfold chat. rewrite chat_works. eexists. eexists. reflexivity.
Qed.

Lemma Returns_check_authorization (update : Update) :
  Returns (Mobile.check_authorization w update).
Proof.
  unfold Mobile.check_authorization.
  destruct (AUTHORIZED_USERS w); [apply Returns_ret|].
  destruct (existsb _ _); [apply Returns_ret|].
  apply Returns_bind; [apply Returns_chat | intros; apply Returns_ret].
Qed.

End ReturnsLemmas.

Ltac returns_step chat_works :=
  match goal with
  | |- Returns (bind _ _) => apply Returns_bind; [| intros ?]
  | |- Returns (ret _) => apply Returns_ret
  | |- Returns (log _ _) => apply Returns_record
  | |- Returns (reply_text _ _) => apply Returns_chat; exact chat_works
  | |- Returns (Mobile.check_authorization _ _) =>
      apply Returns_check_authorization; exact chat_works
  | |- Returns (Render.check_authorization _ _) =>
      apply Returns_check_authorization; exact chat_works
  | |- Returns (try_except _ _) => apply Returns_try_except; intros ?
  | |- Returns (if ?b then _ else _) => destruct b
  | |- Returns (match ?x with _ => _ end) => destruct x
  end.

Lemma Returns_handle (w : World) (ev : Inbound) (update : Update) :
  reliable_chat w ->
  Returns (Mobile.handle w ev update) /\ Returns (Render.handle w ev update).
Proof.
  intros Hc. split; destruct ev; simpl;
    unfold Mobile.start_command, Mobile.help_command, Mobile.status_command,
      Mobile.handle_file, Mobile.text_handler,
      Render.start_command, Render.help_command, Render.status_command,
      Render.handle_file, Render.text_handler;
    repeat returns_step Hc.
Qed.



(** ** How many status edits a transfer can make *)

Lemma download_progress_at_most_100 (d fs p : Z) :
  Mobile.download_progress d fs = Ok p -> p <= 100.
Proof.
  unfold Mobile.download_progress, rbind.
  destruct (Py.true_div d fs); [|discriminate].
  destruct (Py.float_of_int 100); [|discriminate].
  destruct (Py.int_of_float _); [|discriminate].
  intros H. inversion H. lia.
Qed.

Lemma download_run_budget fs d last evs r :
  download_run fs d last evs r ->
  last <= 100 ->
  3 * Z.of_nat (List.length (download_edits evs)) <= 100 - last.
Proof.
  induction 1; intros Hl; cbn [download_edits List.length];
    repeat match goal with
    | H : Mobile.download_progress _ _ = Ok _ |- _ =>
        apply download_progress_at_most_100 in H
    end;
    try (specialize (IHdownload_run ltac:(lia)));
    rewrite ?Nat2Z.inj_succ; try lia.
Qed.

Lemma report_run_budget name fs status last evs r :
  report_run name fs status last evs r ->
  Forall (fun p => p <= 100) (upload_edits evs) ->
  last <= 100 ->
  match r with
  | Ok last' =>
      last' <= 100
      /\ 5 * Z.of_nat (List.length (upload_edits evs)) <= last' - last
  | Raise _ => 5 * Z.of_nat (List.length (upload_edits evs)) <= 100 - last
  end.
Proof.
  destruct 1; cbn [upload_edits List.length]; intros Hf Hl;
    try (inversion Hf; subst); try lia.
Qed.

Lemma upload_run_budget name fs last evs r :
  upload_run name fs last evs r ->
  Forall (fun p => p <= 100) (upload_edits evs) ->
  last <= 100 ->
  5 * Z.of_nat (List.length (upload_edits evs)) <= 100 - last.
Proof.
  induction 1; cbn [upload_edits List.length]; intros Hf Hl; try lia.
  - match goal with R : report_run _ _ _ _ _ _ |- _ =>
      pose proof (report_run_budget _ _ _ _ _ _ R Hf Hl) as Hb end.
    cbv beta iota in Hb. lia.
  - match goal with R : report_run _ _ _ _ _ _ |- _ =>
      pose proof (report_run_budget _ _ _ _ _ _ R Hf Hl) as Hb end.
    cbv beta iota in Hb. lia.
  - rewrite upload_edits_app in *. apply Forall_app in Hf. destruct Hf as [Hf1 Hf2].
    match goal with R : report_run _ _ _ _ _ _ |- _ =>
      pose proof (report_run_budget _ _ _ _ _ _ R Hf1 Hl) as Hb end.
    cbv beta iota in Hb. destruct Hb as [Hl' Hb]. specialize (IHupload_run Hf2 Hl').
    rewrite length_app, Nat2Z.inj_add. lia.
Qed.

(** ** What each block of a transfer contributes *)

Ltac split_calls :=
  rewrite ?chunks_written_app, ?download_edits_app, ?upload_edits_app,
    ?download_completed_app, ?deletions_app, ?length_app.

Lemma download_ops_chunks_free (evs : list Event) :
  Forall (fun ev => upload_loop_op (ev_op ev) = true) evs ->
  Forall (fun ev => is_download_op (ev_op ev) = false) evs.
Proof.
  induction 1 as [|[op r] evs Hop _ IH]; constructor; [|assumption].
  simpl in *. destruct op; try discriminate; reflexivity.
Qed.

Lemma download_phase_facts (w : World) (file : Document) evs o :
  download_phase_run w file evs o ->
  deletions evs = 0%nat
  /\ download_completed evs = match o with None => true | Some _ => false end
  /\ (exists k, chunks_written evs = firstn k (download_chunks w))
  /\ (o = None -> chunks_written evs = download_chunks w /\ download_error w = None)
  /\ 3 * Z.of_nat (List.length (download_edits evs)) <= 101
  /\ upload_edits evs = []
  /\ Forall (fun ev => is_provider_op (ev_op ev) = false) evs.
Proof.
  destruct 1 as [e n F|e n F|evs e k R C L|evs x n F R C N];
    (split; [|split; [|split; [|split; [|split; [|split]]]]]);
    try (destruct (download_ops_facts evs (download_run_ops _ _ _ _ _ R))
           as (_ & Hd & Hc & Hu & Hp);
         pose proof (download_run_budget _ _ _ _ _ R ltac:(lia)) as Hb);
    split_calls; rewrite ?Hd, ?Hc, ?Hu, ?C;
    try discriminate; try reflexivity; try (repeat constructor; fail);
    try (exists 0%nat; reflexivity);
    try (apply Forall_app; split; [repeat constructor|];
         apply Forall_app; split; [assumption | repeat constructor]);
    try (cbn [download_edits app List.length]; lia).
  - exists k. cbn [chunks_written app]. now rewrite app_nil_r.
  - destruct x; reflexivity.
  - exists (List.length (download_chunks w)).
    rewrite firstn_all. destruct x; cbn [chunks_written app]; now rewrite app_nil_r.
  - intros _. split; [|assumption].
    destruct x; cbn [chunks_written app]; now rewrite app_nil_r.
Qed.

Lemma upload_body_facts (w : World) (file : Document) evs r :
  upload_body_run w file evs r ->
  chunks_written evs = []
  /\ download_edits evs = []
  /\ download_completed evs = false
  /\ deletions evs = 0%nat
  /\ (Forall (fun p => p <= 100) (upload_edits evs) ->
      5 * Z.of_nat (List.length (upload_edits evs)) <= 101).
Proof.
  destruct (service_calls_facts w) as (_ & Sd & Sc & Se & Su & Sw).
  destruct 1 as [e S|evs e S R L|evs status response x n F S R A];
    (split; [|split; [|split; [|split]]]);
    try (destruct (upload_ops_facts evs (upload_run_ops _ _ _ _ _ R))
           as (_ & Hd & Hc & He & Hw));
    split_calls; rewrite ?Sd, ?Sc, ?Se, ?Su, ?Sw, ?Hd, ?Hc, ?He, ?Hw;
    try reflexivity.
  - intros _. simpl. lia.
  - cbn [upload_edits app List.length Nat.add]. intros Hf.
    pose proof (upload_run_budget _ _ _ _ _ R Hf ltac:(lia)). lia.
  - cbn [upload_edits success_notice app List.length Nat.add].
    rewrite app_nil_r, Nat.add_0_r. intros Hf.
    pose proof (upload_run_budget _ _ _ _ _ R Hf ltac:(lia)). lia.
Qed.

Lemma upload_phase_facts (w : World) (file : Document) evs r :
  upload_phase_run w file evs r ->
  chunks_written evs = []
  /\ download_edits evs = []
  /\ download_completed evs = false
  /\ deletions evs = 1%nat
  /\ (Forall (fun p => p <= 100) (upload_edits evs) ->
      5 * Z.of_nat (List.length (upload_edits evs)) <= 101).
Proof.
  destruct 1 as [evs B|evs e B K|evs e x n F B K];
    destruct (upload_body_facts _ _ _ _ B) as (Hw & He & Hc & Hd & Hb);
    (split; [|split; [|split; [|split]]]);
    split_calls; rewrite ?Hw, ?He, ?Hc, ?Hd;
    try reflexivity;
    try (destruct x; reflexivity);
    try (cbn [upload_edits cleanup_calls app List.length Nat.add];
         rewrite ?app_nil_r, ?Nat.add_0_r; exact Hb).
  destruct x; cbn [upload_edits cleanup_calls app List.length Nat.add];
    rewrite ?app_nil_r, ?Nat.add_0_r; exact Hb.
Qed.

Lemma transfer_facts (w : World) (file : Document) evs r :
  transfer_run w file evs r ->
  (exists k, chunks_written evs = firstn k (download_chunks w))
  /\ (download_completed evs = true ->
      chunks_written evs = download_chunks w
      /\ download_error w = None
      /\ deletions evs = 1%nat)
  /\ 3 * Z.of_nat (List.length (download_edits evs)) <= 101
  /\ (Forall (fun p => p <= 100) (upload_edits evs) ->
      5 * Z.of_nat (List.length (upload_edits evs)) <= 101)
  /\ (forall op x, In (Ev op x) evs -> is_provider_op op = true ->
      download_completed evs = true).
Proof.
  destruct 1 as [evs e x n F D|evs_d evs_u e x n F D U|evs_d evs_u D U];
    destruct (download_phase_facts _ _ _ _ D) as (Dd & Dc & [k Dk] & Dall & Db & Du & Dp);
    try (destruct (upload_phase_facts _ _ _ _ U) as (Uw & Ue & Uc & Ud & Ub));
    (split; [|split; [|split; [|split]]]);
    split_calls; rewrite ?Dd, ?Dc, ?Du, ?Uw, ?Ue, ?Uc, ?Ud;
    cbn [error_calls chunks_written download_edits upload_edits download_completed
         existsb deletions List.filter List.length app orb Nat.add];
    rewrite ?app_nil_r, ?Nat.add_0_r, ?orb_false_r;
    try discriminate; try reflexivity; try assumption; try (exists k; assumption).
  - intros op y Hin Hop. apply in_app_or in Hin. destruct Hin as [Hin|Hin].
    + rewrite Forall_forall in Dp. specialize (Dp _ Hin). simpl in Dp. congruence.
    + simpl in Hin. destruct Hin as [Hin|[Hin|[]]]; inversion Hin; subst; discriminate.
  - intros _. destruct (Dall eq_refl) as [H1 H2]. auto.
  - intros _. destruct (Dall eq_refl) as [H1 H2]. auto.
Qed.

(** ** Every run of [handle_file] *)

Lemma permitted_or_refused (w : World) (update : Update) :
  permitted w update \/ refused w update.
Proof.
  unfold permitted, refused.
  destruct (AUTHORIZED_USERS w) as [|a l]; [left; left; reflexivity|].
  destruct (in_dec Z.eq_dec (effective_user_id update) (a :: l)) as [Hin|Hnin].
  - left. right. exact Hin.
  - right. split; [discriminate | exact Hnin].
Qed.

(** A run of [handle_file] is a single notice, or a transfer. *)
Lemma handle_file_cases (w : World) (update : Update) :
  (exists m,
      calls (Mobile.handle_file w update initial) = [Ev (Reply m) (chat_fault w 0)]
      /\ is_verdict m = false)
  \/ (exists file,
        permitted w update /\ document update = Some file
        /\ file_size file <= 6 * 1024 ^ 3).
Proof.
  destruct (permitted_or_refused w update) as [Hp|Hr].
  - destruct (document update) as [file|] eqn:Hd.
    + destruct (file_size file >? Mobile.max_size) eqn:Hs.
      * left. exists (MsgTooLarge (str_or (file_name file) "unnamed_file") (file_size file)).
        split; [|reflexivity].
        unfold Mobile.handle_file. rewrite (mobile_check_permitted_fn w update Hp), Hd.
        unfold bind, ret. cbn -[Z.gtb Mobile.max_size]. rewrite Hs.
        unfold calls, reply_text. rewrite chat_initial. reflexivity.
      * right. exists file. repeat split; try assumption.
        rewrite Z.gtb_ltb in Hs. apply Z.ltb_ge in Hs.
        change Mobile.max_size with (6 * 1024 ^ 3) in Hs. exact Hs.
    + left. exists MsgSendDocument. split; [|reflexivity].
      unfold Mobile.handle_file. rewrite (mobile_check_permitted_fn w update Hp), Hd.
      unfold bind, ret. cbn. unfold calls, reply_text. rewrite chat_initial. reflexivity.
  - left. exists MsgNotAuthorized. split; [|reflexivity].
    change (Mobile.handle_file w update) with (Mobile.handle w DocumentMessage update).
    rewrite (mobile_handle_refused w DocumentMessage update Hr). reflexivity.
Qed.

(** The calls of a transfer, with the File Received reply at their head. *)
Lemma transfer_calls (w : World) (update : Update) (file : Document) :
  permitted w update ->
  document update = Some file ->
  file_size file <= 6 * 1024 ^ 3 ->
  exists rest r,
    calls (Mobile.handle_file w update initial)
    = Ev (Reply (MsgFileReceived (name_of file) (file_size file))) (chat_fault w 0) :: rest
    /\ fst (Mobile.handle_file w update initial) = r
    /\ match chat_fault w 0 with
       | Some e => rest = [] /\ r = Raise e
       | None => transfer_run w file rest r
       end.
Proof.
  intros Hp Hd Hs.
  destruct (transfer_shape w update file Hp Hd (small_enough file Hs))
    as (rest & r & s' & Eq & Et & Hm).
  exists rest, r. unfold calls. rewrite Eq. auto.
Qed.

(** X6.  No run of [handle_file] makes more than 33 status edits in the download
    phase, however many chunks arrive: each edit needs 3 points more than
    the one before and the percentage is capped at 100.  The upload phase
    makes at most 20 as long as the provider reports at most 100 percent;
    its percentage is not capped. *)
Theorem status_edits_are_bounded (w : World) (update : Update) :
  let mobile := Mobile.handle_file w update initial in
  let render := Render.handle_file w update initial in
  (List.length (download_edits (calls mobile)) <= 33)%nat
  /\ (Forall (fun p => p <= 100) (upload_edits (calls mobile)) ->
      (List.length (upload_edits (calls mobile)) <= 20)%nat)
  /\ download_edits (calls render) = download_edits (calls mobile)
  /\ upload_edits (calls render) = upload_edits (calls mobile).
Proof.
  intros mobile render.
  destruct (render_same_view w update) as (_ & _ & _ & _ & _ & _ & Hde & Hue).
  fold mobile render in Hde, Hue.
  split; [|split; [|split; assumption]].
  - destruct (handle_file_cases w update) as [(m & E & _)|(file & Hp & Hd & Hs)].
    + fold mobile in E. rewrite E. simpl. lia.
    + destruct (transfer_calls w update file Hp Hd Hs) as (rest & r & E & _ & Hm).
      fold mobile in E. rewrite E. cbn [download_edits].
      destruct (chat_fault w 0) as [e|].
      * destruct Hm as [-> _]. simpl. lia.
      * destruct (transfer_facts _ _ _ _ Hm) as (_ & _ & Hb & _). lia.
  - destruct (handle_file_cases w update) as [(m & E & _)|(file & Hp & Hd & Hs)].
    + fold mobile in E. rewrite E. simpl. lia.
    + destruct (transfer_calls w update file Hp Hd Hs) as (rest & r & E & _ & Hm).
      fold mobile in E. rewrite E. cbn [upload_edits].
      destruct (chat_fault w 0) as [e|].
      * destruct Hm as [-> _]. simpl. lia.
      * intros Hf. destruct (transfer_facts _ _ _ _ Hm) as (_ & _ & _ & Hb & _).
        specialize (Hb Hf). lia.
Qed.

(** X7.  The chunks written to the temporary file are always a prefix of the
    chunks the chat transport yields, in order; and whenever the storage
    provider is contacted at all, the download has run to its end: every
    chunk was written, the iterator ended without error and the
    download-complete edit returned. *)
Theorem upload_follows_complete_download (w : World) (update : Update) :
  let mobile := Mobile.handle_file w update initial in
  let render := Render.handle_file w update initial in
  (exists k, chunks_written (calls mobile) = firstn k (download_chunks w))
  /\ (forall op x,
        In (Ev op x) (calls mobile) -> is_provider_op op = true ->
        chunks_written (calls mobile) = download_chunks w
        /\ download_error w = None
        /\ download_completed (calls mobile) = true)
  /\ chunks_written (calls render) = chunks_written (calls mobile)
  /\ (forall op x, is_provider_op op = true ->
        (In (Ev op x) (calls render) <-> In (Ev op x) (calls mobile))).
Proof.
  intros mobile render.
  destruct (render_same_view w update) as (_ & Hobs & _ & _ & _ & Hcw & _).
  fold mobile render in Hobs, Hcw.
  split; [|split; [|split; [assumption|]]].
  - destruct (handle_file_cases w update) as [(m & E & _)|(file & Hp & Hd & Hs)].
    + fold mobile in E. rewrite E. exists 0%nat. reflexivity.
    + destruct (transfer_calls w update file Hp Hd Hs) as (rest & r & E & _ & Hm).
      fold mobile in E. rewrite E. cbn [chunks_written].
      destruct (chat_fault w 0) as [e|].
      * destruct Hm as [-> _]. exists 0%nat. reflexivity.
      * destruct (transfer_facts _ _ _ _ Hm) as (Hk & _). exact Hk.
  - intros op x Hin Hop.
    destruct (handle_file_cases w update) as [(m & E & _)|(file & Hp & Hd & Hs)].
    + fold mobile in E. rewrite E in Hin. destruct Hin as [Hin|[]].
      inversion Hin; subst. discriminate.
    + destruct (transfer_calls w update file Hp Hd Hs) as (rest & r & E & _ & Hm).
      fold mobile in E. rewrite E in *. cbn [chunks_written].
      destruct Hin as [Hin|Hin]; [inversion Hin; subst; discriminate|].
      destruct (chat_fault w 0) as [e|].
      * destruct Hm as [-> _]. destruct Hin.
      * destruct (transfer_facts _ _ _ _ Hm) as (_ & Hall & _ & _ & Hprov).
        pose proof (Hprov op x Hin Hop) as Hc.
        destruct (Hall Hc) as (H1 & H2 & _).
        split; [assumption|]. split; [assumption|].
        unfold download_completed in *. simpl. exact Hc.
  - intros op x Hop.
    rewrite <- (provider_call_observed (calls render) op x Hop), Hobs.
    apply provider_call_observed. exact Hop.
Qed.

(** ** What a verdict tells *)

Lemma quiet_no_verdict (tr : list Event) (m : Message) :
  quiet tr -> In m (user_visible tr) -> is_verdict m = true -> False.
Proof.
  unfold quiet. rewrite Forall_forall. intros Hq Hin Hv.
  specialize (Hq m Hin). congruence.
Qed.

Lemma one_verdict_only (tr : list Event) (v m : Message) :
  one_verdict tr v -> In m (user_visible tr) -> is_verdict m = true -> m = v.
Proof.
  intros (front & E & _ & Hf) Hin Hv. rewrite E in Hin.
  apply in_app_or in Hin. destruct Hin as [Hin|[Hin|[]]]; [|auto].
  rewrite Forall_forall in Hf. specialize (Hf m Hin). congruence.
Qed.

Lemma user_visible_in_app (l1 l2 : list Event) (m : Message) :
  In m (user_visible (l1 ++ l2)) <-> In m (user_visible l1) \/ In m (user_visible l2).
Proof. rewrite user_visible_app. apply in_app_iff. Qed.

(** A success notice in the calls of the upload phase means that the phase
    returned, and names the provider's final answer. *)
Lemma upload_phase_success (w : World) (file : Document) evs r name size id link :
  upload_phase_run w file evs r ->
  In (MsgUploadSuccessful name size id link) (user_visible evs) ->
  r = Ok tt
  /\ exists status response,
       upload_final w = Ok (status, response)
       /\ MsgUploadSuccessful name size id link = success_notice file response.
Proof.
  intros U Hin.
  destruct U as [evs B|evs e B K|evs e x n F B K];
    pose proof (upload_body_verdict _ _ _ _ B) as V; cbv beta iota in V.
  - split; [reflexivity|]. destruct V as (status & response & A & V).
    exists status, response. split; [assumption|].
    apply user_visible_in_app in Hin. destruct Hin as [Hin|[]].
    apply (one_verdict_only _ _ _ V Hin). reflexivity.
  - exfalso. apply user_visible_in_app in Hin. destruct Hin as [Hin|[]].
    apply (quiet_no_verdict _ _ V Hin). reflexivity.
  - exfalso. apply user_visible_in_app in Hin. destruct Hin as [Hin|Hin].
    + apply (quiet_no_verdict _ _ V Hin). reflexivity.
    + destruct x; simpl in Hin; [destruct Hin|].
      destruct Hin as [Hin|[]]. discriminate.
Qed.

Lemma transfer_success (w : World) (file : Document) evs r name size id link :
  transfer_run w file evs r ->
  In (MsgUploadSuccessful name size id link) (user_visible evs) ->
  r = Ok tt
  /\ download_completed evs = true
  /\ exists status response,
       upload_final w = Ok (status, response)
       /\ MsgUploadSuccessful name size id link = success_notice file response.
Proof.
  intros T Hin.
  destruct T as [evs e x n F D|evs_d evs_u e x n F D U|evs_d evs_u D U];
    pose proof (download_phase_quiet _ _ _ _ D) as Q;
    destruct (download_phase_facts _ _ _ _ D) as (_ & Dc & _).
  - exfalso. apply user_visible_in_app in Hin. destruct Hin as [Hin|Hin].
    + apply (quiet_no_verdict _ _ Q Hin). reflexivity.
    + unfold error_calls in Hin. destruct x; simpl in Hin; [destruct Hin|].
      destruct Hin as [Hin|[]]. discriminate.
  - exfalso. apply user_visible_in_app in Hin. destruct Hin as [Hin|Hin].
    + apply (quiet_no_verdict _ _ Q Hin). reflexivity.
    + apply user_visible_in_app in Hin. destruct Hin as [Hin|Hin].
      * destruct (upload_phase_success _ _ _ _ _ _ _ _ U Hin) as [H _]. discriminate.
      * unfold error_calls in Hin. destruct x; simpl in Hin; [destruct Hin|].
        destruct Hin as [Hin|[]]. discriminate.
  - apply user_visible_in_app in Hin. destruct Hin as [Hin|Hin].
    + exfalso. apply (quiet_no_verdict _ _ Q Hin). reflexivity.
    + destruct (upload_phase_success _ _ _ _ _ _ _ _ U Hin) as [_ H].
      split; [reflexivity|]. split; [|exact H].
      rewrite download_completed_app, Dc. reflexivity.
Qed.

(** X8.  A success notice is only ever shown for a transfer that downloaded
    every chunk, got the provider's final answer and deleted the temporary
    file; it carries the id and the link of that answer. *)
Theorem success_notice_is_earned (w : World) (update : Update)
    (name : string) (size : Z) (id : option string) (link : string) :
  let mobile := Mobile.handle_file w update initial in
  let render := Render.handle_file w update initial in
  In (MsgUploadSuccessful name size id link) (user_visible (calls mobile)) ->
  (exists file status response,
      document update = Some file
      /\ upload_final w = Ok (status, response)
      /\ name = name_of file /\ size = file_size file
      /\ id = response_id response /\ link = link_of response)
  /\ fst mobile = Ok tt
  /\ chunks_written (calls mobile) = download_chunks w
  /\ download_error w = None
  /\ deletions (calls mobile) = 1%nat
  /\ In (MsgUploadSuccessful name size id link) (user_visible (calls render))
  /\ fst render = Ok tt.
Proof.
  intros mobile render Hin.
  destruct (render_same_view w update) as (Hr & _ & Hv & _).
  fold mobile render in Hr, Hv.
  destruct (handle_file_cases w update) as [(m & E & Hm)|(file & Hp & Hd & Hs)].
  { exfalso. fold mobile in E. rewrite E in Hin. simpl in Hin.
    destruct (chat_fault w 0); simpl in Hin; [destruct Hin|].
    destruct Hin as [Hin|[]]. subst m. discriminate. }
  destruct (transfer_calls w update file Hp Hd Hs) as (rest & r & E & Er & Hm).
  fold mobile in E, Er. rewrite E in Hin |- *.
  assert (Hrest : In (MsgUploadSuccessful name size id link) (user_visible rest)).
  { simpl in Hin. destruct (chat_fault w 0); simpl in Hin; [exact Hin|].
    destruct Hin as [Hin|Hin]; [discriminate | exact Hin]. }
  destruct (chat_fault w 0) as [e|] eqn:F0.
  { destruct Hm as [-> _]. destruct Hrest. }
  destruct (transfer_success _ _ _ _ _ _ _ _ Hm Hrest)
    as (-> & Hc & status & response & A & Heq).
  destruct (transfer_facts _ _ _ _ Hm) as (_ & Hall & _).
  destruct (Hall Hc) as (Hw & He & Hdel).
  unfold success_notice in Heq. inversion Heq; subst.
  split; [exists file, status, response; repeat split; assumption|].
  split; [exact Er|].
  split; [exact Hw|]. split; [exact He|]. split; [exact Hdel|].
  split; [rewrite Hv, E; simpl; right; exact Hrest|].
  rewrite Hr. exact Er.
Qed.

Lemma success_notice_is_earned_witness :
  fst (Mobile.handle_file calm_world (file_update 10) initial) = Ok tt
  /\ deletions (calls (Mobile.handle_file calm_world (file_update 10) initial)) = 1%nat.
Proof.
  destruct (success_notice_is_earned calm_world (file_update 10)
              "report.pdf" 10 (Some "1AbC") "Link not available")
    as (_ & H1 & _ & _ & H2 & _).
  - vm_compute. repeat ((left; reflexivity) || right).
  - split; assumption.
Defined.

(** ** How a failure of the storage provider is reported *)

Lemma report_run_no_provider name fs status last evs r :
  report_run name fs status last evs r ->
  Forall (fun ev => is_provider_op (ev_op ev) = false) evs.
Proof. destruct 1; repeat constructor. Qed.

(** A provider call that raised ends the upload loop with its exception. *)
Lemma upload_run_raise name fs last evs r op e :
  upload_run name fs last evs r ->
  In (Ev op (Some e)) evs -> is_provider_op op = true -> r = Raise e.
Proof.
  intros U Hin Hop.
  induction U as [last e0|last status response evs last' R
                 |last status evs e0 R|last status evs last' evs' r R U IH].
  - destruct Hin as [Hin|[]]. inversion Hin; subst. reflexivity.
  - destruct Hin as [Hin|Hin]; [discriminate|].
    pose proof (report_run_no_provider _ _ _ _ _ _ R) as F.
    rewrite Forall_forall in F. specialize (F _ Hin). simpl in F. congruence.
  - destruct Hin as [Hin|Hin]; [discriminate|].
    pose proof (report_run_no_provider _ _ _ _ _ _ R) as F.
    rewrite Forall_forall in F. specialize (F _ Hin). simpl in F. congruence.
  - destruct Hin as [Hin|Hin]; [discriminate|].
    apply in_app_or in Hin. destruct Hin as [Hin|Hin]; [|exact (IH Hin)].
    pose proof (report_run_no_provider _ _ _ _ _ _ R) as F.
    rewrite Forall_forall in F. specialize (F _ Hin). simpl in F. congruence.
Qed.

Lemma service_calls_raise (w : World) op e :
  In (Ev op (Some e)) (service_calls w) -> service_result w = Raise e.
Proof.
  unfold service_calls, service_result, authentication_failure.
  destruct (credentials_missing w).
  - intros [Hin|[]]. discriminate.
  - destruct (build_fault w) as [e0|].
    + intros [Hin|[Hin|[]]]; [inversion Hin; reflexivity | discriminate].
    + intros [Hin|[]]. discriminate.
Qed.

Lemma upload_body_raise (w : World) (file : Document) evs r op e :
  upload_body_run w file evs r ->
  In (Ev op (Some e)) evs -> is_provider_op op = true -> r = Raise e.
Proof.
  intros B Hin Hop.
  destruct B as [e0 S|evs e0 S R L|evs status response x n F S R A].
  - apply service_calls_raise in Hin. congruence.
  - apply in_app_or in Hin. destruct Hin as [Hin|Hin].
    { apply service_calls_raise in Hin. congruence. }
    apply in_app_or in Hin. destruct Hin as [Hin|Hin].
    { destruct Hin as [Hin|[Hin|[]]]; discriminate. }
    pose proof (upload_run_raise _ _ _ _ _ _ _ R Hin Hop) as He.
    inversion He. reflexivity.
  - apply in_app_or in Hin. destruct Hin as [Hin|Hin].
    { apply service_calls_raise in Hin. congruence. }
    apply in_app_or in Hin. destruct Hin as [Hin|Hin].
    { destruct Hin as [Hin|[Hin|[]]]; discriminate. }
    apply in_app_or in Hin. destruct Hin as [Hin|Hin].
    { pose proof (upload_run_raise _ _ _ _ _ _ _ R Hin Hop). discriminate. }
    destruct Hin as [Hin|[]]. inversion Hin; subst. discriminate.
Qed.

Lemma upload_phase_raise (w : World) (file : Document) evs r op e :
  reliable_chat w ->
  upload_phase_run w file evs r ->
  In (Ev op (Some e)) evs -> is_provider_op op = true ->
  if is_HttpError e
  then r = Ok tt /\ one_verdict evs (MsgUploadFailed (name_of file) (exn_str e))
  else r = Raise e /\ quiet evs.
Proof.
  intros Hc U Hin Hop.
  assert (Hclean : forall l, In (Ev op (Some e)) (l ++ cleanup_calls w) ->
                             In (Ev op (Some e)) l).
  { intros l H. apply in_app_or in H. destruct H as [H|H]; [exact H|].
    destruct H as [H|[H|[H|[]]]]; discriminate. }
  destruct U as [evs B|evs e0 B K|evs e0 x n F B K].
  - apply Hclean in Hin.
    pose proof (upload_body_raise _ _ _ _ _ _ B Hin Hop). discriminate.
  - apply Hclean in Hin.
    pose proof (upload_body_raise _ _ _ _ _ _ B Hin Hop) as He. inversion He; subst e0.
    rewrite K. split; [reflexivity|].
    apply quiet_app. split; [exact (upload_body_verdict _ _ _ _ B) | repeat constructor].
  - rewrite Hc in F. subst x. cbn [raised_as].
    assert (Hb : In (Ev op (Some e)) evs).
    { apply in_app_or in Hin. destruct Hin as [Hin|Hin]; [exact Hin|].
      destruct Hin as [Hin|Hin]; [discriminate|].
      destruct Hin as [Hin|Hin]; [discriminate|].
      destruct Hin as [H|[H|[H|[]]]]; discriminate. }
    pose proof (upload_body_raise _ _ _ _ _ _ B Hb Hop) as He. inversion He; subst e0.
    rewrite K. split; [reflexivity|].
    pose proof (upload_body_verdict _ _ _ _ B) as Q. cbv beta iota in Q.
    change (?a ++ ?b :: ?c ++ ?d) with (a ++ [b] ++ c ++ d).
    rewrite app_assoc. apply one_verdict_before; [|reflexivity].
    apply one_verdict_last; [assumption | reflexivity].
Qed.

Lemma transfer_raise (w : World) (file : Document) evs r op e :
  reliable_chat w ->
  transfer_run w file evs r ->
  In (Ev op (Some e)) evs -> is_provider_op op = true ->
  r = Ok tt
  /\ one_verdict evs
       (if is_HttpError e
        then MsgUploadFailed (name_of file) (exn_str e)
        else MsgErrorProcessing (name_of file) (exn_str e)).
Proof.
  intros Hc T Hin Hop.
  assert (Herr : forall e0 x, In (Ev op (Some e)) (error_calls file e0 x) -> False).
  { intros e0 x [H|[H|[]]]; [discriminate|]. inversion H; subst. discriminate. }
  destruct T as [evs e0 x n F D|evs_d evs_u e0 x n F D U|evs_d evs_u D U];
    pose proof (download_phase_quiet _ _ _ _ D) as Q;
    destruct (download_phase_facts _ _ _ _ D) as (_ & _ & _ & _ & _ & _ & Dp);
    rewrite Forall_forall in Dp.
  - exfalso. apply in_app_or in Hin. destruct Hin as [Hin|Hin].
    + specialize (Dp _ Hin). simpl in Dp. congruence.
    + exact (Herr _ _ Hin).
  - rewrite Hc in F. subst x. cbn [raised_as]. split; [reflexivity|].
    apply in_app_or in Hin. destruct Hin as [Hin|Hin].
    { specialize (Dp _ Hin). simpl in Dp. congruence. }
    apply in_app_or in Hin. destruct Hin as [Hin|Hin]; [|destruct (Herr _ _ Hin)].
    pose proof (upload_phase_raise _ _ _ _ _ _ Hc U Hin Hop) as H.
    destruct (is_HttpError e); destruct H as [H1 H2]; [discriminate|].
    inversion H1; subst e0.
    apply one_verdict_after; [assumption|].
    apply one_verdict_after; [assumption|].
    unfold error_calls. apply (one_verdict_after [_]); [repeat constructor|].
    exists []. repeat split. constructor.
  - split; [reflexivity|].
    apply in_app_or in Hin. destruct Hin as [Hin|Hin].
    { specialize (Dp _ Hin). simpl in Dp. congruence. }
    pose proof (upload_phase_raise _ _ _ _ _ _ Hc U Hin Hop) as H.
    destruct (is_HttpError e); destruct H as [H1 H2]; [|discriminate].
    apply one_verdict_after; assumption.
Qed.

(** X9.  When a call to the storage provider raises during a transfer (building
    the service, or a chunk of the resumable upload) and the chat transport
    works, the sender is told once, last: with the Upload Failed notice for
    an [HttpError], with the Error Processing notice for any other
    exception, each carrying the text of that exception.  The handler
    returns normally and the temporary file is deleted once. *)
Theorem provider_failure_verdict (w : World) (update : Update) (op : Op) (e : exn) :
  let mobile := Mobile.handle_file w update initial in
  let render := Render.handle_file w update initial in
  reliable_chat w ->
  In (Ev op (Some e)) (calls mobile) ->
  is_provider_op op = true ->
  exists file,
    document update = Some file
    /\ fst mobile = Ok tt
    /\ fst render = Ok tt
    /\ (let verdict :=
          if is_HttpError e
          then MsgUploadFailed (name_of file) (exn_str e)
          else MsgErrorProcessing (name_of file) (exn_str e) in
        one_verdict (calls mobile) verdict /\ one_verdict (calls render) verdict)
    /\ deletions (calls mobile) = 1%nat
    /\ deletions (calls render) = 1%nat.
Proof.
  intros mobile render Hc Hin Hop.
  destruct (render_same_view w update) as (Hr & _ & Hv & Hdel & _).
  fold mobile render in Hr, Hv, Hdel.
  destruct (handle_file_cases w update) as [(m & E & Hm)|(file & Hp & Hd & Hs)].
  { exfalso. fold mobile in E. rewrite E in Hin. destruct Hin as [Hin|[]].
    inversion Hin; subst. discriminate. }
  destruct (transfer_calls w update file Hp Hd Hs) as (rest & r & E & Er & Hm).
  fold mobile in E, Er. rewrite Hc in E, Hm. rewrite E in Hin.
  destruct Hin as [Hin|Hin]; [inversion Hin; subst; discriminate|].
  destruct (transfer_raise _ _ _ _ _ _ Hc Hm Hin Hop) as [-> V].
  destruct (transfer_facts _ _ _ _ Hm) as (_ & Hall & _ & _ & Hprov).
  destruct (Hall (Hprov op (Some e) Hin Hop)) as (_ & _ & Hone).
  assert (Hmob : one_verdict (calls mobile)
                   (if is_HttpError e
                    then MsgUploadFailed (name_of file) (exn_str e)
                    else MsgErrorProcessing (name_of file) (exn_str e))).
  { rewrite E. apply (one_verdict_after [_]); [repeat constructor | exact V]. }
  assert (Hdm : deletions (calls mobile) = 1%nat) by (rewrite E; exact Hone).
  exists file. split; [exact Hd|]. split; [exact Er|].
  split; [rewrite Hr; exact Er|].
  split; [|split; [exact Hdm | rewrite Hdel; exact Hdm]].
  split; [exact Hmob|]. unfold one_verdict in *. rewrite Hv. exact Hmob.
Qed.

Lemma provider_failure_verdict_witness :
  fst (Mobile.handle_file full_drive_world (file_update 10) initial) = Ok tt.
Proof.
  destruct (provider_failure_verdict full_drive_world (file_update 10)
              (NextChunk None) quota_exceeded) as (file & _ & H & _).
  - intros n. reflexivity.
  - vm_compute. repeat ((left; reflexivity) || right).
  - reflexivity.
  - exact H.
Defined.

(** ** A transfer without credentials *)

Lemma missing_credentials (w : World) :
  GOOGLE_SERVICE_ACCOUNT w = None \/ GOOGLE_SERVICE_ACCOUNT w = Some "" ->
  service_result w = Raise no_credentials
  /\ service_calls w = [authentication_failure no_credentials].
Proof.
  unfold service_result, service_calls, credentials_missing.
  intros [-> | ->]; split; reflexivity.
Qed.

Lemma upload_phase_no_credentials (w : World) (file : Document) evs r :
  service_result w = Raise no_credentials ->
  upload_phase_run w file evs r ->
  evs = service_calls w ++ cleanup_calls w /\ r = Raise no_credentials.
Proof.
  intros S U.
  assert (Hbody : forall evs0 r0, upload_body_run w file evs0 r0 ->
                    evs0 = service_calls w /\ r0 = Raise no_credentials).
  { intros evs0 r0 B. destruct B; try congruence. split; [reflexivity | congruence]. }
  destruct U as [evs B|evs e B K|evs e x n F B K];
    destruct (Hbody _ _ B) as [-> He]; try discriminate.
  - split; [reflexivity | exact He].
  - inversion He; subst e. discriminate.
Qed.



(** ** Divisions and products that come out exactly *)

Lemma Zdigits2_lower (m : Z) : 0 < m -> 2 ^ (Zdigits2 m - 1) <= m.
Proof.
  destruct m as [|p|p]; try lia. intros _.
  change (Zdigits2 (Z.pos p)) with (Z.pos (digits2_pos p)). rewrite digits2_pos_size.
  pose proof (Pos.size_le p) as H. apply Pos2Z.pos_le_pos in H.
  rewrite Pos2Z.inj_pow in H. change (Z.pos p~0) with (2 * Z.pos p) in H.
  replace (Z.pos (Pos.size p)) with (Z.pos (Pos.size p) - 1 + 1) in H by lia.
  rewrite Z.pow_add_r in H by lia. lia.
Qed.

Lemma Zdigits2_unique (m d : Z) :
  0 < d -> 2 ^ (d - 1) <= m < 2 ^ d -> Zdigits2 m = d.
Proof.
  intros Hd [Hlo Hhi].
  assert (Hm : 0 < m) by (pose proof (Z.pow_pos_nonneg 2 (d - 1)); lia).
  assert (Hle : Zdigits2 m <= d) by (apply Zdigits2_le; lia).
  pose proof (Zdigits2_gt m) as Hgt. rewrite Z.abs_eq in Hgt by lia.
  pose proof (Zdigits2_nonneg m) as Hn.
  destruct (Z_lt_le_dec (Zdigits2 m) d) as [Hlt|]; [|lia].
  exfalso.
  assert (2 ^ Zdigits2 m <= 2 ^ (d - 1)) by (apply Z.pow_le_mono_r; lia).
  lia.
Qed.

Lemma Zdigits2_shift (m j : Z) :
  0 < m -> 0 <= j -> Zdigits2 (m * 2 ^ j) = Zdigits2 m + j.
Proof.
  intros Hm Hj.
  pose proof (Zdigits2_lower m Hm) as Hlo.
  pose proof (Zdigits2_gt m) as Hhi. rewrite Z.abs_eq in Hhi by lia.
  assert (Hd : 0 < Zdigits2 m) by (destruct m; simpl; lia).
  assert (Hp : 0 < 2 ^ j) by (apply Z.pow_pos_nonneg; lia).
  apply Zdigits2_unique; [lia|].
  replace (Zdigits2 m + j - 1) with (Zdigits2 m - 1 + j) by lia.
  rewrite !Z.pow_add_r by lia. split; nia.
Qed.

Lemma Zdigits2_pow2 (k : Z) : 0 <= k -> Zdigits2 (2 ^ k) = k + 1.
Proof.
  intros Hk. replace (2 ^ k) with (1 * 2 ^ k) by lia.
  rewrite Zdigits2_shift by lia. change (Zdigits2 1) with 1. lia.
Qed.

(** Shifting out zeros loses nothing. *)
Lemma iter_shr_1_exact (j : positive) :
  forall c, 0 < c ->
    iter_pos shr_1 j {| shr_m := c * 2 ^ Z.pos j; shr_r := false; shr_s := false |}
    = {| shr_m := c; shr_r := false; shr_s := false |}.
Proof.
  assert (Hone : forall c, 0 < c ->
            shr_1 {| shr_m := c * 2; shr_r := false; shr_s := false |}
            = {| shr_m := c; shr_r := false; shr_s := false |}).
  { intros c Hc. destruct c as [|p|p]; try lia.
    replace (Z.pos p * 2) with (Z.pos p~0) by lia. reflexivity. }
  induction j as [j IH|j IH|]; intros c Hc; cbn [iter_pos].
  - replace (c * 2 ^ Z.pos j~1) with ((c * 2 ^ Z.pos j * 2 ^ Z.pos j) * 2).
    + assert (0 < 2 ^ Z.pos j) by (apply Z.pow_pos_nonneg; lia).
      rewrite Hone by nia. rewrite IH by nia. apply IH. exact Hc.
    + rewrite (Pos2Z.inj_xI j), Z.pow_add_r, Z.pow_mul_r by lia.
      change (2 ^ 2) with 4. change (2 ^ 1) with 2.
      replace (4 ^ Z.pos j) with (2 ^ Z.pos j * 2 ^ Z.pos j); [ring|].
      rewrite <- Z.pow_mul_l. reflexivity.
  - replace (c * 2 ^ Z.pos j~0) with (c * 2 ^ Z.pos j * 2 ^ Z.pos j).
    + assert (0 < 2 ^ Z.pos j) by (apply Z.pow_pos_nonneg; lia).
      rewrite IH by nia. apply IH. exact Hc.
    + rewrite (Pos2Z.inj_xO j), Z.pow_mul_r by lia. change (2 ^ 2) with 4.
      replace (4 ^ Z.pos j) with (2 ^ Z.pos j * 2 ^ Z.pos j); [ring|].
      rewrite <- Z.pow_mul_l. reflexivity.
  - change (2 ^ 1) with 2. apply Hone. exact Hc.
Qed.

(** A mantissa of 53 digits followed by zeros is rounded to itself. *)
Lemma binary_round_aux_exact (sx : bool) (c j e : Z) :
  Zdigits2 c = 53 -> 0 < c -> 0 <= j ->
  -1074 <= e + j <= 971 ->
  binary_round_aux Py.prec Py.emax sx (c * 2 ^ j) e loc_Exact
  = S754_finite sx (Z.to_pos c) (e + j).
Proof.
  intros Hd Hc Hj He.
  assert (Hp : 0 < 2 ^ j) by (apply Z.pow_pos_nonneg; lia).
  assert (Hfirst : shr_fexp Py.prec Py.emax (c * 2 ^ j) e loc_Exact
                   = ({| shr_m := c; shr_r := false; shr_s := false |}, e + j)).
  { unfold shr_fexp. rewrite Zdigits2_shift, Hd by lia.
    replace (fexp Py.prec Py.emax (53 + j + e) - e) with j
      by (unfold fexp, emin, Py.prec, Py.emax; lia).
    unfold shr. cbn [shr_record_of_loc]. destruct j as [|p|p]; try lia.
    - rewrite Z.mul_1_r, Z.add_0_r. reflexivity.
    - rewrite iter_shr_1_exact by lia. reflexivity. }
  assert (Hsecond : shr_fexp Py.prec Py.emax c (e + j) loc_Exact
                    = ({| shr_m := c; shr_r := false; shr_s := false |}, e + j)).
  { unfold shr_fexp. rewrite Hd.
    replace (fexp Py.prec Py.emax (53 + (e + j)) - (e + j)) with 0
      by (unfold fexp, emin, Py.prec, Py.emax; lia).
    reflexivity. }
  unfold binary_round_aux. rewrite Hfirst. cbn [shr_m loc_of_shr_record round_nearest_even].
  rewrite Hsecond. cbn [shr_m].
  destruct c as [|p|p]; try lia. cbn [Z.to_pos].
  replace (e + j <=? Py.emax - Py.prec) with true; [reflexivity|].
  symmetry. apply Z.leb_le. unfold Py.emax, Py.prec. lia.
Qed.

Lemma new_location_exact (nb_steps : Z) : new_location nb_steps 0 = loc_Exact.
Proof. unfold new_location. destruct (Z.even nb_steps); reflexivity. Qed.

(** A quotient of two integers that fits 53 digits, times a power of two,
    is the float the division gives. *)
Lemma true_div_exact (a b c j : Z) :
  0 < a -> 0 < b ->
  let e := Zdigits2 a - Zdigits2 b - 53 in
  -1074 <= e < 0 ->
  a * 2 ^ (- e) = c * 2 ^ j * b ->
  Zdigits2 c = 53 -> 0 < c -> 0 <= j -> e + j <= 971 ->
  Py.true_div a b = Ok (S754_finite false (Z.to_pos c) (e + j)).
Proof.
  intros Ha Hb e He Hq Hd Hc Hj Hej.
  assert (Hcore : SFdiv_core_binary Py.prec Py.emax a 0 b 0 = (c * 2 ^ j, e, loc_Exact)).
  { unfold SFdiv_core_binary. rewrite !Z.add_0_r.
    replace (Z.min (fexp Py.prec Py.emax (Zdigits2 a - Zdigits2 b)) (0 - 0)) with e
      by (unfold fexp, emin, Py.prec, Py.emax; subst e; lia).
    replace (0 - 0 - e) with (- e) by lia.
    destruct (- e) as [|s|s] eqn:Es; try lia.
    rewrite Z.shiftl_mul_pow2 by lia. rewrite Hq.
    destruct (Z.div_eucl (c * 2 ^ j * b) b) as [q r] eqn:E.
    assert (q = c * 2 ^ j * b / b) by (unfold Z.div; rewrite E; reflexivity).
    assert (r = (c * 2 ^ j * b) mod b) by (unfold Z.modulo; rewrite E; reflexivity).
    rewrite Z.div_mul in * by lia. rewrite Z.mod_mul in * by lia. subst q r.
    rewrite new_location_exact. reflexivity. }
  unfold Py.true_div.
  destruct b as [|pb|pb]; try lia. destruct a as [|pa|pa]; try lia.
  cbn [Z.ltb Z.compare Z.abs Z.to_pos]. unfold SFdiv. rewrite Hcore. cbn [xorb].
  rewrite binary_round_aux_exact by (try assumption; lia).
  reflexivity.
Qed.

(** A size below 2^53 divided by a power of two. *)
Lemma true_div_pow2 (n k : Z) :
  0 < n < 2 ^ 53 -> 0 <= k <= 64 ->
  Py.true_div n (2 ^ k)
  = Ok (S754_finite false (Z.to_pos (n * 2 ^ (53 - Zdigits2 n))) (Zdigits2 n - 53 - k)).
Proof.
  intros Hn Hk.
  assert (Hd : 1 <= Zdigits2 n <= 53).
  { split; [destruct n; simpl; lia | apply Zdigits2_le; lia]. }
  assert (Hp : 0 < 2 ^ k) by (apply Z.pow_pos_nonneg; lia).
  assert (Ht : 0 < 2 ^ (53 - Zdigits2 n)) by (apply Z.pow_pos_nonneg; lia).
  replace (Zdigits2 n - 53 - k) with (Zdigits2 n - Zdigits2 (2 ^ k) - 53 + 1)
    by (rewrite Zdigits2_pow2; lia).
  apply true_div_exact; rewrite ?Zdigits2_pow2 by lia; try lia.
  - replace (- (Zdigits2 n - (k + 1) - 53)) with ((53 - Zdigits2 n) + 1 + k) by lia.
    rewrite !Z.pow_add_r by lia. ring.
  - rewrite Zdigits2_shift by lia. lia.
Qed.

(** Any positive integer divided by itself is 1.0. *)
Lemma true_div_self (a : Z) :
  0 < a -> Py.true_div a a = Ok (S754_finite false (Z.to_pos (2 ^ 52)) (-52)).
Proof.
  intros Ha.
  replace (-52) with (Zdigits2 a - Zdigits2 a - 53 + 1) by lia.
  apply true_div_exact; try lia.
  - replace (- (Zdigits2 a - Zdigits2 a - 53)) with 53 by lia.
    change (2 ^ 53) with (2 ^ 52 * 2 ^ 1). ring.
  - reflexivity.
Qed.

(** ** Sizes as [format_file_size] prints them *)

Lemma scaled_round_pow2 (n t k : Z) :
  0 < n -> 0 <= t -> 0 <= k -> 0 < t + k ->
  Py.scaled_round 2 (Z.to_pos (n * 2 ^ t)) (- (t + k))
  = round_half_even (100 * n) (2 ^ k).
Proof.
  intros Hn Ht Hk Htk.
  assert (Hpt : 0 < 2 ^ t) by (apply Z.pow_pos_nonneg; lia).
  assert (Hpk : 0 < 2 ^ k) by (apply Z.pow_pos_nonneg; lia).
  unfold Py.scaled_round, round_half_even.
  rewrite Z2Pos.id by nia.
  destruct (- (t + k)) as [|p|p] eqn:E; try lia.
  replace (Z.pos p) with (k + t) by lia.
  change (10 ^ Z.of_nat 2) with 100.
  replace (n * 2 ^ t * 100) with (100 * n * 2 ^ t) by ring.
  rewrite Z.pow_add_r by lia.
  rewrite Z.div_mul_cancel_r by lia.
  rewrite Z.mul_mod_distr_r by lia.
  replace (2 * ((100 * n) mod 2 ^ k * 2 ^ t)) with (2 * ((100 * n) mod 2 ^ k) * 2 ^ t) by ring.
  rewrite <- Zmult_compare_compat_r by lia.
  reflexivity.
Qed.

Lemma format_fixed_pow2 (n k : Z) :
  0 < n < 2 ^ 53 -> 0 < k <= 64 ->
  exists f,
    Py.true_div n (2 ^ k) = Ok f
    /\ Py.format_fixed 2 f = two_decimals (round_half_even (100 * n) (2 ^ k)).
Proof.
  intros Hn Hk. eexists. split; [apply true_div_pow2; lia|].
  assert (Hd : 1 <= Zdigits2 n <= 53).
  { split; [destruct n; simpl; lia | apply Zdigits2_le; lia]. }
  unfold Py.format_fixed.
  replace (Zdigits2 n - 53 - k) with (- ((53 - Zdigits2 n) + k)) by lia.
  rewrite scaled_round_pow2 by lia.
  reflexivity.
Qed.

Lemma round_half_even_near (num den : Z) :
  0 < den -> 2 * Z.abs (num - round_half_even num den * den) <= den.
Proof.
  intros Hden. unfold round_half_even.
  pose proof (Z.div_mod num den ltac:(lia)) as Hdm.
  pose proof (Z.mod_pos_bound num den Hden) as Hb.
  set (q := num / den) in *. set (r := num mod den) in *. clearbody q r.
  assert (E0 : num - q * den = r) by lia.
  assert (E1 : num - (q + 1) * den = r - den) by lia.
  destruct (Z.compare_spec (2 * r) den) as [C|C|C];
    try destruct (Z.even q); rewrite ?E0, ?E1; lia.
Qed.

(** X11.  For every size below 2^53 bytes, [format_file_size] prints the exact
    size in the largest unit that it reaches (1024-based), as a decimal
    with two places rounded to the nearest hundredth, ties to even; below
    1024, and for negative sizes, the integer itself.  The binary64
    division and the formatting lose nothing. *)
Theorem sizes_are_printed_exactly (size_bytes : Z) :
  size_bytes < 2 ^ 53 ->
  Mobile.format_file_size size_bytes = Ok (size_text size_bytes)
  /\ Render.format_file_size size_bytes = Ok (size_text size_bytes)
  /\ (forall unit, 0 < unit ->
        2 * Z.abs (100 * size_bytes - round_half_even (100 * size_bytes) unit * unit)
        <= unit).
Proof.
  intros Hn.
  assert (H : Mobile.format_file_size size_bytes = Ok (size_text size_bytes)).
  { unfold Mobile.format_file_size, size_text.
    change (1024 ^ 3) with (2 ^ 30). change (1024 ^ 2) with (2 ^ 20).
    change 1024 with (2 ^ 10).
    destruct (Z.geb_spec size_bytes (2 ^ 30)).
    { destruct (format_fixed_pow2 size_bytes 30) as (f & E1 & E2); [lia | lia |].
      rewrite E1. cbn [rbind]. rewrite E2.
      repeat match goal with
      | |- context [?x <? ?y] => destruct (Z.ltb_spec x y); try lia
      end. reflexivity. }
    destruct (Z.geb_spec size_bytes (2 ^ 20)).
    { destruct (format_fixed_pow2 size_bytes 20) as (f & E1 & E2); [lia | lia |].
      rewrite E1. cbn [rbind]. rewrite E2.
      repeat match goal with
      | |- context [?x <? ?y] => destruct (Z.ltb_spec x y); try lia
      end. reflexivity. }
    destruct (Z.geb_spec size_bytes (2 ^ 10)).
    { destruct (format_fixed_pow2 size_bytes 10) as (f & E1 & E2); [lia | lia |].
      rewrite E1. cbn [rbind]. rewrite E2.
      repeat match goal with
      | |- context [?x <? ?y] => destruct (Z.ltb_spec x y); try lia
      end. reflexivity. }
    destruct (Z.ltb_spec size_bytes (2 ^ 10)); [reflexivity | lia]. }
  split; [exact H|]. split; [exact H|].
  intros unit Hu. apply round_half_even_near. exact Hu.
Qed.

Lemma sizes_are_printed_exactly_witness :
  Mobile.format_file_size (1024 ^ 2 - 1) = Ok (size_text (1024 ^ 2 - 1)).
Proof. apply (sizes_are_printed_exactly (1024 ^ 2 - 1)). reflexivity. Defined.

(** One byte short of a mebibyte is shown in the smaller unit. *)
Example size_text_values :
  size_text (1024 ^ 2 - 1) = "1024.00KB"
  /\ size_text 1536 = "1.50KB"
  /\ size_text (6 * 1024 ^ 3) = "6.00GB"
  /\ size_text 1029 = "1.00KB"
  /\ size_text 1030 = "1.01KB"
  /\ size_text (-5) = "-5B".
Proof. vm_compute. repeat split; reflexivity. Qed.

(** ** Floats that stay finite *)

Lemma binary_round_aux_modest (sx : bool) (mx ex : Z) (lx : location) :
  0 <= mx -> Zdigits2 mx <= 260 -> ex <= 400 ->
  let f := binary_round_aux Py.prec Py.emax sx mx ex lx in
  modest (Zdigits2 mx + 1) (Z.max ex (-1074) + 2 * Zdigits2 mx) f /\ signed sx f.
Proof.
  intros Hm Hd He. unfold binary_round_aux.
  destruct (shr_fexp_tame mx ex lx Hm) as [[Hm1 Hd1] He1].
  destruct (shr_fexp Py.prec Py.emax mx ex lx) as [mrs1 e1]. cbn [fst snd] in *.
  destruct (round_nearest_even_tame (shr_m mrs1) (loc_of_shr_record mrs1) Hm1)
    as [Hm2 Hd2].
  set (m2 := round_nearest_even (shr_m mrs1) (loc_of_shr_record mrs1)) in *.
  destruct (shr_fexp_tame m2 e1 loc_Exact Hm2) as [[Hm3 Hd3] He3].
  destruct (shr_fexp Py.prec Py.emax m2 e1 loc_Exact) as [mrs2 e2]. cbn [fst snd] in *.
  pose proof (Zdigits2_nonneg mx). pose proof (Zdigits2_nonneg m2).
  assert (Hb : e2 <= 971 /\ e2 <= Z.max ex (-1074) + 2 * Zdigits2 mx)
    by (unfold fexp, emin, Py.prec, Py.emax in *; lia).
  destruct (shr_m mrs2) as [|p|p]; [split; exact I || reflexivity | | lia].
  replace (e2 <=? Py.emax - Py.prec) with true
    by (symmetry; apply Z.leb_le; unfold Py.emax, Py.prec; lia).
  split; [|reflexivity]. split; lia.
Qed.

Lemma Zdigits2_mul (a b : Z) :
  0 < a -> 0 < b -> Zdigits2 (a * b) <= Zdigits2 a + Zdigits2 b.
Proof.
  intros Ha Hb.
  pose proof (Zdigits2_gt a) as Ga. pose proof (Zdigits2_gt b) as Gb.
  rewrite Z.abs_eq in Ga, Gb by lia.
  pose proof (Zdigits2_nonneg a). pose proof (Zdigits2_nonneg b).
  apply Zdigits2_le; [lia|]. rewrite Z.abs_eq by nia.
  rewrite Z.pow_add_r by lia. nia.
Qed.

(** The product of two modest floats is modest. *)
Lemma fmul_modest (x y : Py.float) (dx ex dy ey : Z) (sx sy : bool) :
  modest dx ex x -> modest dy ey y -> signed sx x -> signed sy y ->
  dx + dy <= 260 -> ex + ey <= 400 ->
  modest (dx + dy + 1) (Z.max (ex + ey) (-1074) + 2 * (dx + dy)) (Py.fmul x y)
  /\ signed (xorb sx sy) (Py.fmul x y).
Proof.
  intros Mx My Sx Sy Hd He.
  destruct x as [s1| | |s1 m1 e1]; try contradiction;
    destruct y as [s2| | |s2 m2 e2]; try contradiction;
    simpl in Sx, Sy; subst; try (split; [exact I | reflexivity]).
  destruct Mx as [Mx1 Mx2], My as [My1 My2].
  unfold Py.fmul, SFmul.
  pose proof (Zdigits2_mul (Z.pos m1) (Z.pos m2) ltac:(lia) ltac:(lia)) as Hp.
  change (Z.pos (m1 * m2)) with (Z.pos m1 * Z.pos m2).
  destruct (binary_round_aux_modest (xorb sx sy) (Z.pos m1 * Z.pos m2) (e1 + e2) loc_Exact)
    as [M S]; try lia.
  split; [|exact S].
  destruct (binary_round_aux Py.prec Py.emax (xorb sx sy) (Z.pos m1 * Z.pos m2) (e1 + e2) loc_Exact);
    cbn [modest] in *; try contradiction; [exact I|]. split; lia.
Qed.

Lemma SFdiv_core_exponent (a b q e : Z) (l : location) :
  SFdiv_core_binary Py.prec Py.emax a 0 b 0 = (q, e, l) -> e <= 0.
Proof.
  unfold SFdiv_core_binary.
  match goal with |- context [Z.div_eucl ?x ?y] => destruct (Z.div_eucl x y) end.
  intros H. inversion H. lia.
Qed.

(** The quotient of two integers below 2^64 is a modest float of the sign
    of the dividend. *)
Lemma true_div_modest (a b : Z) :
  0 <= a < 2 ^ 64 -> 0 < b < 2 ^ 64 ->
  exists f, Py.true_div a b = Ok f /\ modest 201 400 f /\ signed false f.
Proof.
  intros Ha Hb. unfold Py.true_div.
  destruct b as [|pb|pb]; try lia. destruct a as [|pa|pa]; try lia.
  { eexists. split; [reflexivity|]. split; [exact I | reflexivity]. }
  cbn [Z.ltb Z.compare Z.abs Z.to_pos]. unfold SFdiv.
  destruct (SFdiv_core_binary Py.prec Py.emax (Z.pos pa) 0 (Z.pos pb) 0)
    as [[mz ez] lz] eqn:E.
  destruct (SFdiv_core_tame pa pb ltac:(lia) ltac:(lia) mz ez lz E) as (H1 & H2 & _).
  pose proof (SFdiv_core_exponent _ _ _ _ _ E) as H3.
  destruct (binary_round_aux_modest (xorb false false) mz ez lz) as [M S]; try lia.
  pose proof (Zdigits2_nonneg mz).
  destruct (binary_round_aux Py.prec Py.emax (xorb false false) mz ez lz);
    cbn [modest signed] in *; try contradiction.
  - eexists. split; [reflexivity|]. split; [exact I | exact S].
  - eexists. split; [reflexivity|]. split; [split; lia | exact S].
Qed.

Lemma int_of_float_signed (f : Py.float) (d e : Z) :
  modest d e f -> signed false f -> exists n, Py.int_of_float f = Ok n /\ 0 <= n.
Proof.
  destruct f as [s| | |s m ex]; cbn [modest signed]; try contradiction.
  - intros _ _. exists 0. split; [reflexivity | lia].
  - intros _ ->. eexists. split; [reflexivity|].
    destruct ex; [apply Z.shiftl_nonneg | apply Z.shiftl_nonneg | apply Z.shiftr_nonneg]; lia.
Qed.

Lemma hundred_is_modest :
  exists f, Py.float_of_int 100 = Ok f /\ modest 53 (-46) f /\ signed false f.
Proof.
  eexists. split; [vm_compute; reflexivity|]. split; [|reflexivity].
  cbn [modest]. split; [vm_compute; discriminate | lia].
Qed.

(** ** The percentage of the download phase *)

Lemma download_progress_in_range (d fs : Z) :
  0 <= d < 2 ^ 64 -> 0 < fs < 2 ^ 64 ->
  exists p, Mobile.download_progress d fs = Ok p /\ 0 <= p <= 100.
Proof.
  intros Hd Hfs. unfold Mobile.download_progress.
  destruct (true_div_modest d fs Hd Hfs) as (ratio & -> & Mr & Sr).
  destruct hundred_is_modest as (hundred & -> & Mh & Sh). cbn [rbind].
  destruct (fmul_modest ratio hundred 201 400 53 (-46) false false Mr Mh Sr Sh)
    as [Mp Sp]; try lia.
  destruct (int_of_float_signed _ _ _ Mp Sp) as (n & -> & Hn). cbn [rbind].
  eexists. split; [reflexivity | lia].
Qed.

(** X12.  For a positive declared size, the percentage of the download phase is
    always computed and lies between 0 and 100: 0 before the first byte
    and exactly 100 once the bytes received equal the declared size.  The
    computation can only fail for a declared size of 0. *)
Theorem download_progress_range (d fs : Z) :
  0 <= d < 2 ^ 64 -> 0 < fs < 2 ^ 64 ->
  exists p,
    Mobile.download_progress d fs = Ok p
    /\ Render.download_progress d fs = Ok p
    /\ 0 <= p <= 100
    /\ (d = 0 -> p = 0)
    /\ (d = fs -> p = 100).
Proof.
  intros Hd Hfs.
  destruct (download_progress_in_range d fs Hd Hfs) as (p & Hp & Hr).
  exists p. split; [exact Hp|]. split; [exact Hp|]. split; [exact Hr|]. split.
  - intros ->. revert Hp. unfold Mobile.download_progress, Py.true_div.
    destruct fs as [|q|q]; try lia. vm_compute. congruence.
  - intros ->. revert Hp. unfold Mobile.download_progress.
    rewrite true_div_self by lia. vm_compute. congruence.
Qed.

Lemma download_progress_range_witness :
  exists p, Mobile.download_progress 29 100 = Ok p /\ 0 <= p <= 100.
Proof.
  destruct (download_progress_range 29 100) as (p & H & _ & R & _); try lia.
  exists p. split; assumption.
Defined.

(** ** A transfer in which nothing fails *)

Lemma shift_pos_pow2 (d m : positive) :
  Z.pos (shift_pos d m) = Z.pos m * 2 ^ Z.pos d.
Proof.
  rewrite shift_pos_correct. change (Z.pow_pos 2 d) with (2 ^ Z.pos d). lia.
Qed.

(** [float(n)] of a size below 2^64. *)
Lemma float_of_int_modest (n : Z) :
  0 <= n < 2 ^ 64 ->
  exists f, Py.float_of_int n = Ok f /\ modest 65 128 f /\ signed false f.
Proof.
  intros Hn. destruct n as [|p|p]; [| |lia].
  { eexists. split; [reflexivity|]. split; [exact I | reflexivity]. }
  unfold Py.float_of_int, binary_normalize, binary_round, shl_align.
  assert (Hd : Zdigits2 (Z.pos p) <= 64) by (apply Zdigits2_le; [lia | simpl Z.abs; lia]).
  pose proof (Zdigits2_nonneg (Z.pos p)) as Hd0.
  change (Z.pos (digits2_pos p)) with (Zdigits2 (Z.pos p)).
  set (ex' := fexp Py.prec Py.emax (Zdigits2 (Z.pos p) + 0)).
  assert (Hex : Zdigits2 (Z.pos p) - 53 <= ex')
    by (unfold ex', fexp, emin, Py.prec, Py.emax; lia).
  assert (Hround : forall mz ez, Zdigits2 (Z.pos mz) <= 64 -> ez <= 0 ->
    exists f,
      match binary_round_aux Py.prec Py.emax false (Z.pos mz) ez loc_Exact with
      | S754_infinity _ => Raise (Exn OverflowError "int too large to convert to float")
      | f => Ok f
      end = Ok f /\ modest 65 128 f /\ signed false f).
  { intros mz ez Hmz Hez.
    pose proof (Zdigits2_nonneg (Z.pos mz)).
    destruct (binary_round_aux_modest false (Z.pos mz) ez loc_Exact) as [M S];
      [lia | lia | lia |].
    cbv zeta in M, S.
    destruct (binary_round_aux Py.prec Py.emax false (Z.pos mz) ez loc_Exact)
      as [s| | |s m e]; cbn [modest signed] in M, S; try contradiction.
    - eexists. split; [reflexivity|]. split; [exact I | exact S].
    - eexists. split; [reflexivity|]. split; [|exact S].
      cbn [modest]. split; lia. }
  destruct (ex' - 0) as [|d|d] eqn:Ed.
  - apply Hround; lia.
  - apply Hround; lia.
  - apply Hround; [|lia].
    change (PosDef.Pos.iter xO p d) with (shift_pos d p).
    rewrite shift_pos_pow2, Zdigits2_shift by lia. lia.
Qed.

Lemma modest_signed (d e : Z) (f : Py.float) : modest d e f -> exists s, signed s f.
Proof.
  destruct f as [s| | |s m ex]; cbn [modest signed]; try contradiction;
    intros _; exists s; reflexivity.
Qed.

Lemma int_of_float_modest (d e : Z) (f : Py.float) :
  modest d e f -> exists n, Py.int_of_float f = Ok n.
Proof.
  destruct f as [s| | |s m ex]; cbn [modest]; try contradiction;
    intros _; eexists; reflexivity.
Qed.

(** The arithmetic of one upload report is defined for a fraction of
    moderate size. *)
Lemma upload_progress_returns (f : Py.float) :
  sane_fraction f -> exists p, Mobile.upload_progress f = Ok p.
Proof.
  intros Hf. unfold Mobile.upload_progress.
  destruct hundred_is_modest as (hundred & -> & Mh & Sh). cbn [rbind].
  destruct (modest_signed _ _ _ Hf) as [s Sf].
  destruct (fmul_modest f hundred 53 0 53 (-46) s false Hf Mh Sf Sh) as [M _]; [lia..|].
  exact (int_of_float_modest _ _ _ M).
Qed.

Lemma uploaded_size_returns (fs : Z) (f : Py.float) :
  0 <= fs < 2 ^ 64 -> sane_fraction f -> exists n, Mobile.uploaded_size_of fs f = Ok n.
Proof.
  intros Hfs Hf. unfold Mobile.uploaded_size_of.
  destruct (float_of_int_modest fs Hfs) as (size & -> & Ms & Ss). cbn [rbind].
  destruct (modest_signed _ _ _ Hf) as [s Sf].
  destruct (fmul_modest size f 65 128 53 0 false s Ms Hf Ss Sf) as [M _]; [lia..|].
  exact (int_of_float_modest _ _ _ M).
Qed.

Lemma upload_report_returns (w : World) (name : string) (fs : Z)
    (status : option Py.float) (last : Z) (s : State) :
  reliable_chat w -> 0 <= fs < 2 ^ 64 -> sane_status status ->
  exists last' s', Mobile.upload_report w name fs status last s = (Ok last', s').
Proof.
  intros Hc Hfs Hst. unfold Mobile.upload_report.
  destruct status as [f|]; [|eexists; eexists; reflexivity].
  cbn [sane_status] in Hst.
  destruct (upload_progress_returns f Hst) as [p Hp].
  destruct (uploaded_size_returns fs f Hfs Hst) as [u Hu].
  unfold bind, lift. rewrite Hp, Hu.
  destruct (p - last >=? 5); [|eexists; eexists; reflexivity].
  unfold edit_text, chat. rewrite Hc. eexists. eexists. reflexivity.
Qed.

(** With a chat transport that answers and statuses of moderate size, the
    upload loop returns the provider's final response. *)
Lemma upload_loop_returns (w : World) (name : string) (fs : Z)
    (status : option Py.float) (response : Response) :
  reliable_chat w -> 0 <= fs < 2 ^ 64 ->
  upload_final w = Ok (status, response) -> sane_status status ->
  forall steps, Forall sane_status steps ->
  forall last s, fst (Mobile.upload_loop w name fs steps last s) = Ok response.
Proof.
  intros Hc Hfs Hfinal Hst steps Hsteps.
  induction Hsteps as [|st rest Hs _ IH]; intros last s; cbn [Mobile.upload_loop].
  - rewrite Hfinal. unfold bind, record.
    match goal with |- context [Mobile.upload_report w name fs status last ?s1] =>
      destruct (upload_report_returns w name fs status last s1 Hc Hfs Hst)
        as (last' & s' & ->) end.
    reflexivity.
  - unfold bind at 1. unfold record at 1. unfold bind at 1.
    match goal with |- context [Mobile.upload_report w name fs st last ?s1] =>
      destruct (upload_report_returns w name fs st last s1 Hc Hfs Hs)
        as (last' & s' & ->) end.
    apply IH.
Qed.

(** With a chat transport that answers, a positive declared size and an
    iterator that ends without error, the download loop returns. *)
Lemma download_loop_returns (w : World) (fs : Z) :
  reliable_chat w -> download_error w = None -> 0 < fs < 2 ^ 64 ->
  forall chunks d last s,
    0 <= d -> d + total_bytes chunks < 2 ^ 64 ->
    fst (Mobile.download_loop w fs chunks d last s) = Ok tt.
Proof.
  intros Hc Herr Hfs chunks.
  induction chunks as [|c rest IH]; intros d last s Hd Hsum;
    cbn [Mobile.download_loop].
  - rewrite Herr. reflexivity.
  - cbn [total_bytes fold_right] in Hsum. fold (total_bytes rest) in Hsum.
    assert (Hrest : 0 <= total_bytes rest).
    { clear. induction rest as [|c rest IH]; cbn [total_bytes fold_right]; [lia|].
      fold (total_bytes rest). lia. }
    destruct (download_progress_in_range (d + Z.of_N c) fs) as (p & Hp & _); [lia | lia |].
    unfold bind at 1. unfold record at 1. unfold bind at 1. unfold fs_write, record at 1.
    unfold bind at 1. unfold lift. rewrite Hp.
    destruct (p - last >=? 3).
    + unfold bind at 1. unfold edit_text, chat. rewrite Hc. apply IH; lia.
    + apply IH; lia.
Qed.

Lemma download_phase_completes (w : World) (file : Document) evs o :
  reliable_chat w -> download_error w = None ->
  0 < file_size file < 2 ^ 64 ->
  total_bytes (download_chunks w) < 2 ^ 64 ->
  download_phase_run w file evs o -> o = None.
Proof.
  intros Hc Herr Hfs Hsum D.
  destruct D as [e n F|e n F|evs e k R C L|evs x n F R C N].
  - rewrite Hc in F. discriminate.
  - rewrite Hc in F. discriminate.
  - destruct L as [s L].
    rewrite (download_loop_returns w (file_size file) Hc Herr Hfs) in L by lia.
    discriminate.
  - rewrite Hc in F. congruence.
Qed.

Lemma upload_body_completes (w : World) (file : Document) evs r
    (status : option Py.float) (response : Response) :
  reliable_chat w -> service_result w = Ok tt ->
  0 <= file_size file < 2 ^ 64 ->
  Forall sane_status (upload_progress_steps w) ->
  upload_final w = Ok (status, response) -> sane_status status ->
  upload_body_run w file evs r -> r = Ok tt.
Proof.
  intros Hc Hs Hfs Hsteps Hfinal Hst B.
  destruct B as [e S|evs e S R L|evs status' response' x n F S R A].
  - congruence.
  - destruct L as [s L].
    rewrite (upload_loop_returns w (name_of file) (file_size file) status response
               Hc Hfs Hfinal Hst _ Hsteps) in L.
    discriminate.
  - rewrite Hc in F. subst x. reflexivity.
Qed.

Lemma upload_phase_completes (w : World) (file : Document) evs r
    (status : option Py.float) (response : Response) :
  reliable_chat w -> service_result w = Ok tt ->
  0 <= file_size file < 2 ^ 64 ->
  Forall sane_status (upload_progress_steps w) ->
  upload_final w = Ok (status, response) -> sane_status status ->
  upload_phase_run w file evs r ->
  r = Ok tt /\ one_verdict evs (success_notice file response).
Proof.
  intros Hc Hs Hfs Hsteps Hfinal Hst U.
  destruct U as [evs B|evs e B K|evs e x n F B K];
    try (pose proof (upload_body_completes w file _ _ status response
                       Hc Hs Hfs Hsteps Hfinal Hst B); discriminate).
  split; [reflexivity|].
  destruct (upload_body_verdict _ _ _ _ B) as (status' & response' & Hf & V).
  rewrite Hfinal in Hf. inversion Hf; subst.
  apply one_verdict_before; [exact V | apply cleanup_calls_silent].
Qed.

Lemma transfer_completes (w : World) (file : Document) evs r
    (status : option Py.float) (response : Response) :
  reliable_chat w -> download_error w = None ->
  0 < file_size file < 2 ^ 64 ->
  total_bytes (download_chunks w) < 2 ^ 64 ->
  service_result w = Ok tt ->
  Forall sane_status (upload_progress_steps w) ->
  upload_final w = Ok (status, response) -> sane_status status ->
  transfer_run w file evs r ->
  r = Ok tt /\ one_verdict evs (success_notice file response).
Proof.
  intros Hc Herr Hfs Hsum Hs Hsteps Hfinal Hst T.
  destruct T as [evs e x n F D|evs_d evs_u e x n F D U|evs_d evs_u D U].
  - pose proof (download_phase_completes _ _ _ _ Hc Herr Hfs Hsum D). discriminate.
  - destruct (upload_phase_completes w file _ _ status response Hc Hs
                ltac:(lia) Hsteps Hfinal Hst U) as [H _].
    discriminate.
  - split; [reflexivity|].
    destruct (upload_phase_completes w file _ _ status response Hc Hs
                ltac:(lia) Hsteps Hfinal Hst U) as [_ V].
    apply one_verdict_after; [exact (download_phase_quiet _ _ _ _ D) | exact V].
Qed.



(** ** The status report *)

Lemma render_status_command_eq : Render.status_command = Mobile.status_command.
Proof. reflexivity. Qed.



Lemma string_append_assoc (a b c : string) : ((a ++ b) ++ c = a ++ (b ++ c))%string.
Proof. induction a as [|ch a IH]; simpl; [reflexivity | now rewrite IH]. Qed.

Lemma string_append_empty (a : string) : (a ++ "" = a)%string.
Proof. induction a as [|ch a IH]; simpl; [reflexivity | now rewrite IH]. Qed.

(** A quota figure in GiB: the float, its sign and, for a positive figure,
    its text. *)
Lemma gib_float (n : Z) :
  0 <= n < 2 ^ 53 ->
  exists f,
    Py.true_div n (1024 ^ 3) = Ok f
    /\ (0 < n -> (Py.format_fixed 2 f ++ "GB")%string = gib_text n)
    /\ Py.fpos f = (0 <? n)
    /\ match f with
       | S754_zero false => n = 0
       | S754_finite false _ _ => 0 < n
       | _ => False
       end.
Proof.
  intros Hn. destruct (Z.eq_dec n 0) as [->|Hnz].
  { exists (S754_zero false). split; [reflexivity|].
    split; [lia|]. split; reflexivity. }
  change (1024 ^ 3) with (2 ^ 30).
  assert (Hpos : 0 < n < 2 ^ 53) by lia.
  destruct (format_fixed_pow2 n 30 Hpos ltac:(lia)) as (f & Hf & Ht).
  pose proof (true_div_pow2 n 30 Hpos ltac:(lia)) as He.
  rewrite Hf in He.
  assert (Hfe : exists m e, f = S754_finite false m e).
  { injection He as He. eexists. eexists. exact He. }
  destruct Hfe as (m & e & ->).
  exists (S754_finite false m e). split; [exact Hf|]. split.
  { intros _. unfold gib_text. change (1024 ^ 3) with (2 ^ 30).
    rewrite Ht. reflexivity. }
  split.
  - cbn [Py.fpos]. symmetry. apply Z.ltb_lt. lia.
  - lia.
Qed.

(** X15.  The text of the quota report.  For a usage from 1 byte and a limit from
    0, both below 2^53 bytes, the text is always formed: each figure is the
    exact number of GiB rounded to the nearest hundredth, and the limit and
    the percentage are shown exactly when the limit is positive; a limit of
    0, the value a missing [limit] counts as, is no division by zero.  Same
    text in both files. *)
Theorem status_report_text (used total : Z) :
  0 < used < 2 ^ 53 -> 0 <= total < 2 ^ 53 ->
  exists percentage,
    Mobile.message_text (MsgStatusConnected used total)
    = Ok (status_head ++ gib_text used
          ++ (if (0 <? total)%Z
              then " of " ++ gib_text total ++ " (" ++ percentage ++ "%)"
              else ""))%string
    /\ Render.message_text (MsgStatusConnected used total)
       = Mobile.message_text (MsgStatusConnected used total).
Proof.
  intros Hu Ht.
  destruct (gib_float used ltac:(lia)) as (fu & Eu & Tu & Pu & Su).
  destruct (gib_float total Ht) as (ft & Et & Tt & Pt & St).
  specialize (Tu ltac:(lia)).
  destruct hundred_is_modest as (hundred & Eh & _ & _).
  exists (Py.format_fixed 1 (Py.fmul (SFdiv Py.prec Py.emax fu ft) hundred)).
  assert (Hd : (0 <? total) = true -> Py.fdiv fu ft = Ok (SFdiv Py.prec Py.emax fu ft)).
  { intros Hpos. apply Z.ltb_lt in Hpos.
    destruct ft as [[]| | |[] m e]; try contradiction; try reflexivity. lia. }
  assert (Hg : (0 <? total) = true ->
               (Py.format_fixed 2 ft ++ "GB")%string = gib_text total).
  { intros Hpos. apply Z.ltb_lt in Hpos. exact (Tt Hpos). }
  assert (Hm : Mobile.message_text (MsgStatusConnected used total)
    = Ok (status_head ++ gib_text used
          ++ (if (0 <? total)%Z
              then " of " ++ gib_text total ++ " ("
                   ++ Py.format_fixed 1 (Py.fmul (SFdiv Py.prec Py.emax fu ft) hundred)
                   ++ "%)"
              else ""))%string).
  { cbn [Mobile.message_text]. rewrite Eu, Et. cbn [rbind]. rewrite Pt.
    rewrite <- Tu. unfold status_head.
    destruct (0 <? total) eqn:Hpos.
    - rewrite (Hd eq_refl), Eh. cbn [rbind]. rewrite <- (Hg eq_refl).
      rewrite !string_append_assoc. reflexivity.
    - rewrite string_append_empty, !string_append_assoc. reflexivity. }
  split; [exact Hm|].
  rewrite Hm. cbn [Render.message_text]. rewrite Eu, Et. cbn [rbind]. rewrite Pt.
  rewrite <- Tu. unfold status_head.
  destruct (0 <? total) eqn:Hpos.
  - rewrite (Hd eq_refl), Eh. cbn [rbind]. rewrite <- (Hg eq_refl).
    rewrite !string_append_assoc. reflexivity.
  - rewrite string_append_empty, !string_append_assoc. reflexivity.
Qed.

Lemma status_report_text_witness :
  exists text, Mobile.message_text (MsgStatusConnected (5 * 1024 ^ 3) 0) = Ok text.
Proof.
  destruct (status_report_text (5 * 1024 ^ 3) 0) as (p & H & _); [lia | lia |].
  eexists. exact H.
Defined.

(** ** The allow-list *)

Lemma split_commas_cons (s : string) : exists piece pieces, split_commas s = piece :: pieces.
Proof.
  induction s as [|c rest (piece & pieces & IH)]; cbn [split_commas].
  - eexists. eexists. reflexivity.
  - destruct (Ascii.eqb c ","%char); [eexists; eexists; reflexivity|].
    rewrite IH. eexists. eexists. reflexivity.
Qed.

(** Splitting loses nothing. *)
Lemma join_split_commas (s : string) : join_commas (split_commas s) = s.
Proof.
  induction s as [|c rest IH]; [reflexivity|]. cbn [split_commas].
  destruct (Ascii.eqb_spec c ","%char) as [->|Hc].
  - destruct (split_commas_cons rest) as (piece & pieces & E).
    rewrite E in IH |- *. cbn [join_commas append] in *. now rewrite IH.
  - destruct (split_commas_cons rest) as (piece & pieces & E).
    rewrite E in IH |- *. destruct pieces as [|piece' pieces];
      cbn [join_commas append] in *; now rewrite IH.
Qed.

(** No piece is kept exactly when the string holds nothing but commas. *)
Lemma no_piece_kept (s : string) :
  filter nonempty (split_commas s) = [] <-> only_commas s = true.
Proof.
  induction s as [|c rest IH]; cbn [split_commas only_commas].
  - split; reflexivity.
  - destruct (Ascii.eqb c ","%char); cbn [andb].
    + cbn [filter nonempty]. exact IH.
    + destruct (split_commas rest) as [|piece pieces];
        cbn [filter nonempty]; split; discriminate.
Qed.

Lemma convert_all_length (py_int : string -> Result Z) (pieces : list string) :
  forall ids, convert_all py_int pieces = Ok ids -> List.length ids = List.length pieces.
Proof.
  induction pieces as [|piece rest IH]; intros ids; cbn [convert_all].
  - intros H. inversion H. reflexivity.
  - destruct (py_int piece) as [n|e]; cbn [rbind]; [|discriminate].
    destruct (convert_all py_int rest) as [ids'|e]; cbn [rbind]; [|discriminate].
    intros H. inversion H. cbn [List.length]. now rewrite (IH ids' eq_refl).
Qed.

Lemma convert_all_raises (py_int : string -> Result Z) (pieces : list string) :
  (exists piece e, In piece pieces /\ py_int piece = Raise e) ->
  exists e, convert_all py_int pieces = Raise e.
Proof.
  induction pieces as [|piece rest IH]; intros (p & e & Hin & Hp); [destruct Hin|].
  cbn [convert_all]. destruct (py_int piece) as [n|e'] eqn:E; cbn [rbind];
    [|eexists; reflexivity].
  destruct Hin as [->|Hin]; [congruence|].
  destruct (IH (ex_intro _ p (ex_intro _ e (conj Hin Hp)))) as [e0 ->].
  cbn [rbind]. eexists. reflexivity.
Qed.


